(** * dinodoro: a shallow embedding of [dinodoro.ts]

    The program is a Pomodoro-style timer: it selects one of three operating
    modes, then arms [setTimeout] timers whose handlers log a status line and
    shell out to [osascript], [open] or [afplay].

    Modelling conventions.
    - A JavaScript string is a [string] holding its UTF-8 bytes.  Every string
      operation the program uses ([replace] of an ASCII character,
      [startsWith], [===], [trim], [parseInt], [encodeURIComponent]) acts on
      the UTF-8 bytes of a well-formed string exactly as it acts on the code
      units.
    - The numeric flags and all time values are integers ([Z]): whole
      numbers of minutes and of milliseconds.  A double carries every integer
      of magnitude up to 2^53 exactly; the number returned by [parseInt] is
      [NaN] or the integer read, rounded to the nearest double.
    - Time is the clock of the timer facility: a timer armed at time [t]
      fires at [t] plus the delay as [setTimeout] takes it, a 32-bit signed
      integer; handlers take no time, and timers that are due together fire
      in the order they were armed.  Time 0 is the moment [main] arms its
      timers.
    - The result of the flag parser (the object [flags]) and the outcome of
      an external command are inputs of the model.  What a command does on
      the machine is not observed, only whether it could be started: a
      command that cannot be started rejects its promise.  Where the program
      has dropped that promise the rejection ends the process; where it has
      attached a [catch], the error is printed and the program goes on. *)

From Stdlib Require Import ZArith List String Ascii Bool Lia DecimalString Sorted.
From Stdlib Require Decimal DecimalPos DecimalZ.
Import ListNotations.
Local Open Scope string_scope.
Local Open Scope Z_scope.

(** ** JavaScript strings *)

Module Js.

(** The double-quote and line-feed characters, which a literal cannot hold
    conveniently. *)
Definition dq : string := String (ascii_of_nat 34) EmptyString.
Definition nl : string := String (ascii_of_nat 10) EmptyString.
Definition sq : ascii := ascii_of_nat 39.
Definition backslash : ascii := ascii_of_nat 92.

(** [s.startsWith(p)] *)
Fixpoint startsWith (p s : string) : bool :=
  match p, s with
  | EmptyString, _ => true
  | String a p', String b s' => Ascii.eqb a b && startsWith p' s'
  | String _ _, EmptyString => false
  end.

(** The remainder of [s] after the prefix [p], when [p] is a prefix. *)
Fixpoint stripPrefix (p s : string) : option string :=
  match p, s with
  | EmptyString, _ => Some s
  | String a p', String b s' =>
      if Ascii.eqb a b then stripPrefix p' s' else None
  | String _ _, EmptyString => None
  end.

Fixpoint rev_acc (s acc : string) : string :=
  match s with
  | EmptyString => acc
  | String a s' => rev_acc s' (String a acc)
  end.
Definition rev (s : string) : string := rev_acc s EmptyString.

Definition bytes (l : list nat) : string :=
  fold_right (fun n s => String (ascii_of_nat n) s) EmptyString l.

(** ECMAScript WhiteSpace and LineTerminator code points, as UTF-8:
    U+0009..U+000D, U+0020, U+00A0, U+1680, U+2000..U+200A, U+2028, U+2029,
    U+202F, U+205F, U+3000, U+FEFF. *)
Definition whiteSpace : list string :=
  map bytes
    (List.app
       [ [9]; [10]; [11]; [12]; [13]; [32]; [194; 160]; [225; 154; 128] ]
       (List.app
          (map (fun k => [226; 128; k])
             [128; 129; 130; 131; 132; 133; 134; 135; 136; 137; 138])
          [ [226; 128; 168]; [226; 128; 169]; [226; 128; 175];
            [226; 129; 159]; [227; 128; 128]; [239; 187; 191] ]))%nat.

Fixpoint dropOne (ws : list string) (s : string) : option string :=
  match ws with
  | [] => None
  | w :: ws' =>
      match stripPrefix w s with
      | Some r => Some r
      | None => dropOne ws' s
      end
  end.

Fixpoint dropWhile (fuel : nat) (ws : list string) (s : string) : string :=
  match fuel with
  | O => s
  | S f =>
      match dropOne ws s with
      | Some r => dropWhile f ws r
      | None => s
      end
  end.

Definition trimStart (s : string) : string :=
  dropWhile (String.length s) whiteSpace s.

Definition trimEnd (s : string) : string :=
  rev (dropWhile (String.length s) (map rev whiteSpace) (rev s)).

(** [s.trim()] *)
Definition trim (s : string) : string := trimEnd (trimStart s).

(** [s.replace(/c/g, by)] for a one-character pattern. *)
Fixpoint replaceAll (c : ascii) (by_ : string) (s : string) : string :=
  match s with
  | EmptyString => EmptyString
  | String a s' =>
      (if Ascii.eqb a c then by_ else String a EmptyString)
        ++ replaceAll c by_ s'
  end.

(** *** Numbers *)

Inductive number : Type :=
| NaN : number
| Int : Z -> number.

(** The double nearest to an integer, ties to the even significand of 53
    bits.  (Beyond the largest double the result is infinite, which this
    model of numbers does not have.) *)
Definition toDouble (z : Z) : Z :=
  let a := Z.abs z in
  if a <=? 9007199254740992 then z
  else
    let unit := 2 ^ (Z.log2 a - 52) in
    let q := a / unit in
    let r := a mod unit in
    let q' := if 2 * r <? unit then q
              else if unit <? 2 * r then q + 1
              else if Z.even q then q else q + 1 in
    Z.sgn z * (q' * unit).

Definition string_of_Z (z : Z) : string := NilZero.string_of_int (Z.to_int z).

(** [`${n}`]: for an integer of magnitude up to 2^53, its decimal digits. *)
Definition toString (n : number) : string :=
  match n with
  | NaN => "NaN"
  | Int z => string_of_Z z
  end.

Definition digit (a : ascii) : option Z :=
  let n := nat_of_ascii a in
  if ((48 <=? n) && (n <=? 57))%nat then Some (Z.of_nat n - 48) else None.

Fixpoint digits (s : string) (acc : option Z) : option Z :=
  match s with
  | EmptyString => acc
  | String a s' =>
      match digit a with
      | Some d =>
          digits s' (Some (10 * match acc with Some v => v | None => 0 end + d))
      | None => acc
      end
  end.

(** [parseInt(s, 10)]: skip leading white space, read an optional sign, then
    the longest run of decimal digits; [NaN] when that run is empty. *)
Definition parseInt (s : string) : number :=
  let s1 := trimStart s in
  let '(sign, s2) :=
    match s1 with
    | String a r =>
        if Ascii.eqb a "-" then (-1, r)
        else if Ascii.eqb a "+" then (1, r)
        else (1, s1)
    | EmptyString => (1, s1)
    end in
  match digits s2 None with
  | Some v => Int (toDouble (sign * v))
  | None => NaN
  end.

(** *** encodeURIComponent *)

Definition hexDigit (n : nat) : ascii :=
  ascii_of_nat (if (n <? 10)%nat then 48 + n else 55 + n)%nat.

Definition unreserved (a : ascii) : bool :=
  let n := nat_of_ascii a in
  (((48 <=? n) && (n <=? 57)) || ((65 <=? n) && (n <=? 90))
   || ((97 <=? n) && (n <=? 122))
   || existsb (Nat.eqb n) [45; 95; 46; 33; 126; 42; 39; 40; 41])%nat.

Fixpoint encodeURIComponent (s : string) : string :=
  match s with
  | EmptyString => EmptyString
  | String a s' =>
      (if unreserved a then String a EmptyString
       else
         let n := nat_of_ascii a in
         String "%" (String (hexDigit (n / 16)) (String (hexDigit (n mod 16))
           EmptyString)))%nat
        ++ encodeURIComponent s'
  end.

End Js.

Import Js.

(** ** What the program shows to the world *)

(** The three operating modes, [operatingMode] in the source. *)
Inductive Mode : Type := system | music | youtube.

Definition Mode_eqb (a b : Mode) : bool :=
  match a, b with
  | system, system | music, music | youtube, youtube => true
  | _, _ => false
  end.

(** One observable step of the program.  [LogStatus m] is
    [console.log(`[${timestamp}] ${m}`)]: the wall-clock prefix is left out.
    [RunCommand cmd] is a call [runCommand(cmd)], which spawns the process
    before its first suspension. *)
Inductive Action : Type :=
| ConsoleLog (text : string)
| ConsoleError (args : list string)
| LogStatus (message : string)
| RunCommand (cmd : list string).

(** The closures handed to [setTimeout]. *)
Inductive Timer : Type :=
| CallRunCycle (currentCycle : Z)      (* [() => runCycle(i + 1)], in [main] *)
| WorkElapsed (currentCycle : Z)       (* the arrow function armed by [runCycle] *)
| CallRunFinalActions                  (* [runFinalActions], armed by [main] *)
| ApplyShuffleRepeat                   (* the arrow function armed by [playPlaylist] *)
| ResumeCompletionSound (i : Z).       (* [res], awaited in [playCompletionSound] *)

(** What a piece of synchronous code does: the actions it performs, in
    order; the timers it arms, each with its delay in milliseconds; the
    commands it has started and dropped the promise of; and the commands it
    has started with the [catch] of [executeAppleScript] on their promise. *)
Record Effects : Type := {
  out : list Action;
  armed : list (Z * Timer);
  dropped : list (list string);
  caught : list (list string)
}.

Definition nothing : Effects :=
  {| out := []; armed := []; dropped := []; caught := [] |}.
Definition andThen (a b : Effects) : Effects :=
  {| out := out a ++ out b; armed := armed a ++ armed b;
     dropped := dropped a ++ dropped b; caught := caught a ++ caught b |}.
Notation "a ;; b" := (andThen a b) (at level 61, left associativity).

Definition act (a : Action) : Effects :=
  {| out := [a]; armed := []; dropped := []; caught := [] |}.
Definition say (l : list Action) : Effects :=
  {| out := l; armed := []; dropped := []; caught := [] |}.
Definition setTimeout (f : Timer) (delay : Z) : Effects :=
  {| out := []; armed := [(delay, f)]; dropped := []; caught := [] |}.

(** [runCommand(cmd)] where the caller awaits the promise inside a [try]:
    what the caller does with the outcome is written where it is called. *)
Definition runCommand (cmd : list string) : Effects := act (RunCommand cmd).

(** [runCommand(cmd)] as a statement of its own: the promise is dropped, so
    nothing handles its rejection. *)
Definition runCommandDetached (cmd : list string) : Effects :=
  {| out := [RunCommand cmd]; armed := []; dropped := [cmd]; caught := [] |}.

Definition logStatus (message : string) : Effects := act (LogStatus message).

(** The outcome of an awaited [runCommand]: the promise rejects (the command
    could not be spawned), or it resolves with the decoded output streams
    and the exit code. *)
Inductive Outcome : Type :=
| Rejected (message : string)
| Completed (stdout stderr : string) (code : Z).

Definition World : Type := list string -> Outcome.

(** ** Configuration *)

(** The object returned by the flag parser, restricted to the keys the
    program reads.  [lastBreak] is the key read by [runCycle] and [main]
    (the boolean option is declared to the parser as [last-break]);
    [positional] is [flags._[0]], which the source casts to
    [string | undefined]: the parser keeps an argument as a string, except
    that one that looks like a number is given as that number.  Numbers are
    whole numbers here: the minutes of [work] and [break], the count
    [interval], and the number given as the argument, of which the program
    only tests whether it is zero. *)
Inductive Positional : Type :=
| Text (s : string)
| Numeric (n : Z).

Record Flags : Type := {
  help : bool;
  work : Z;
  break : Z;
  interval : Z;
  playlist : option string;
  search : bool;
  lastBreak : bool;
  positional : option Positional
}.

Definition WORK_INTERVAL_MS (flags : Flags) : Z := work flags * 60 * 1000.
Definition BREAK_INTERVAL_MS (flags : Flags) : Z := break flags * 60 * 1000.
Definition CYCLE_DURATION_MS (flags : Flags) : Z :=
  WORK_INTERVAL_MS flags + BREAK_INTERVAL_MS flags.

(** The longest delay the program asks [setTimeout] for when there is at
    least one cycle: the work interval (in [runCycle]), the start of the last
    cycle and, with the final break, [totalProgramDuration] (in [main]). *)
Definition longestDelay (flags : Flags) : Z :=
  Z.max (WORK_INTERVAL_MS flags)
    (if lastBreak flags then interval flags * CYCLE_DURATION_MS flags
     else (interval flags - 1) * CYCLE_DURATION_MS flags).

(** The module-level variables together with the flags. *)
Record Env : Type := {
  flags : Flags;
  originalVolume : number;
  operatingMode : Mode
}.

(** ** System and application control *)

(** [runCommand(["osascript", "-e", script]).catch(err =>
    console.error("AppleScript Error:", err))]: the command is started now;
    the handler of the rejection runs later, once the code that is running
    has come to its end. *)
Definition executeAppleScript (script : string) : Effects :=
  {| out := [RunCommand ["osascript"; "-e"; script]]; armed := [];
     dropped := []; caught := [["osascript"; "-e"; script]] |}.

Definition sanitize (name : string) : string :=
  replaceAll sq (String sq (String backslash (String sq (String sq EmptyString)))) name.

Definition playlistExistsScript (name : string) : string :=
  "tell application " ++ dq ++ "Music" ++ dq ++ " to exists (playlist named "
    ++ dq ++ sanitize name ++ dq ++ ")".

Definition playlistExists (w : World) (name : string) : bool * Effects :=
  let cmd := ["osascript"; "-e"; playlistExistsScript name] in
  match w cmd with
  | Completed stdout _ _ => (String.eqb (trim stdout) "true", runCommand cmd)
  | Rejected message =>
      (false,
       runCommand cmd
       ;; act (ConsoleError ["Error checking for playlist: " ++ message]))
  end.

Definition searchAndPlayMusic (searchTerm : string) : Effects :=
  logStatus ("Searching Apple Music catalog for " ++ dq ++ searchTerm ++ dq ++ "...")
  ;; runCommandDetached ["open"; "music://music.apple.com/search?term="
                          ++ encodeURIComponent searchTerm].

(** The body of the loop of [playCompletionSound] from iteration [i] up to
    its next suspension. *)
Definition completionSoundFrom (i : Z) : Effects :=
  if i <? 5 then
    runCommandDetached ["afplay"; "/System/Library/Sounds/Hero.aiff"]
    ;; setTimeout (ResumeCompletionSound (i + 1)) 350
  else nothing.

Definition playCompletionSound : Effects :=
  logStatus "Playing completion sound..." ;; completionSoundFrom 0.

Definition playPlaylistScript (name : string) : string :=
  "tell application " ++ dq ++ "Music" ++ dq ++ " to play playlist "
    ++ dq ++ sanitize name ++ dq.

Definition playPlaylist (name : string) : Effects :=
  logStatus ("Starting Apple Music playlist: " ++ dq ++ sanitize name ++ dq)
  ;; executeAppleScript (playPlaylistScript name)
  ;; setTimeout ApplyShuffleRepeat 500.

Definition shuffleRepeatScript : string :=
  nl ++ "      tell application " ++ dq ++ "Music" ++ dq
  ++ nl ++ "          set shuffle enabled to false"
  ++ nl ++ "          set repeat mode to all"
  ++ nl ++ "      end tell"
  ++ nl ++ "    ".

Definition pauseMusic : Effects :=
  logStatus "Pausing Apple Music. 🤫"
  ;; executeAppleScript ("tell application " ++ dq ++ "Music" ++ dq ++ " to pause").

Definition resumeMusic : Effects :=
  logStatus "Resuming Apple Music. 🔊"
  ;; executeAppleScript ("tell application " ++ dq ++ "Music" ++ dq ++ " to play").

Definition stopMusic : Effects :=
  logStatus "Stopping Apple Music playback."
  ;; executeAppleScript ("tell application " ++ dq ++ "Music" ++ dq ++ " to stop").

Definition setVolume (level : number) : Effects :=
  executeAppleScript ("set volume output volume " ++ toString level).

Definition muteSystem : Effects :=
  logStatus "Muting system audio. 🤫" ;; setVolume (Int 0).

Definition restoreSystemVolume (env : Env) : Effects :=
  logStatus ("Restoring system volume to " ++ toString (originalVolume env) ++ ". 🔊")
  ;; setVolume (originalVolume env).

Definition playYouTubeVideo (url : string) : Effects :=
  logStatus "Opening YouTube video in your browser..."
  ;; runCommandDetached ["open"; url].

Definition volumeQuery : list string :=
  ["osascript"; "-e"; "output volume of (get volume settings)"].

Definition getVolume (w : World) : number * Effects :=
  match w volumeQuery with
  | Completed stdout _ _ => (parseInt (trim stdout), runCommand volumeQuery)
  | Rejected err =>
      (Int 50,
       runCommand volumeQuery
       ;; act (ConsoleError ["Could not get volume, defaulting to 50."; err]))
  end.

(** ** Timer handlers *)

Definition runFinalActions (env : Env) : Effects :=
  logStatus "All cycles complete. Finishing program. Great work!"
  ;; (if Mode_eqb (operatingMode env) music then stopMusic
      else restoreSystemVolume env)
  ;; playCompletionSound.

Definition TOTAL_CYCLES (env : Env) : Z := interval (flags env).

(** The arrow function that [runCycle] arms for the end of the work
    interval. *)
Definition workElapsed (env : Env) (currentCycle : Z) : Effects :=
  let isLastCycle := currentCycle =? TOTAL_CYCLES env in
  if isLastCycle && negb (lastBreak (flags env)) then runFinalActions env
  else
    logStatus ("Starting " ++ string_of_Z (break (flags env)) ++ "-minute break "
               ++ string_of_Z currentCycle ++ " of "
               ++ string_of_Z (TOTAL_CYCLES env) ++ ".")
    ;; (if Mode_eqb (operatingMode env) music then pauseMusic else muteSystem).

Definition runCycle (env : Env) (currentCycle : Z) : Effects :=
  (if Mode_eqb (operatingMode env) music then resumeMusic
   else restoreSystemVolume env)
  ;; logStatus ("Starting " ++ string_of_Z (work (flags env))
                ++ "-minute work interval " ++ string_of_Z currentCycle ++ " of "
                ++ string_of_Z (TOTAL_CYCLES env) ++ ".")
  ;; setTimeout (WorkElapsed currentCycle) (WORK_INTERVAL_MS (flags env)).

(** What runs when a timer fires. *)
Definition handle (env : Env) (f : Timer) : Effects :=
  match f with
  | CallRunCycle k => runCycle env k
  | WorkElapsed k => workElapsed env k
  | CallRunFinalActions => runFinalActions env
  | ApplyShuffleRepeat => executeAppleScript shuffleRepeatScript
  | ResumeCompletionSound i => completionSoundFrom i
  end.

(** ** Main program logic *)

(** How [main] ends: [Deno.exit(code)] was called; or it returned and the
    event loop takes over with the module-level variables as [env]; or it
    threw, so that the promise of [main()] rejects and, nobody handling it,
    the process ends with that error. *)
Inductive Startup : Type :=
| Exit (code : Z) (done : Effects)
| Running (env : Env) (done : Effects)
| Threw (error : string) (done : Effects).

Definition done (s : Startup) : Effects :=
  match s with Exit _ e | Running _ e | Threw _ e => e end.

(** [youtubeUrl && youtubeUrl.startsWith("http")]: the test is true of a
    string that is not empty and starts with [http], and false of
    [undefined], of the empty string, of any other string and of the number
    0.  Any other number is truthy and has no method [startsWith]: the call
    throws. *)
Inductive UrlTest : Type :=
| Url (url : string)
| NoUrl
| NotAString.

Definition urlOf (youtubeUrl : option Positional) : UrlTest :=
  match youtubeUrl with
  | Some (Text url) =>
      if negb (String.eqb url EmptyString) && startsWith "http" url
      then Url url else NoUrl
  | Some (Numeric n) => if n =? 0 then NoUrl else NotAString
  | None => NoUrl
  end.

(** The truthiness test [if (playlistName)] on [string | undefined]. *)
Definition truthy (s : option string) : option string :=
  match s with
  | Some v => if String.eqb v EmptyString then None else Some v
  | None => None
  end.

(** [for (let i = 0; i < TOTAL_CYCLES; i++) setTimeout(() => runCycle(i + 1),
    i * CYCLE_DURATION_MS)], entered at [i] with [todo] iterations left. *)
Fixpoint armCycles (flags : Flags) (todo : nat) (i : Z) : Effects :=
  match todo with
  | O => nothing
  | S todo' =>
      setTimeout (CallRunCycle (i + 1)) (i * CYCLE_DURATION_MS flags)
      ;; armCycles flags todo' (i + 1)
  end.

(** The last part of [main], under the comment "Start the timer cycles". *)
Definition startTimers (flags : Flags) : Effects :=
  armCycles flags (Z.to_nat (interval flags)) 0
  ;; (if lastBreak flags then
        let totalProgramDuration := interval flags * CYCLE_DURATION_MS flags in
        setTimeout CallRunFinalActions totalProgramDuration
      else nothing).

Definition hello : Effects :=
  act (ConsoleLog "--- Dinodoro Focus Timer Initialized ---").

Definition notFoundMessage (playlistName : string) : list Action :=
  [ ConsoleError [nl ++ "❌ Error: Playlist " ++ dq ++ playlistName ++ dq
                    ++ " not found in your local library."];
    ConsoleError ["   To search the Apple Music catalog instead, add the --search flag."
                    ++ nl] ].

Definition main (flags : Flags) (w : World) : Startup :=
  let youtubeUrl := positional flags in
  let playlistName := playlist flags in
  match urlOf youtubeUrl with
  | NotAString =>
      Threw "TypeError: youtubeUrl.startsWith is not a function" hello
  | Url url =>
      let '(volume, asked) := getVolume w in
      Running {| flags := flags; originalVolume := volume; operatingMode := youtube |}
        (hello ;; playYouTubeVideo url ;; asked
         ;; logStatus ("Original volume detected: " ++ toString volume ++ ".")
         ;; startTimers flags)
  | NoUrl =>
      match truthy playlistName with
      | Some name =>
          let env := {| flags := flags; originalVolume := Int 50;
                        operatingMode := music |} in
          let '(exists_, asked) := playlistExists w name in
          if exists_ then
            Running env (hello ;; asked ;; playPlaylist name ;; startTimers flags)
          else if search flags then
            Running env (hello ;; asked ;; searchAndPlayMusic name ;; startTimers flags)
          else
            Exit 1 (hello ;; asked
                    ;; say (notFoundMessage name))
      | None =>
          let '(volume, asked) := getVolume w in
          Running {| flags := flags; originalVolume := volume; operatingMode := system |}
            (hello ;; logStatus "Running in System Mute mode." ;; asked
             ;; logStatus ("Original volume detected: " ++ toString volume ++ ".")
             ;; startTimers flags)
      end
  end.

Definition usage : string :=
  nl ++ "dinodoro 🦕🍅"
  ++ nl ++ "A flexible Pomodoro-style focus timer for macOS."
  ++ nl
  ++ nl ++ "USAGE:"
  ++ nl ++ "  dinodoro [OPTIONS] [YOUTUBE_URL]"
  ++ nl
  ++ nl ++ "OPTIONS:"
  ++ nl ++ "  -w, --work         Duration of work intervals in minutes (default: 25)"
  ++ nl ++ "  -b, --break        Duration of break intervals in minutes (default: 5)"
  ++ nl ++ "  -i, --interval     Number of work/break cycles to run (default: 4)"
  ++ nl ++ "      --playlist     The name of an Apple Music playlist to play"
  ++ nl ++ "      --search       If a local playlist isn't found, search Apple Music"
  ++ nl ++ "      --last-break   Include the final break period after the last work interval"
  ++ nl ++ "  -h, --help         Show this help message"
  ++ nl ++ "  ".

(** The module body: the help screen, or [main()]. *)
Definition dinodoro (flags : Flags) (w : World) : Startup :=
  if help flags then Exit 0 (act (ConsoleLog usage)) else main flags w.

(** ** The timer facility and the event loop *)

(** Pending timers with the time each is due, earliest first; timers due at
    the same time stay in the order they were armed. *)
Definition Queue : Type := list (Z * Timer).

Fixpoint enqueue (p : Z * Timer) (q : Queue) : Queue :=
  match q with
  | [] => [p]
  | p' :: q' => if fst p <? fst p' then p :: q else p' :: enqueue p q'
  end.

(** The delay [setTimeout] acts on.  The timer interface declares the
    delay as a [long]: the number given is reduced modulo 2^32 into the
    range of a signed 32-bit integer, and a negative result counts as zero.
    So a delay from 0 to [TIMEOUT_MAX] is taken as it is, and one just above
    [TIMEOUT_MAX] makes the timer fire at once. *)
Definition TIMEOUT_MAX : Z := 2147483647.

Definition toInt32 (z : Z) : Z :=
  (z + 2147483648) mod 4294967296 - 2147483648.

Definition timeoutOf (asked : Z) : Z := Z.max 0 (toInt32 asked).

(** Arms at time [now] the timers a piece of code asked for. *)
Definition arm (now : Z) (asked : list (Z * Timer)) (q : Queue) : Queue :=
  fold_left (fun q' p => enqueue (now + timeoutOf (fst p), snd p) q') asked q.

(** Runs at most [fuel] handlers.  Returns the timers fired, each with the
    time it fired at, and the timers still pending. *)
Fixpoint eventLoop (fuel : nat) (env : Env) (q : Queue)
  : list (Z * Timer) * Queue :=
  match fuel, q with
  | S fuel', (t, f) :: q' =>
      let '(fired, rest) := eventLoop fuel' env (arm t (armed (handle env f)) q') in
      ((t, f) :: fired, rest)
  | _, _ => ([], q)
  end.

(** The whole run: [main], then the event loop from time 0. *)
Definition run (fuel : nat) (s : Startup) : list (Z * Timer) * Queue :=
  match s with
  | Exit _ _ | Threw _ _ => ([], [])
  | Running env e => eventLoop fuel env (arm 0 (armed e) [])
  end.

(** Everything the code of the run did as it ran, each action with the time
    it happened at. *)
Definition trace (s : Startup) (fired : list (Z * Timer)) : list (Z * Action) :=
  map (pair 0) (out (done s))
  ++ match s with
     | Exit _ _ | Threw _ _ => []
     | Running env _ =>
         flat_map (fun p => map (pair (fst p)) (out (handle env (snd p)))) fired
     end.

(** *** Rejections that nothing handles

    A command that cannot be started rejects its promise.  Where the program
    awaits the promise inside a [try], or attaches a [catch] to it, the
    rejection is handled.  Where the program has dropped the promise, the
    rejection is unhandled: the runtime ends the process as soon as the code
    that is running has come to its end, and no timer fires after that. *)
Definition rejects (w : World) (cmd : list string) : bool :=
  match w cmd with
  | Rejected _ => true
  | Completed _ _ _ => false
  end.

Definition endsProcess (w : World) (e : Effects) : bool :=
  existsb (rejects w) (dropped e).

(** What the [catch] of [executeAppleScript] prints on the machine [w] for
    the scripts a piece of code has sent, after that code has come to its
    end. *)
Definition reported (w : World) (e : Effects) : list Action :=
  flat_map (fun cmd => match w cmd with
                       | Rejected message =>
                           [ConsoleError ["AppleScript Error:"; message]]
                       | Completed _ _ _ => []
                       end) (caught e).

(** Of the timers [fired] of a run that no rejection ends, those that fire
    on the machine [w]. *)
Fixpoint untilRejection (w : World) (env : Env) (fired : list (Z * Timer))
  : list (Z * Timer) :=
  match fired with
  | [] => []
  | (t, f) :: rest =>
      (t, f) :: (if endsProcess w (handle env f) then []
                 else untilRejection w env rest)
  end.

(** The timers that fire in a run of the program on the machine [w]. *)
Definition session (w : World) (fuel : nat) (s : Startup) : list (Z * Timer) :=
  match s with
  | Running env e =>
      if endsProcess w e then [] else untilRejection w env (fst (run fuel s))
  | Exit _ _ | Threw _ _ => []
  end.

(** *** The schedule's events *)

Inductive Event : Type :=
| WorkStart (k : Z)
| BreakStart (k : Z)
| Completion.

(** The event a firing timer stands for: [runCycle] is a work start, the end
    of a work interval is a break start or, in place of the last break, the
    completion; the timers of [playPlaylist] and [playCompletionSound] are
    no events of the schedule. *)
Definition event (env : Env) (f : Timer) : option Event :=
  match f with
  | CallRunCycle k => Some (WorkStart k)
  | WorkElapsed k =>
      if (k =? TOTAL_CYCLES env) && negb (lastBreak (flags env))
      then Some Completion else Some (BreakStart k)
  | CallRunFinalActions => Some Completion
  | ApplyShuffleRepeat | ResumeCompletionSound _ => None
  end.

Fixpoint timeline (env : Env) (fired : list (Z * Timer)) : list (Z * Event) :=
  match fired with
  | [] => []
  | (t, f) :: rest =>
      match event env f with
      | Some e => (t, e) :: timeline env rest
      | None => timeline env rest
      end
  end.

Definition workStarts (tl : list (Z * Event)) : list (Z * Z) :=
  flat_map (fun p => match snd p with WorkStart k => [(k, fst p)] | _ => [] end) tl.
Definition breakStarts (tl : list (Z * Event)) : list (Z * Z) :=
  flat_map (fun p => match snd p with BreakStart k => [(k, fst p)] | _ => [] end) tl.
Definition completions (tl : list (Z * Event)) : list Z :=
  flat_map (fun p => match snd p with Completion => [fst p] | _ => [] end) tl.

(** The flags of a run with no argument. *)
Definition defaults : Flags :=
  {| help := false; work := 25; break := 5; interval := 4; playlist := None;
     search := false; lastBreak := false; positional := None |}.

(** A machine on which every command prints 40 and succeeds. *)
Definition quiet : World := fun _ => Completed "40" EmptyString 0.

Local Open Scope list_scope.

(** ** The schedule in closed form

    What the timers of a run are expected to be, to compare the event loop
    with. *)

Section ClosedForm.

Variable env : Env.

Local Abbreviation N := (TOTAL_CYCLES env).
Local Abbreviation W := (WORK_INTERVAL_MS (flags env)).
Local Abbreviation CYC := (CYCLE_DURATION_MS (flags env)).
Local Abbreviation lb := (lastBreak (flags env)).

(** The timers [main] arms for the cycles [i + 1 .. i + todo], and the timer
    for the completion after the final break. *)
Fixpoint cycleTimers (todo : nat) (i : Z) : Queue :=
  match todo with
  | O => []
  | S todo' => (i * CYC, CallRunCycle (i + 1)) :: cycleTimers todo' (i + 1)
  end.

Definition finalTimer : Queue :=
  if lb then [(N * CYC, CallRunFinalActions)] else [].

(** The timers fired for the cycles [i + 1 .. i + todo]. *)
Fixpoint cyclesFired (todo : nat) (i : Z) : list (Z * Timer) :=
  match todo with
  | O => []
  | S todo' =>
      (i * CYC, CallRunCycle (i + 1)) :: (i * CYC + W, WorkElapsed (i + 1))
      :: cyclesFired todo' (i + 1)
  end.

(** The resumptions of [playCompletionSound] after a completion at [t]. *)
Definition soundFired (t : Z) : list (Z * Timer) :=
  [ (t + 350, ResumeCompletionSound 1); (t + 700, ResumeCompletionSound 2);
    (t + 1050, ResumeCompletionSound 3); (t + 1400, ResumeCompletionSound 4);
    (t + 1750, ResumeCompletionSound 5) ].

Definition completionTime : Z := if lb then N * CYC else (N - 1) * CYC + W.

Definition ending : list (Z * Timer) := finalTimer ++ soundFired completionTime.

(** The event loop on the timers of [startTimers]: the scheduler on its
    own. *)
Definition schedule (fuel : nat) : list (Z * Timer) * Queue :=
  eventLoop fuel env (arm 0 (armed (startTimers (flags env))) []).

Definition scheduleFired : list (Z * Timer) :=
  cyclesFired (Z.to_nat N) 0 ++ ending.

(** The run when [playPlaylist] has armed its timer before [startTimers]. *)
Definition insertSecond (x : Z * Timer) (l : list (Z * Timer)) : list (Z * Timer) :=
  match l with
  | [] => [x]
  | y :: l' => y :: x :: l'
  end.

(** The events of the cycles [i + 1 .. i + todo]. *)
Fixpoint cycleEvents (todo : nat) (i : Z) : list (Z * Event) :=
  match todo with
  | O => []
  | S todo' =>
      (i * CYC, WorkStart (i + 1))
      :: (i * CYC + W,
          if (i + 1 =? N) && negb lb then Completion else BreakStart (i + 1))
      :: cycleEvents todo' (i + 1)
  end.

Definition finalEvent : list (Z * Event) :=
  if lb then [(N * CYC, Completion)] else [].

Definition scheduleEvents : list (Z * Event) :=
  cycleEvents (Z.to_nat N) 0 ++ finalEvent.

(** The closed forms: cycle [k] starts its work at [(k - 1) * CYC] and its
    break [W] later. *)
Definition workStartOf (k : nat) : Z * Z := (Z.of_nat k, (Z.of_nat k - 1) * CYC).
Definition breakStartOf (k : nat) : Z * Z := (Z.of_nat k, (Z.of_nat k - 1) * CYC + W).

(** Timers asked for in ascending order of delay, none earlier than [lo]
    and none beyond [TIMEOUT_MAX]. *)
Fixpoint ascending (lo : Z) (l : list (Z * Timer)) : Prop :=
  match l with
  | [] => True
  | p :: l' => lo <= fst p <= TIMEOUT_MAX /\ ascending (fst p) l'
  end.

(** *** Two sentences of the specification, word for word

    "The completion action is invoked synchronously at the end of the last
    cycle's work-start handler, at time (cycleCount - 1) * cycleDuration +
    workDurationMs": the handler of the last work start fires at that time
    and its actions end with those of [runFinalActions]. *)
Definition completionInWorkStart (fired : list (Z * Timer)) : Prop :=
  exists pre,
    In ((N - 1) * CYC + W, CallRunCycle N) fired
    /\ out (handle env (CallRunCycle N)) = pre ++ out (runFinalActions env).

(** "All timer registrations are made up front (not chained)": no handler
    that fires arms a timer. *)
Definition armedUpFront (fired : list (Z * Timer)) : Prop :=
  forall t f, In (t, f) fired -> armed (handle env f) = [].

End ClosedForm.

Definition standardEnv : Env :=
  {| flags := defaults; originalVolume := Int 40; operatingMode := system |}.

(** ** Vocabulary of the claims *)

(** The flags with the playlist options taken out. *)
Definition withoutPlaylist (flags : Flags) : Flags :=
  {| help := help flags; work := work flags; break := break flags;
     interval := interval flags; playlist := None; search := false;
     lastBreak := lastBreak flags; positional := positional flags |}.

(** "Transition to YouTubeActive: launch the URL via the OS open action,
    then capture current system volume as RestorableVolume": [main] goes on
    in YouTube mode; the first things it does are the greeting, the status
    line, the [open] command on the URL and then the volume query; and the
    volume it keeps is the number read from the output of that query, or 50
    when the query could not be run. *)
Definition startsYouTube (flags : Flags) (w : World) (url : string) : Prop :=
  exists env e later,
    main flags w = Running env e
    /\ operatingMode env = youtube
    /\ out e
       = [ ConsoleLog "--- Dinodoro Focus Timer Initialized ---";
           LogStatus "Opening YouTube video in your browser...";
           RunCommand ["open"; url];
           RunCommand ["osascript"; "-e"; "output volume of (get volume settings)"] ]
         ++ later
    /\ originalVolume env
       = match w ["osascript"; "-e"; "output volume of (get volume settings)"] with
         | Completed stdout _ _ => parseInt (trim stdout)
         | Rejected _ => Int 50
         end.

(** Whether the Music application on the machine [w] answers that it has a
    playlist of that name: the script that asks prints [true]. *)
Definition foundIn (w : World) (name : string) : bool :=
  match w ["osascript"; "-e";
           ("tell application " ++ dq ++ "Music" ++ dq
            ++ " to exists (playlist named " ++ dq ++ sanitize name ++ dq ++ ")")%string]
  with
  | Completed stdout _ _ => String.eqb (trim stdout) "true"
  | Rejected _ => false
  end.

(** What the handlers of the timers fired did, each action with its time:
    the part of [trace] that follows [main]. *)
Definition handlersTrace (env : Env) (fired : list (Z * Timer)) : list (Z * Action) :=
  flat_map (fun p => map (pair (fst p)) (out (handle env (snd p)))) fired.

(** The calls of [afplay] on the completion sound. *)
Definition isBeep (a : Action) : bool :=
  match a with
  | RunCommand [program; path] =>
      String.eqb program "afplay"
      && String.eqb path "/System/Library/Sounds/Hero.aiff"
  | _ => false
  end.

Definition withoutBeeps (tr : list (Z * Action)) : list (Z * Action) :=
  filter (fun p => negb (isBeep (snd p))) tr.

(** The timer of [playPlaylist]. *)
Definition isShuffleTimer (f : Timer) : bool :=
  match f with
  | ApplyShuffleRepeat => true
  | _ => false
  end.

(** What an event of the schedule is to the user: the status lines printed
    and the script sent when it happens, in order, the completion sound
    apart.  A work start restores the volume or resumes the music, then
    announces the work interval; a break start announces the break, then
    mutes or pauses; the completion announces the end, restores the volume or
    stops the music, and announces the sound. *)
Definition performed (env : Env) (e : Event) : list Action :=
  let inMusic := Mode_eqb (operatingMode env) music in
  let volume := toString (originalVolume env) in
  let minutesOfWork := string_of_Z (work (flags env)) in
  let minutesOfBreak := string_of_Z (break (flags env)) in
  let cycles := string_of_Z (interval (flags env)) in
  let tellMusic (verb : string) :=
    RunCommand ["osascript"; "-e";
                ("tell application " ++ dq ++ "Music" ++ dq ++ " to " ++ verb)%string] in
  let restoreVolume :=
    [ LogStatus ("Restoring system volume to " ++ volume ++ ". 🔊")%string;
      RunCommand ["osascript"; "-e"; ("set volume output volume " ++ volume)%string] ] in
  match e with
  | WorkStart k =>
      (if inMusic
       then [LogStatus "Resuming Apple Music. 🔊"; tellMusic "play"]
       else restoreVolume)
      ++ [ LogStatus ("Starting " ++ minutesOfWork ++ "-minute work interval "
                      ++ string_of_Z k ++ " of " ++ cycles ++ ".")%string ]
  | BreakStart k =>
      LogStatus ("Starting " ++ minutesOfBreak ++ "-minute break "
                 ++ string_of_Z k ++ " of " ++ cycles ++ ".")%string
      :: (if inMusic
          then [LogStatus "Pausing Apple Music. 🤫"; tellMusic "pause"]
          else [ LogStatus "Muting system audio. 🤫";
                 RunCommand ["osascript"; "-e"; "set volume output volume 0"] ])
  | Completion =>
      LogStatus "All cycles complete. Finishing program. Great work!"
      :: (if inMusic
          then [LogStatus "Stopping Apple Music playback."; tellMusic "stop"]
          else restoreVolume)
      ++ [LogStatus "Playing completion sound..."]
  end.

(** The times at which the end of the session is announced. *)
Definition completionLines (tr : list (Z * Action)) : list Z :=
  flat_map (fun p => match snd p with
                     | LogStatus message =>
                         if String.eqb message
                              "All cycles complete. Finishing program. Great work!"
                         then [fst p] else []
                     | _ => []
                     end) tr.

(** The commands of [getVolume] and [setVolume]. *)
Definition touchesVolume (a : Action) : bool :=
  match a with
  | RunCommand [program; option; script] =>
      String.eqb program "osascript" && String.eqb option "-e"
      && (String.eqb script "output volume of (get volume settings)"
          || startsWith "set volume output volume " script)
  | _ => false
  end.

(** The text literals of a script: a literal runs from a double quote to the
    next double quote that no backslash escapes. [None] when the last
    literal is left open. *)
Fixpoint literalsFrom (s : string) (inside : option string) : option (list string) :=
  match s, inside with
  | EmptyString, None => Some []
  | EmptyString, Some _ => None
  | String a r, None =>
      if Ascii.eqb a (ascii_of_nat 34) then literalsFrom r (Some EmptyString)
      else literalsFrom r None
  | String a r, Some body =>
      if Ascii.eqb a (ascii_of_nat 34) then
        option_map (cons (rev body)) (literalsFrom r None)
      else if Ascii.eqb a backslash then
        match r with
        | String b r' => literalsFrom r' (Some (String b (String a body)))
        | EmptyString => None
        end
      else literalsFrom r (Some (String a body))
  end.

Definition literals (script : string) : option (list string) :=
  literalsFrom script None.

(** A name with neither a double quote nor a backslash in it. *)
Fixpoint plain (s : string) : bool :=
  match s with
  | EmptyString => true
  | String a r =>
      negb (Ascii.eqb a (ascii_of_nat 34)) && negb (Ascii.eqb a backslash) && plain r
  end.

(** ** Sample inputs *)

(** The commands of the usage text: a video, a video typed with a space in
    front of it, a video together with a playlist, and a playlist. *)
Definition videoFlags : Flags :=
  {| help := false; work := 25; break := 5; interval := 4; playlist := None;
     search := false; lastBreak := false;
     positional := Some (Text "https://www.youtube.com/watch?v=jfKfPfyJRdk") |}.

Definition paddedFlags : Flags :=
  {| help := false; work := 25; break := 5; interval := 4; playlist := None;
     search := false; lastBreak := false;
     positional := Some (Text " https://www.youtube.com/watch?v=jfKfPfyJRdk") |}.

Definition bothFlags : Flags :=
  {| help := false; work := 25; break := 5; interval := 4;
     playlist := Some "Deep Focus"; search := true; lastBreak := false;
     positional := Some (Text "https://www.youtube.com/watch?v=jfKfPfyJRdk") |}.

Definition playlistFlags (searching : bool) : Flags :=
  {| help := false; work := 25; break := 5; interval := 4;
     playlist := Some "Lofi Beats"; search := searching; lastBreak := false;
     positional := None |}.

(** Two cycles of 40000 minutes of work: the work interval is 2400000000 ms,
    more than the timer interface takes. *)
Definition longWorkEnv : Env :=
  {| flags := {| help := false; work := 40000; break := 5; interval := 2;
                 playlist := None; search := false; lastBreak := false;
                 positional := None |};
     originalVolume := Int 40; operatingMode := system |}.

(** A library that holds no playlist of the name asked for. *)
Definition emptyLibrary : World := fun _ => Completed "false" EmptyString 0.

(** A library that holds every playlist asked for. *)
Definition fullLibrary : World := fun _ => Completed "true" EmptyString 0.

(** A machine without [osascript]. *)
Definition noOsascript : World := fun _ => Rejected "NotFound".

(** A machine without [osascript] on which the other commands run. *)
Definition noMusic : World :=
  fun cmd =>
    match cmd with
    | program :: _ =>
        if String.eqb program "osascript" then Rejected "NotFound"
        else Completed EmptyString EmptyString 0
    | [] => Completed EmptyString EmptyString 0
    end.

(** An output device whose volume cannot be read. *)
Definition noVolume : World := fun _ => Completed "missing value" EmptyString 0.

(** Actions that leave the system volume alone. *)
Definition quietly (l : list Action) : Prop :=
  Forall (fun a => touchesVolume a = false) l.

(** ** Vocabulary of the further properties *)

(** The flags with the positional argument taken out. *)
Definition withoutPositional (flags : Flags) : Flags :=
  {| help := help flags; work := work flags; break := break flags;
     interval := interval flags; playlist := playlist flags;
     search := search flags; lastBreak := lastBreak flags; positional := None |}.

(** Whether [main] comes to look a playlist up and the machine has it: no
    URL comes first, the name is not empty, and the answer is yes. *)
Definition playlistFound (flags : Flags) (w : World) : bool :=
  match urlOf (positional flags), truthy (playlist flags) with
  | NoUrl, Some name => foundIn w name
  | _, _ => false
  end.

(** The status [Deno.exit] was called with, if it was. *)
Definition exitCode (s : Startup) : option Z :=
  match s with
  | Exit code _ => Some code
  | Running _ _ | Threw _ _ => None
  end.

(** The level a [setVolume] command asks for, as it is written in the
    script. *)
Definition volumeLevel (a : Action) : option string :=
  match a with
  | RunCommand [program; option; script] =>
      if String.eqb program "osascript" && String.eqb option "-e"
      then stripPrefix "set volume output volume " script
      else None
  | _ => None
  end.

Definition volumeSettings (tr : list (Z * Action)) : list (Z * string) :=
  flat_map (fun p => match volumeLevel (snd p) with
                     | Some level => [(fst p, level)]
                     | None => []
                     end) tr.

(** The level each event of the schedule sets outside Music mode. *)
Definition levelAt (env : Env) (e : Event) : string :=
  match e with
  | BreakStart _ => "0"
  | WorkStart _ | Completion => toString (originalVolume env)
  end.

Definition beepTimes (tr : list (Z * Action)) : list Z :=
  flat_map (fun p => if isBeep (snd p) then [fst p] else []) tr.

(** The times at which the shuffle and repeat settings are sent: a script
    that begins by telling the Music application to turn shuffle off and to
    repeat all. *)
Definition isShuffleRepeat (a : Action) : bool :=
  match a with
  | RunCommand [program; option; script] =>
      String.eqb program "osascript" && String.eqb option "-e"
      && startsWith (nl ++ "      tell application " ++ dq ++ "Music" ++ dq
                     ++ nl ++ "          set shuffle enabled to false"
                     ++ nl ++ "          set repeat mode to all")%string
           script
  | _ => false
  end.

Definition shuffleRepeatTimes (tr : list (Z * Action)) : list Z :=
  flat_map (fun p => if isShuffleRepeat (snd p) then [fst p] else []) tr.

Definition isResume (f : Timer) : bool :=
  match f with
  | ResumeCompletionSound _ => true
  | _ => false
  end.

(** Further sample inputs: the number 0 as the argument, the number 25 as
    the argument beside a playlist, a playlist flag with an empty name, and
    a cycle count of zero. *)
Definition zeroFlags : Flags :=
  {| help := false; work := 25; break := 5; interval := 4; playlist := None;
     search := false; lastBreak := false; positional := Some (Numeric 0) |}.

Definition minutesFlags : Flags :=
  {| help := false; work := 25; break := 5; interval := 4;
     playlist := Some "Lofi Beats"; search := true; lastBreak := false;
     positional := Some (Numeric 25) |}.

Definition emptyNameFlags : Flags :=
  {| help := false; work := 25; break := 5; interval := 4;
     playlist := Some EmptyString; search := true; lastBreak := false;
     positional := None |}.


(** Whether a character occurs in a string, and whether all characters of
    a string pass a test. *)
Fixpoint occurs (c : ascii) (s : string) : bool :=
  match s with
  | EmptyString => false
  | String a r => Ascii.eqb a c || occurs c r
  end.

Fixpoint allChars (p : ascii -> bool) (s : string) : bool :=
  match s with
  | EmptyString => true
  | String a r => p a && allChars p r
  end.

(** The characters [encodeURIComponent] lets through, and the percent sign
    it escapes the others with. *)
Definition urlSafe (a : ascii) : bool := unreserved a || Ascii.eqb a "%".

(** Reading a percent-encoded string back, byte by byte. *)
Definition hexValue (a : ascii) : option nat :=
  let n := nat_of_ascii a in
  if ((48 <=? n) && (n <=? 57))%nat then Some (n - 48)%nat
  else if ((65 <=? n) && (n <=? 70))%nat then Some (n - 55)%nat
  else if ((97 <=? n) && (n <=? 102))%nat then Some (n - 87)%nat
  else None.

Fixpoint percentDecode (s : string) : option string :=
  match s with
  | EmptyString => Some EmptyString
  | String a r =>
      if Ascii.eqb a "%" then
        match r with
        | String h (String l r') =>
            match hexValue h, hexValue l with
            | Some x, Some y =>
                option_map (String (ascii_of_nat (16 * x + y))) (percentDecode r')
            | _, _ => None
            end
        | _ => None
        end
      else option_map (String a) (percentDecode r)
  end.

(** A machine whose volume is 40: [osascript] prints the number and a line
    feed. *)
Definition speaker : World := fun _ => Completed ("40" ++ nl)%string EmptyString 0.

(** The characters of a printed integer. *)
Definition numericChar (a : ascii) : bool :=
  match digit a with
  | Some _ => true
  | None => Ascii.eqb a "-"
  end.

(** The value of the decimal digits [d] read after the value [acc]. *)
Fixpoint digitsValue (d : Decimal.uint) (acc : Z) : Z :=
  match d with
  | Decimal.Nil => acc
  | Decimal.D0 d' => digitsValue d' (10 * acc + 0)
  | Decimal.D1 d' => digitsValue d' (10 * acc + 1)
  | Decimal.D2 d' => digitsValue d' (10 * acc + 2)
  | Decimal.D3 d' => digitsValue d' (10 * acc + 3)
  | Decimal.D4 d' => digitsValue d' (10 * acc + 4)
  | Decimal.D5 d' => digitsValue d' (10 * acc + 5)
  | Decimal.D6 d' => digitsValue d' (10 * acc + 6)
  | Decimal.D7 d' => digitsValue d' (10 * acc + 7)
  | Decimal.D8 d' => digitsValue d' (10 * acc + 8)
  | Decimal.D9 d' => digitsValue d' (10 * acc + 9)
  end.

(** *** A break of zero minutes

    The timers expected to fire when the break is zero minutes long: the end
    of work interval [i] is then due together with the start of work
    interval [i + 1], which was armed first. *)

Definition endOfWork (env : Env) (i : Z) : list (Z * Timer) :=
  if i =? 0 then []
  else [((i - 1) * CYCLE_DURATION_MS (flags env) + WORK_INTERVAL_MS (flags env),
         WorkElapsed i)].

Fixpoint overlappedFired (env : Env) (todo : nat) (i : Z) : list (Z * Timer) :=
  (i * CYCLE_DURATION_MS (flags env), CallRunCycle (i + 1))
  :: endOfWork env i
  ++ match todo with
     | O =>
         finalTimer env
         ++ (i * CYCLE_DURATION_MS (flags env) + WORK_INTERVAL_MS (flags env),
             WorkElapsed (i + 1))
         :: soundFired (i * CYCLE_DURATION_MS (flags env)
                        + WORK_INTERVAL_MS (flags env))
     | S todo' => overlappedFired env todo' (i + 1)
     end.

(** The events of a session with a break of zero minutes: work interval
    [k + 1] starts at [k * W] and break [k] starts at the same time, after
    it; the end is the completion, followed by the last break start when
    the final break is included. *)
Definition overlappedEvents (env : Env) : list (Z * Event) :=
  let W := WORK_INTERVAL_MS (flags env) in
  let n := Z.to_nat (TOTAL_CYCLES env) in
  (0, WorkStart 1)
  :: flat_map (fun k => [ (Z.of_nat k * W, WorkStart (Z.of_nat k + 1));
                          (Z.of_nat k * W, BreakStart (Z.of_nat k)) ])
       (seq 1 (n - 1))
  ++ (if lastBreak (flags env)
      then [ (TOTAL_CYCLES env * W, Completion);
             (TOTAL_CYCLES env * W, BreakStart (TOTAL_CYCLES env)) ]
      else [ (TOTAL_CYCLES env * W, Completion) ]).

(** A session of three cycles with no break, the final break included. *)
Definition noBreakEnv : Env :=
  {| flags := {| help := false; work := 25; break := 0; interval := 3;
                 playlist := None; search := false; lastBreak := true;
                 positional := None |};
     originalVolume := Int 40; operatingMode := system |}.

(** The playback commands sent to the Music application: every script that
    tells it to play, to pause or to stop, whatever follows the verb.  The
    text returned is what the application is told. *)
Definition playbackVerb (a : Action) : option string :=
  match a with
  | RunCommand [program; option; script] =>
      if String.eqb program "osascript" && String.eqb option "-e" then
        match stripPrefix ("tell application " ++ dq ++ "Music" ++ dq ++ " to ")%string
                script with
        | Some told =>
            if startsWith "play" told || startsWith "pause" told
               || startsWith "stop" told
            then Some told else None
        | None => None
        end
      else None
  | _ => None
  end.

Definition playback (tr : list (Z * Action)) : list (Z * string) :=
  flat_map (fun p => match playbackVerb (snd p) with
                     | Some told => [(fst p, told)]
                     | None => []
                     end) tr.

(** The playback command each event of the schedule sends in Music mode. *)
Definition verbAt (e : Event) : string :=
  match e with
  | WorkStart _ => "play"
  | BreakStart _ => "pause"
  | Completion => "stop"
  end.

(** * Properties *)

(** ** The string primitives on examples *)

Example trim_stdout : trim ("  true" ++ nl)%string = "true".
Proof. reflexivity. Qed.

Example trim_no_break_space : trim (bytes [194; 160; 52; 50; 32])%nat = "42".
Proof. reflexivity. Qed.

Example parseInt_examples :
  parseInt "42" = Int 42 /\ parseInt "42abc" = Int 42 /\ parseInt "-7" = Int (-7)
  /\ parseInt "missing value" = NaN /\ parseInt EmptyString = NaN
  /\ parseInt "9007199254740993" = Int 9007199254740992
  /\ parseInt "9007199254740995" = Int 9007199254740996.
Proof. repeat split. Qed.

Example encodeURIComponent_example :
  encodeURIComponent "Lofi Beats & é" = "Lofi%20Beats%20%26%20%C3%A9".
Proof. reflexivity. Qed.

Example sanitize_example : sanitize "Bob's" = "Bob'\''s".
Proof. reflexivity. Qed.

(** ** The delay of a timer on examples *)

Example timeoutOf_examples :
  timeoutOf 0 = 0 /\ timeoutOf 1500000 = 1500000
  /\ timeoutOf 2147483647 = 2147483647 /\ timeoutOf 2147483648 = 0
  /\ timeoutOf (40000 * 60 * 1000) = 0 /\ timeoutOf (-350) = 0.
Proof. repeat split. Qed.

(** ** The event loop on the schedule *)

Lemma eventLoop_nil (fuel : nat) (env : Env) : eventLoop fuel env [] = ([], []).
Proof. destruct fuel; reflexivity. Qed.

Lemma eventLoop_step (fuel : nat) (env : Env) (t : Z) (f : Timer) (q : Queue) :
  eventLoop (S fuel) env ((t, f) :: q)
  = ((t, f) :: fst (eventLoop fuel env (arm t (armed (handle env f)) q)),
     snd (eventLoop fuel env (arm t (armed (handle env f)) q))).
Proof.
  simpl. destruct (eventLoop fuel env (arm t (armed (handle env f)) q)).
  reflexivity.
Qed.

Lemma arm_nil (now : Z) (q : Queue) : arm now [] q = q.
Proof. reflexivity. Qed.

(** Within its range a delay is taken as it is. *)
Lemma timeoutOf_id (d : Z) : 0 <= d <= TIMEOUT_MAX -> timeoutOf d = d.
Proof.
  unfold timeoutOf, toInt32, TIMEOUT_MAX. intros Hd.
  rewrite Z.mod_small by lia. lia.
Qed.

(** Arithmetic on delays within the range of the timer interface. *)
Ltac in_range := unfold TIMEOUT_MAX in *; lia.

(** Closed conditions on a concrete configuration. *)
Ltac concrete :=
  repeat split;
  try (vm_compute; first [reflexivity | discriminate]);
  simpl; lia.

Lemma arm_one (now d : Z) (f : Timer) (q : Queue) :
  0 <= d <= TIMEOUT_MAX -> arm now [(d, f)] q = enqueue (now + d, f) q.
Proof. intros Hd. unfold arm. cbn [fold_left fst snd]. now rewrite timeoutOf_id. Qed.

Lemma enqueue_last (d : Z) (f : Timer) (q : Queue) :
  Forall (fun p => fst p <= d) q -> enqueue (d, f) q = q ++ [(d, f)].
Proof.
  induction 1 as [|p q Hp _ IH]; simpl; [reflexivity|].
  destruct (Z.ltb_spec d (fst p)); [lia|]. now rewrite IH.
Qed.

Lemma enqueue_behind (p p' : Z * Timer) (q : Queue) :
  fst p' <= fst p -> enqueue p (p' :: q) = p' :: enqueue p q.
Proof. intros H. simpl. destruct (Z.ltb_spec (fst p) (fst p')); [lia|reflexivity]. Qed.

(** Timers asked for in ascending order of delay, none earlier than what is
    already pending, queue up behind it in the order asked. *)
Lemma arm_ascending (l : list (Z * Timer)) :
  forall (lo : Z) (q : Queue),
    0 <= lo -> Forall (fun p => fst p <= lo) q -> ascending lo l ->
    arm 0 l q = q ++ l.
Proof.
  induction l as [|[d f] l IH]; intros lo q Hlo Hq Hl.
  - simpl. now rewrite app_nil_r.
  - destruct Hl as [Hd Hl]. cbn [fst] in Hd, Hl.
    change (arm 0 ((d, f) :: l) q) with (arm 0 l (enqueue (0 + timeoutOf d, f) q)).
    rewrite timeoutOf_id by lia. rewrite Z.add_0_l.
    assert (Hq' : Forall (fun p => fst p <= d) q).
    { eapply Forall_impl; [|exact Hq]. simpl. intros; lia. }
    rewrite enqueue_last by exact Hq'.
    rewrite (IH d); [now rewrite <- app_assoc | lia | | exact Hl].
    apply Forall_app. split; [exact Hq'|]. repeat constructor. simpl. lia.
Qed.

(** Equality of lists of timed entries, up to arithmetic on the times. *)
Ltac same_timers :=
  repeat match goal with
         | |- (_, _) = (_, _) => apply f_equal2
         | |- _ :: _ = _ :: _ => apply f_equal2
         | |- @eq Z _ _ => lia
         | |- CallRunCycle _ = CallRunCycle _ => apply f_equal
         | |- WorkElapsed _ = WorkElapsed _ => apply f_equal
         | |- ResumeCompletionSound _ = ResumeCompletionSound _ => apply f_equal
         | |- _ => reflexivity
         end.

Section Schedule.

Variable env : Env.

Local Abbreviation N := (TOTAL_CYCLES env).
Local Abbreviation W := (WORK_INTERVAL_MS (flags env)).
Local Abbreviation CYC := (CYCLE_DURATION_MS (flags env)).
Local Abbreviation lb := (lastBreak (flags env)).

Hypothesis HN : 1 <= interval (flags env).
Hypothesis HW : 0 < work (flags env).
Hypothesis HB : 0 < break (flags env).
Hypothesis H32 : longestDelay (flags env) <= TIMEOUT_MAX.

Lemma W_pos : 60000 <= W.
Proof using HW. unfold WORK_INTERVAL_MS. lia. Qed.

Lemma CYC_gt_W : W + 60000 <= CYC.
Proof using HB. unfold CYCLE_DURATION_MS, BREAK_INTERVAL_MS. lia. Qed.

(** Every delay of the schedule is within the range of the timer
    interface. *)
Lemma W_max : W <= TIMEOUT_MAX.
Proof using H32. pose proof H32 as H. unfold longestDelay in H. lia. Qed.

Lemma start_max (i : Z) : 0 <= i -> i + 1 <= N -> i * CYC <= TIMEOUT_MAX.
Proof using HW HB H32.
  pose proof W_pos as Hw. pose proof CYC_gt_W as Hc. pose proof H32 as H.
  unfold longestDelay, TOTAL_CYCLES in *. intros Hi HiN.
  destruct lb; nia.
Qed.

Lemma total_max : lb = true -> N * CYC <= TIMEOUT_MAX.
Proof using H32.
  pose proof H32 as H. unfold longestDelay, TOTAL_CYCLES in *.
  intros Hlb. rewrite Hlb in H. lia.
Qed.

Lemma armed_armCycles (todo : nat) :
  forall i, armed (armCycles (flags env) todo i) = cycleTimers env todo i.
Proof. induction todo as [|todo IH]; intros i; simpl; [|rewrite IH]; reflexivity. Qed.

Lemma armed_startTimers :
  armed (startTimers (flags env)) = cycleTimers env (Z.to_nat N) 0 ++ finalTimer env.
Proof.
  unfold startTimers. simpl. rewrite armed_armCycles. unfold finalTimer, TOTAL_CYCLES.
  destruct lb; reflexivity.
Qed.

Lemma ascending_cycleTimers (todo : nat) :
  forall i lo, 0 <= i -> lo <= i * CYC -> i + Z.of_nat todo <= N ->
    ascending lo (cycleTimers env todo i ++ finalTimer env).
Proof using HW HB H32.
  pose proof W_pos. pose proof CYC_gt_W.
  induction todo as [|todo IH]; intros i lo Hi Hlo Hle; simpl.
  - unfold finalTimer. destruct lb eqn:Hlb; simpl; [|exact I].
    pose proof (total_max Hlb). split; [nia|exact I].
  - pose proof (start_max i Hi). split; [lia|]. apply IH; nia.
Qed.

Lemma enqueue_before_cycles (todo : nat) (i d : Z) (f : Timer) :
  0 <= i -> d < i * CYC -> i + Z.of_nat todo <= N ->
  enqueue (d, f) (cycleTimers env todo i ++ finalTimer env)
  = (d, f) :: cycleTimers env todo i ++ finalTimer env.
Proof using HW HB.
  pose proof W_pos. pose proof CYC_gt_W.
  intros Hi Hd Hle. destruct todo; simpl.
  - unfold finalTimer. destruct lb; simpl; [|reflexivity].
    destruct (Z.ltb_spec d (N * CYC)); [reflexivity|nia].
  - destruct (Z.ltb_spec d (i * CYC)); [reflexivity|lia].
Qed.

(** *** What each handler arms *)

Lemma armed_runCycle (k : Z) :
  armed (runCycle env k) = [(W, WorkElapsed k)].
Proof. unfold runCycle. destruct (Mode_eqb (operatingMode env) music); reflexivity. Qed.

Lemma armed_runFinalActions :
  armed (runFinalActions env) = [(350, ResumeCompletionSound 1)].
Proof. unfold runFinalActions. destruct (Mode_eqb (operatingMode env) music); reflexivity. Qed.

Lemma armed_breakStart (k : Z) :
  (k =? N) && negb lb = false -> armed (workElapsed env k) = [].
Proof.
  unfold workElapsed. intros ->.
  destruct (Mode_eqb (operatingMode env) music); reflexivity.
Qed.

Lemma armed_lastWork (k : Z) :
  (k =? N) && negb lb = true ->
  armed (workElapsed env k) = [(350, ResumeCompletionSound 1)].
Proof. unfold workElapsed. intros ->. apply armed_runFinalActions. Qed.

(** *** The timers fired *)

Lemma loop_sound (fuel : nat) (t : Z) :
  (5 <= fuel)%nat ->
  eventLoop fuel env [(t + 350, ResumeCompletionSound 1)] = (soundFired t, []).
Proof.
  intros Hf. do 5 (destruct fuel as [|fuel]; [lia|]).
  rewrite !eventLoop_step. simpl. rewrite eventLoop_nil. simpl.
  change (timeoutOf 350) with 350. unfold soundFired. same_timers.
Qed.

(** From the moment a work interval is running: the end of that interval,
    the cycles that follow, and the ending. *)
Lemma loop_after_work (m : nat) :
  forall (i : Z) (fuel : nat),
    0 <= i -> i + 1 + Z.of_nat m = N -> (2 * m + 7 <= fuel)%nat ->
    eventLoop fuel env
      ((i * CYC + W, WorkElapsed (i + 1)) :: cycleTimers env m (i + 1) ++ finalTimer env)
    = ((i * CYC + W, WorkElapsed (i + 1)) :: cyclesFired env m (i + 1) ++ ending env, []).
Proof using HW HB H32.
  pose proof W_pos as Hw. pose proof CYC_gt_W as Hc. pose proof W_max as Hwm.
  induction m as [|m IH]; intros i fuel Hi HiN Hfuel.
  - assert (Hlast : (i + 1 =? N) = true) by (apply Z.eqb_eq; lia).
    replace i with (N - 1) in * by lia.
    destruct fuel as [|fuel]; [lia|]. rewrite eventLoop_step. simpl handle.
    unfold ending, completionTime, finalTimer. simpl cycleTimers. simpl cyclesFired.
    destruct lb eqn:Hlb.
    + rewrite armed_breakStart by (rewrite Hlb, andb_false_r; reflexivity).
      rewrite arm_nil. simpl app.
      destruct fuel as [|fuel]; [lia|]. rewrite eventLoop_step.
      simpl handle. rewrite armed_runFinalActions, arm_one by in_range. simpl enqueue.
      rewrite loop_sound by lia. reflexivity.
    + rewrite armed_lastWork by (rewrite Hlb, Hlast; reflexivity).
      rewrite arm_one by in_range. simpl enqueue.
      rewrite loop_sound by lia. reflexivity.
  - assert (Hnot : (i + 1 =? N) && negb lb = false).
    { destruct (Z.eqb_spec (i + 1) N); [lia|reflexivity]. }
    destruct fuel as [|fuel]; [lia|]. rewrite eventLoop_step.
    simpl handle. rewrite armed_breakStart by exact Hnot. rewrite arm_nil.
    simpl cycleTimers. simpl app.
    destruct fuel as [|fuel]; [lia|]. rewrite eventLoop_step.
    simpl handle. rewrite armed_runCycle, arm_one by in_range.
    rewrite enqueue_before_cycles by lia.
    rewrite (IH (i + 1) fuel) by lia.
    simpl. reflexivity.
Qed.

(** The run of the timers [main] arms, with and without the timer of
    [playPlaylist] among them. *)
Lemma loop_schedule (m : nat) (fuel : nat) :
  Z.of_nat (S m) = N -> (2 * m + 8 <= fuel)%nat ->
  eventLoop fuel env (cycleTimers env (S m) 0 ++ finalTimer env)
  = (cyclesFired env (S m) 0 ++ ending env, []).
Proof using HW HB H32.
  pose proof W_pos as Hw. pose proof CYC_gt_W as Hc. pose proof W_max as Hwm.
  intros Hm Hfuel. destruct fuel as [|fuel]; [lia|].
  simpl cycleTimers. simpl app. rewrite eventLoop_step.
  simpl handle. rewrite armed_runCycle, arm_one by in_range.
  rewrite enqueue_before_cycles by lia.
  change (0 + 1) with 1.
  replace (0 + W) with (0 * CYC + W) by lia.
  rewrite (loop_after_work m 0) by lia.
  simpl. reflexivity.
Qed.

Lemma loop_schedule_shuffle (m : nat) (fuel : nat) :
  Z.of_nat (S m) = N -> (2 * m + 9 <= fuel)%nat ->
  eventLoop fuel env
    ((0, CallRunCycle 1) :: (500, ApplyShuffleRepeat) :: cycleTimers env m 1 ++ finalTimer env)
  = ((0, CallRunCycle 1) :: (500, ApplyShuffleRepeat)
       :: (0 * CYC + W, WorkElapsed 1) :: cyclesFired env m 1 ++ ending env, []).
Proof using HW HB H32.
  pose proof W_pos as Hw. pose proof CYC_gt_W as Hc. pose proof W_max as Hwm.
  intros Hm Hfuel. destruct fuel as [|fuel]; [lia|].
  rewrite eventLoop_step.
  simpl handle. rewrite armed_runCycle, arm_one by in_range.
  rewrite enqueue_behind by (cbn [fst]; lia).
  rewrite enqueue_before_cycles by lia.
  destruct fuel as [|fuel]; [lia|]. rewrite eventLoop_step.
  simpl handle. simpl armed. rewrite arm_nil.
  replace (0 + W) with (0 * CYC + W) by lia.
  rewrite (loop_after_work m 0) by lia.
  simpl. reflexivity.
Qed.

(** *** The scheduler on its own *)

Lemma N_succ : exists m, Z.to_nat N = S m /\ Z.of_nat (S m) = N.
Proof using HN.
  unfold TOTAL_CYCLES. destruct (Z.to_nat (interval (flags env))) as [|m] eqn:E; [lia|].
  exists m. split; [reflexivity | lia].
Qed.

Lemma startTimers_queue :
  arm 0 (armed (startTimers (flags env))) [] = cycleTimers env (Z.to_nat N) 0 ++ finalTimer env.
Proof using HN HW HB H32.
  rewrite armed_startTimers.
  rewrite (arm_ascending _ 0) by
    (try lia; try constructor; apply ascending_cycleTimers; unfold TOTAL_CYCLES; lia).
  reflexivity.
Qed.

Lemma schedule_runs (fuel : nat) :
  (2 * Z.to_nat N + 6 <= fuel)%nat -> schedule env fuel = (scheduleFired env, []).
Proof using HN HW HB H32.
  intros Hfuel. unfold schedule, scheduleFired. rewrite startTimers_queue.
  destruct N_succ as (m & E & Hm). rewrite E in *.
  apply loop_schedule; [exact Hm | lia].
Qed.

Lemma schedule_runs_shuffle (fuel : nat) :
  (2 * Z.to_nat N + 7 <= fuel)%nat ->
  eventLoop fuel env
    (arm 0 ((500, ApplyShuffleRepeat) :: armed (startTimers (flags env))) [])
  = (insertSecond (500, ApplyShuffleRepeat) (scheduleFired env), []).
Proof using HN HW HB H32.
  pose proof W_pos as Hw. pose proof CYC_gt_W as Hc.
  intros Hfuel. unfold scheduleFired. rewrite armed_startTimers.
  destruct N_succ as (m & E & Hm). rewrite E in *.
  assert (Hq : arm 0 ((500, ApplyShuffleRepeat) :: cycleTimers env (S m) 0 ++ finalTimer env) []
               = (0, CallRunCycle 1) :: (500, ApplyShuffleRepeat)
                   :: cycleTimers env m 1 ++ finalTimer env).
  { change (arm 0 ((500, ApplyShuffleRepeat) :: cycleTimers env (S m) 0 ++ finalTimer env) [])
      with (arm 0 (cycleTimers env m 1 ++ finalTimer env)
              [(0, CallRunCycle 1); (500, ApplyShuffleRepeat)]).
    rewrite (arm_ascending _ 500);
      [reflexivity | lia | repeat constructor; simpl; lia
      | apply ascending_cycleTimers; lia]. }
  rewrite Hq, loop_schedule_shuffle by (try exact Hm; lia).
  simpl. reflexivity.
Qed.

(** *** The timeline of the schedule *)

Lemma timeline_app (a b : list (Z * Timer)) :
  timeline env (a ++ b) = timeline env a ++ timeline env b.
Proof.
  induction a as [|[t f] a IH]; simpl; [reflexivity|].
  destruct (event env f); simpl; now rewrite IH.
Qed.

Lemma timeline_cyclesFired (todo : nat) :
  forall i, timeline env (cyclesFired env todo i) = cycleEvents env todo i.
Proof.
  induction todo as [|todo IH]; intros i; simpl; [reflexivity|].
  rewrite IH. destruct ((i + 1 =? N) && negb lb); reflexivity.
Qed.

Lemma timeline_ending : timeline env (ending env) = finalEvent env.
Proof.
  unfold ending, finalTimer, finalEvent. destruct lb; reflexivity.
Qed.

Lemma timeline_scheduleFired : timeline env (scheduleFired env) = scheduleEvents env.
Proof.
  unfold scheduleFired, scheduleEvents.
  now rewrite timeline_app, timeline_cyclesFired, timeline_ending.
Qed.

Lemma timeline_insertSecond (l : list (Z * Timer)) :
  l <> [] -> timeline env (insertSecond (500, ApplyShuffleRepeat) l) = timeline env l.
Proof. destruct l as [|[t f] l]; [congruence|]. intros _. reflexivity. Qed.

End Schedule.

(** ** Counting and ordering the events *)

Section Timeline.

Variable env : Env.

Local Abbreviation N := (TOTAL_CYCLES env).
Local Abbreviation W := (WORK_INTERVAL_MS (flags env)).
Local Abbreviation CYC := (CYCLE_DURATION_MS (flags env)).
Local Abbreviation lb := (lastBreak (flags env)).

Hypothesis HN : 1 <= interval (flags env).
Hypothesis HW : 0 < work (flags env).
Hypothesis HB : 0 < break (flags env).

Lemma workStarts_app (a b : list (Z * Event)) :
  workStarts (a ++ b) = workStarts a ++ workStarts b.
Proof. apply flat_map_app. Qed.

Lemma breakStarts_app (a b : list (Z * Event)) :
  breakStarts (a ++ b) = breakStarts a ++ breakStarts b.
Proof. apply flat_map_app. Qed.

Lemma completions_app (a b : list (Z * Event)) :
  completions (a ++ b) = completions a ++ completions b.
Proof. apply flat_map_app. Qed.

Lemma workStarts_cycleEvents (todo : nat) :
  forall j, workStarts (cycleEvents env todo (Z.of_nat j))
            = map (workStartOf env) (seq (S j) todo).
Proof.
  unfold workStarts.
  induction todo as [|todo IH]; intros j; [reflexivity|].
  cbn [cycleEvents seq map].
  replace (Z.of_nat j + 1) with (Z.of_nat (S j)) by lia.
  destruct ((Z.of_nat (S j) =? N) && negb lb);
    cbn [flat_map snd fst app]; rewrite IH;
    (apply f_equal2; [unfold workStartOf; f_equal; lia | reflexivity]).
Qed.

Lemma breakStarts_cycleEvents_all (todo : nat) :
  lb = true ->
  forall j, breakStarts (cycleEvents env todo (Z.of_nat j))
            = map (breakStartOf env) (seq (S j) todo).
Proof.
  intros Hlb. unfold breakStarts.
  induction todo as [|todo IH]; intros j; [reflexivity|].
  cbn [cycleEvents seq map]. rewrite Hlb, andb_false_r.
  replace (Z.of_nat j + 1) with (Z.of_nat (S j)) by lia.
  cbn [flat_map snd fst app].
  rewrite IH. apply f_equal2; [unfold breakStartOf; f_equal; lia | reflexivity].
Qed.

Lemma breakStarts_cycleEvents_butLast (todo : nat) :
  lb = false ->
  forall j, Z.of_nat (j + S todo) = N ->
    breakStarts (cycleEvents env (S todo) (Z.of_nat j))
    = map (breakStartOf env) (seq (S j) todo).
Proof.
  intros Hlb. unfold breakStarts.
  induction todo as [|todo IH]; intros j Hj.
  - cbn [cycleEvents seq map]. rewrite Hlb.
    destruct (Z.eqb_spec (Z.of_nat j + 1) N); [reflexivity | lia].
  - remember (S todo) as todo' eqn:E.
    cbn [cycleEvents]. rewrite Hlb.
    destruct (Z.eqb_spec (Z.of_nat j + 1) N); [lia|].
    replace (Z.of_nat j + 1) with (Z.of_nat (S j)) by lia.
    cbn [flat_map snd fst app andb].
    subst todo'. rewrite IH by lia.
    cbn [seq map]. apply f_equal2; [unfold breakStartOf; f_equal; lia | reflexivity].
Qed.

Lemma completions_cycleEvents_all (todo : nat) :
  lb = true -> forall i, completions (cycleEvents env todo i) = [].
Proof.
  intros Hlb. unfold completions.
  induction todo as [|todo IH]; intros i; [reflexivity|].
  cbn [cycleEvents]. rewrite Hlb, andb_false_r.
  cbn [flat_map snd fst app]. apply IH.
Qed.

Lemma completions_cycleEvents_butLast (todo : nat) :
  lb = false ->
  forall i, i + Z.of_nat (S todo) = N ->
    completions (cycleEvents env (S todo) i) = [(N - 1) * CYC + W].
Proof.
  intros Hlb. unfold completions.
  induction todo as [|todo IH]; intros i Hi.
  - cbn [cycleEvents]. rewrite Hlb.
    destruct (Z.eqb_spec (i + 1) N); [|lia].
    cbn [flat_map snd fst app andb negb]. f_equal. nia.
  - remember (S todo) as todo' eqn:E.
    cbn [cycleEvents]. rewrite Hlb.
    destruct (Z.eqb_spec (i + 1) N); [lia|].
    cbn [flat_map snd fst app andb].
    subst todo'. apply IH. lia.
Qed.

Lemma sorted_cycleEvents (todo : nat) :
  forall i d, 0 <= i -> i + Z.of_nat todo <= N -> d < i * CYC ->
    Sorted Z.lt (d :: map fst (cycleEvents env todo i ++ finalEvent env)).
Proof using HW HB.
  pose proof (W_pos env HW) as Hw. pose proof (CYC_gt_W env HB) as Hc.
  induction todo as [|todo IH]; intros i d Hi Hle Hd.
  - unfold finalEvent. cbn [cycleEvents app]. destruct lb; cbn [map fst].
    + repeat constructor. nia.
    + repeat constructor.
  - cbn [cycleEvents app map fst].
    constructor; [|constructor; exact Hd].
    constructor; [|constructor; lia].
    apply IH; lia.
Qed.

Lemma sorted_scheduleEvents : Sorted Z.lt (map fst (scheduleEvents env)).
Proof using HN HW HB.
  pose proof (CYC_gt_W env HB) as Hc. pose proof (W_pos env HW) as Hw.
  assert (H : Sorted Z.lt (-1 :: map fst (scheduleEvents env))).
  { apply sorted_cycleEvents; unfold TOTAL_CYCLES; lia. }
  now apply Sorted_inv in H.
Qed.

Lemma workStarts_scheduleEvents :
  workStarts (scheduleEvents env) = map (workStartOf env) (seq 1 (Z.to_nat N)).
Proof.
  unfold scheduleEvents. rewrite workStarts_app.
  pose proof (workStarts_cycleEvents (Z.to_nat N) 0) as H.
  change (Z.of_nat 0) with 0 in H. rewrite H.
  unfold finalEvent. destruct lb; cbn; now rewrite app_nil_r.
Qed.

Lemma breakStarts_scheduleEvents :
  breakStarts (scheduleEvents env)
  = map (breakStartOf env) (seq 1 (Z.to_nat N - (if lb then 0 else 1))).
Proof using HN.
  unfold scheduleEvents. rewrite breakStarts_app.
  destruct (N_succ env HN) as (m & E & Hm). rewrite E.
  unfold finalEvent. destruct lb eqn:Hlb.
  - pose proof (breakStarts_cycleEvents_all (S m) Hlb 0) as H.
    change (Z.of_nat 0) with 0 in H. rewrite H.
    cbn [breakStarts flat_map snd]. rewrite app_nil_r. now rewrite Nat.sub_0_r.
  - pose proof (breakStarts_cycleEvents_butLast m Hlb 0 Hm) as H.
    change (Z.of_nat 0) with 0 in H. rewrite H.
    cbn [breakStarts flat_map]. rewrite app_nil_r.
    now replace (S m - 1)%nat with m by lia.
Qed.

Lemma completions_scheduleEvents :
  completions (scheduleEvents env) = [completionTime env].
Proof using HN.
  unfold scheduleEvents, completionTime. rewrite completions_app.
  destruct (N_succ env HN) as (m & E & Hm). rewrite E.
  unfold finalEvent. destruct lb eqn:Hlb.
  - now rewrite (completions_cycleEvents_all (S m) Hlb 0).
  - now rewrite (completions_cycleEvents_butLast m Hlb 0) by lia.
Qed.

End Timeline.

(** ** The events and the handlers behind them *)

(** The work-start event is the call of [runCycle]; a break start logs the
    break and pauses or mutes; the completion is [runFinalActions]. *)
Lemma event_handler (env : Env) (f : Timer) (e : Event) :
  event env f = Some e ->
  match e with
  | WorkStart k => handle env f = runCycle env k
  | BreakStart k =>
      handle env f
      = logStatus ("Starting " ++ string_of_Z (break (flags env)) ++ "-minute break "
                   ++ string_of_Z k ++ " of " ++ string_of_Z (TOTAL_CYCLES env) ++ ".")
        ;; (if Mode_eqb (operatingMode env) music then pauseMusic else muteSystem)
  | Completion => handle env f = runFinalActions env
  end.
Proof.
  destruct f as [k|k| | |i]; simpl; try discriminate.
  - intros [= <-]. reflexivity.
  - unfold workElapsed.
    destruct ((k =? TOTAL_CYCLES env) && negb (lastBreak (flags env)));
      intros [= <-]; reflexivity.
  - intros [= <-]. reflexivity.
Qed.

Lemma handlersTrace_app (env : Env) (a b : list (Z * Timer)) :
  handlersTrace env (a ++ b) = handlersTrace env a ++ handlersTrace env b.
Proof. apply flat_map_app. Qed.

Lemma handlersTrace_cons (env : Env) (t : Z) (f : Timer) (fired : list (Z * Timer)) :
  handlersTrace env ((t, f) :: fired)
  = map (pair t) (out (handle env f)) ++ handlersTrace env fired.
Proof. reflexivity. Qed.

(** What a handler does, the completion sound apart, is what the event it
    stands for is to the user; the handlers that pace the completion sound
    do nothing else. *)
Lemma performed_handle (env : Env) (t : Z) (f : Timer) :
  isShuffleTimer f = false ->
  withoutBeeps (map (pair t) (out (handle env f)))
  = match event env f with
    | Some e => map (pair t) (performed env e)
    | None => []
    end.
Proof.
  intros Hf. destruct f as [k|k| | |i]; try discriminate Hf; simpl;
    unfold runCycle, workElapsed, runFinalActions, completionSoundFrom, performed,
      TOTAL_CYCLES.
  - destruct (Mode_eqb (operatingMode env) music); reflexivity.
  - destruct ((k =? interval (flags env)) && negb (lastBreak (flags env)));
      destruct (Mode_eqb (operatingMode env) music); reflexivity.
  - destruct (Mode_eqb (operatingMode env) music); reflexivity.
  - destruct (i <? 5); reflexivity.
Qed.

Lemma performed_handlersTrace (env : Env) (fired : list (Z * Timer)) :
  Forall (fun p => isShuffleTimer (snd p) = false) fired ->
  withoutBeeps (handlersTrace env fired)
  = flat_map (fun p => map (pair (fst p)) (performed env (snd p)))
      (timeline env fired).
Proof.
  induction 1 as [|[t f] fired Hf _ IH]; [reflexivity|].
  rewrite handlersTrace_cons. unfold withoutBeeps in *. rewrite filter_app, IH.
  pose proof (performed_handle env t f Hf) as H. unfold withoutBeeps in H.
  rewrite H. cbn [timeline]. destruct (event env f); reflexivity.
Qed.

Lemma cyclesFired_plain (env : Env) (todo : nat) :
  forall i, Forall (fun p => isShuffleTimer (snd p) = false) (cyclesFired env todo i).
Proof.
  induction todo as [|todo IH]; intros i; cbn [cyclesFired];
    repeat constructor. apply IH.
Qed.

Lemma scheduleFired_plain (env : Env) :
  Forall (fun p => isShuffleTimer (snd p) = false) (scheduleFired env).
Proof.
  unfold scheduleFired, ending. apply Forall_app. split; [apply cyclesFired_plain|].
  apply Forall_app. split.
  - unfold finalTimer. destruct (lastBreak (flags env)); repeat constructor.
  - repeat constructor.
Qed.

(** The end of the session is announced by the handler of a completion and
    by no other. *)
Lemma completionLines_handle (env : Env) (t : Z) (f : Timer) :
  completionLines (map (pair t) (out (handle env f)))
  = match event env f with
    | Some Completion => [t]
    | _ => []
    end.
Proof.
  destruct f as [k|k| | |i]; simpl;
    unfold runCycle, workElapsed, runFinalActions, completionSoundFrom.
  - destruct (Mode_eqb (operatingMode env) music); reflexivity.
  - destruct ((k =? TOTAL_CYCLES env) && negb (lastBreak (flags env)));
      destruct (Mode_eqb (operatingMode env) music); reflexivity.
  - destruct (Mode_eqb (operatingMode env) music); reflexivity.
  - reflexivity.
  - destruct (i <? 5); reflexivity.
Qed.

Lemma completionLines_handlersTrace (env : Env) (fired : list (Z * Timer)) :
  completionLines (handlersTrace env fired) = completions (timeline env fired).
Proof.
  induction fired as [|[t f] fired IH]; [reflexivity|].
  rewrite handlersTrace_cons. unfold completionLines in *.
  rewrite flat_map_app, IH.
  pose proof (completionLines_handle env t f) as H. unfold completionLines in H.
  rewrite H. cbn [timeline].
  destruct (event env f) as [[k|k|]|]; reflexivity.
Qed.

(** ** The scheduler *)

(** C1. For every configuration with [cycleCount >= 1] and positive work and
    break durations, none of its delays beyond the range of the timer
    interface, the scheduler runs to the end and its events are: one work
    start per cycle [k = 1 .. cycleCount] at [(k - 1) * cycleDuration]; one
    break start per cycle at [(k - 1) * cycleDuration + workDurationMs], the
    last cycle's left out unless the final break is included; exactly one
    completion; and the times of all these events, in the order they fire,
    are strictly increasing.  The events are what the handlers did: what the
    run logs and sends, the completion sound apart, is, event by event and
    at the time of the event, the lines and the script of that event. *)
Theorem schedule_closed_form (env : Env) (fuel : nat) :
  1 <= interval (flags env) -> 0 < work (flags env) -> 0 < break (flags env) ->
  longestDelay (flags env) <= TIMEOUT_MAX ->
  (2 * Z.to_nat (interval (flags env)) + 6 <= fuel)%nat ->
  let cycleCount := Z.to_nat (interval (flags env)) in
  let includeFinalBreak := lastBreak (flags env) in
  let fired := fst (schedule env fuel) in
  let tl := timeline env fired in
  snd (schedule env fuel) = []
  /\ withoutBeeps (handlersTrace env fired)
     = flat_map (fun p => map (pair (fst p)) (performed env (snd p))) tl
  /\ workStarts tl = map (workStartOf env) (seq 1 cycleCount)
  /\ List.length (workStarts tl) = cycleCount
  /\ breakStarts tl
     = map (breakStartOf env)
         (seq 1 (cycleCount - (if includeFinalBreak then 0 else 1)))
  /\ List.length (breakStarts tl)
     = (cycleCount - (if includeFinalBreak then 0 else 1))%nat
  /\ List.length (completions tl) = 1%nat
  /\ Sorted Z.lt (map fst tl).
Proof.
  intros HN HW HB H32 Hfuel cycleCount includeFinalBreak fired tl.
  assert (Hrun : schedule env fuel = (scheduleFired env, []))
    by (apply schedule_runs; assumption).
  assert (Hfired : fired = scheduleFired env) by (unfold fired; now rewrite Hrun).
  assert (Hdid : withoutBeeps (handlersTrace env fired)
                 = flat_map (fun p => map (pair (fst p)) (performed env (snd p))) tl).
  { unfold tl. rewrite Hfired. apply performed_handlersTrace, scheduleFired_plain. }
  assert (Htl : tl = scheduleEvents env).
  { unfold tl. rewrite Hfired. apply timeline_scheduleFired. }
  split; [now rewrite Hrun|]. split; [exact Hdid|].
  rewrite Htl.
  rewrite workStarts_scheduleEvents, (breakStarts_scheduleEvents env HN),
    (completions_scheduleEvents env HN).
  rewrite !List.length_map, !List.length_seq.
  repeat split. apply sorted_scheduleEvents; assumption.
Qed.

Lemma schedule_closed_form_witness :
  (1 <= interval (flags standardEnv) /\ 0 < work (flags standardEnv)
   /\ 0 < break (flags standardEnv)
   /\ longestDelay (flags standardEnv) <= TIMEOUT_MAX
   /\ (2 * Z.to_nat (interval (flags standardEnv)) + 6 <= 14)%nat)
  /\ workStarts (timeline standardEnv (fst (schedule standardEnv 14)))
     = [(1, 0); (2, 1800000); (3, 3600000); (4, 5400000)]
  /\ breakStarts (timeline standardEnv (fst (schedule standardEnv 14)))
     = [(1, 1500000); (2, 3300000); (3, 5100000)]
  /\ List.length (completions (timeline standardEnv (fst (schedule standardEnv 14)))) = 1%nat
  /\ firstn 6 (withoutBeeps (handlersTrace standardEnv (fst (schedule standardEnv 14))))
     = [ (0, LogStatus "Restoring system volume to 40. 🔊");
         (0, RunCommand ["osascript"; "-e"; "set volume output volume 40"]);
         (0, LogStatus "Starting 25-minute work interval 1 of 4.");
         (1500000, LogStatus "Starting 5-minute break 1 of 4.");
         (1500000, LogStatus "Muting system audio. 🤫");
         (1500000, RunCommand ["osascript"; "-e"; "set volume output volume 0"]) ].
Proof.
  assert (H : 1 <= interval (flags standardEnv) /\ 0 < work (flags standardEnv)
              /\ 0 < break (flags standardEnv)
              /\ longestDelay (flags standardEnv) <= TIMEOUT_MAX
              /\ (2 * Z.to_nat (interval (flags standardEnv)) + 6 <= 14)%nat)
    by concrete.
  split; [exact H|].
  destruct H as (HN & HW & HB & H32 & Hfuel).
  destruct (schedule_closed_form standardEnv 14 HN HW HB H32 Hfuel)
    as (_ & Hdid & Hws & _ & Hbs & _ & Hc & _).
  split; [exact Hws|]. split; [exact Hbs|]. split; [exact Hc|].
  rewrite Hdid. reflexivity.
Defined.

(** With a work interval of 40000 minutes, beyond the range of the timer
    interface, the timers fire at once: the second work start and the first
    break start are not at the offsets of the closed form, and the times of
    the events are not strictly increasing. *)
Lemma closed_form_beyond_timer_range :
  let env := longWorkEnv in
  let tl := timeline env (fst (schedule env 10)) in
  (1 <= interval (flags env) /\ 0 < work (flags env) /\ 0 < break (flags env))
  /\ TIMEOUT_MAX < longestDelay (flags env)
  /\ snd (schedule env 10) = []
  /\ workStarts tl <> map (workStartOf env) (seq 1 2)
  /\ breakStarts tl <> map (breakStartOf env) (seq 1 1)
  /\ ~ Sorted Z.lt (map fst tl).
Proof.
  cbv zeta. split; [concrete|]. split; [reflexivity|]. split; [reflexivity|].
  split; [vm_compute; discriminate|]. split; [vm_compute; discriminate|].
  intros H. vm_compute in H.
  apply Sorted_inv in H. destruct H as [_ H]. inversion H as [|b l Hlt]; subst.
  vm_compute in Hlt. discriminate Hlt.
Qed.

(** ** The completion *)

Lemma In_cyclesFired (env : Env) (todo : nat) :
  forall i k, i < k <= i + Z.of_nat todo ->
    In ((k - 1) * CYCLE_DURATION_MS (flags env), CallRunCycle k) (cyclesFired env todo i)
    /\ In ((k - 1) * CYCLE_DURATION_MS (flags env) + WORK_INTERVAL_MS (flags env),
           WorkElapsed k) (cyclesFired env todo i).
Proof.
  induction todo as [|todo IH]; intros i k Hk; [lia|].
  cbn [cyclesFired]. destruct (Z.eq_dec k (i + 1)) as [->|Hne].
  - replace (i + 1 - 1) with i by lia. split; [left | right; left]; reflexivity.
  - destruct (IH (i + 1) k) as [H1 H2]; [lia|].
    split; right; right; assumption.
Qed.

(** C2, as the code has it. The completion fires exactly once: the end of
    the session is announced once in the whole run, at the completion time,
    by [runFinalActions], which announces it, restores the volume or stops
    the music, and starts the completion sound.  When the final break is not
    included, it is called by the timer that the last cycle's work-start
    handler armed with delay [workDurationMs], the one that starts the break
    in the other cycles: it fires at
    [(cycleCount - 1) * cycleDuration + workDurationMs], one work interval
    after that work start, and the last cycle has no break start. When the
    final break is included, it is called by a timer of its own that [main]
    armed for [cycleCount * cycleDuration], after the last break start.  No
    delay of the schedule is beyond the range of the timer interface. *)
Theorem completion_once (env : Env) (fuel : nat) :
  1 <= interval (flags env) -> 0 < work (flags env) -> 0 < break (flags env) ->
  longestDelay (flags env) <= TIMEOUT_MAX ->
  (2 * Z.to_nat (interval (flags env)) + 6 <= fuel)%nat ->
  let cycleCount := TOTAL_CYCLES env in
  let cycleDuration := CYCLE_DURATION_MS (flags env) in
  let workDurationMs := WORK_INTERVAL_MS (flags env) in
  let fired := fst (schedule env fuel) in
  let tl := timeline env fired in
  completions tl = [completionTime env]
  /\ completionLines (handlersTrace env fired) = [completionTime env]
  /\ out (runFinalActions env)
     = performed env Completion
       ++ [RunCommand ["afplay"; "/System/Library/Sounds/Hero.aiff"]]
  /\ (lastBreak (flags env) = false ->
      completionTime env = (cycleCount - 1) * cycleDuration + workDurationMs
      /\ In ((cycleCount - 1) * cycleDuration, CallRunCycle cycleCount) fired
      /\ armed (handle env (CallRunCycle cycleCount))
         = [(workDurationMs, WorkElapsed cycleCount)]
      /\ In ((cycleCount - 1) * cycleDuration + workDurationMs,
             WorkElapsed cycleCount) fired
      /\ handle env (WorkElapsed cycleCount) = runFinalActions env
      /\ ~ In cycleCount (map fst (breakStarts tl)))
  /\ (lastBreak (flags env) = true ->
      completionTime env = cycleCount * cycleDuration
      /\ In (cycleCount * cycleDuration, CallRunFinalActions)
           (armed (startTimers (flags env)))
      /\ In (cycleCount * cycleDuration, CallRunFinalActions) fired
      /\ handle env CallRunFinalActions = runFinalActions env
      /\ In (cycleCount, (cycleCount - 1) * cycleDuration + workDurationMs)
           (breakStarts tl)
      /\ (cycleCount - 1) * cycleDuration + workDurationMs
         < cycleCount * cycleDuration).
Proof.
  intros HN HW HB H32 Hfuel cycleCount cycleDuration workDurationMs fired tl.
  pose proof (CYC_gt_W env HB) as Hc. pose proof (W_pos env HW) as Hw.
  assert (Hrun : schedule env fuel = (scheduleFired env, []))
    by (apply schedule_runs; assumption).
  assert (Hfired : fired = scheduleFired env) by (unfold fired; now rewrite Hrun).
  assert (Htl : tl = scheduleEvents env).
  { unfold tl. rewrite Hfired. apply timeline_scheduleFired. }
  assert (HNn : Z.of_nat (Z.to_nat (interval (flags env))) = cycleCount)
    by (unfold cycleCount, TOTAL_CYCLES; lia).
  destruct (In_cyclesFired env (Z.to_nat (interval (flags env))) 0 cycleCount)
    as [Hcycle Hwork]; [unfold cycleCount, TOTAL_CYCLES; lia|].
  assert (Hlines : completionLines (handlersTrace env fired) = [completionTime env]).
  { rewrite completionLines_handlersTrace. fold tl.
    rewrite Htl. apply (completions_scheduleEvents env HN). }
  assert (Hdoes : out (runFinalActions env)
                  = performed env Completion
                    ++ [RunCommand ["afplay"; "/System/Library/Sounds/Hero.aiff"]]).
  { unfold runFinalActions, performed.
    destruct (Mode_eqb (operatingMode env) music); reflexivity. }
  split; [rewrite Htl; apply (completions_scheduleEvents env HN)|].
  split; [exact Hlines|]. split; [exact Hdoes|]. clear Hlines Hdoes.
  rewrite Htl, Hfired, (breakStarts_scheduleEvents env HN).
  unfold completionTime, scheduleFired, TOTAL_CYCLES, cycleCount in *.
  split; intros Hlb; rewrite Hlb.
  - split; [reflexivity|]. split; [apply in_or_app; left; exact Hcycle|].
    split; [apply armed_runCycle|]. split; [apply in_or_app; left; exact Hwork|].
    split.
    + simpl. unfold workElapsed, TOTAL_CYCLES. now rewrite Z.eqb_refl, Hlb.
    + rewrite map_map. intros Hin. apply in_map_iff in Hin.
      destruct Hin as (k & Hk & Hin). apply in_seq in Hin. simpl in Hk. lia.
  - split; [reflexivity|]. split.
    + rewrite armed_startTimers. apply in_or_app. right.
      unfold finalTimer, TOTAL_CYCLES. rewrite Hlb. now left.
    + split.
      * apply in_or_app. right. unfold ending, finalTimer, TOTAL_CYCLES.
        rewrite Hlb. now left.
      * split; [reflexivity|]. split; [|lia].
        apply in_map_iff. exists (Z.to_nat (interval (flags env))).
        split; [unfold breakStartOf; f_equal; unfold TOTAL_CYCLES; lia|].
        apply in_seq. lia.
Qed.

Lemma completion_once_witness :
  (1 <= interval (flags standardEnv) /\ 0 < work (flags standardEnv)
   /\ 0 < break (flags standardEnv)
   /\ longestDelay (flags standardEnv) <= TIMEOUT_MAX
   /\ (2 * Z.to_nat (interval (flags standardEnv)) + 6 <= 14)%nat)
  /\ completions (timeline standardEnv (fst (schedule standardEnv 14))) = [6900000]
  /\ completionLines (handlersTrace standardEnv (fst (schedule standardEnv 14)))
     = [6900000]
  /\ In (6900000, WorkElapsed 4) (fst (schedule standardEnv 14)).
Proof.
  assert (H : 1 <= interval (flags standardEnv) /\ 0 < work (flags standardEnv)
              /\ 0 < break (flags standardEnv)
              /\ longestDelay (flags standardEnv) <= TIMEOUT_MAX
              /\ (2 * Z.to_nat (interval (flags standardEnv)) + 6 <= 14)%nat)
    by concrete.
  split; [exact H|].
  destruct H as (HN & HW & HB & H32 & Hfuel).
  destruct (completion_once standardEnv 14 HN HW HB H32 Hfuel)
    as (Hc & Hlines & _ & Hoff & _).
  split; [exact Hc|]. split; [exact Hlines|].
  destruct (Hoff eq_refl) as (_ & _ & _ & Hin & _). exact Hin.
Defined.

(** With the standard flags the last work start fires at minute 90 and does
    not call the completion; the completion fires at minute 115. *)
Lemma completion_not_in_work_start :
  ~ completionInWorkStart standardEnv (fst (schedule standardEnv 14)).
Proof.
  intros (pre & _ & Hout).
  apply (f_equal (@List.length Action)) in Hout.
  rewrite List.length_app in Hout. simpl in Hout. lia.
Qed.

(** ** Where the timers are armed *)

Lemma cycleTimers_map (env : Env) (todo : nat) :
  forall j,
    cycleTimers env todo (Z.of_nat j)
    = map (fun k => ((Z.of_nat k - 1) * CYCLE_DURATION_MS (flags env),
                     CallRunCycle (Z.of_nat k)))
        (seq (S j) todo).
Proof.
  induction todo as [|todo IH]; intros j; [reflexivity|].
  cbn [cycleTimers seq map].
  replace (Z.of_nat j + 1) with (Z.of_nat (S j)) by lia.
  rewrite IH. apply f_equal2; [|reflexivity]. f_equal. lia.
Qed.

(** C3, as the code has it. [main] arms up front the work-start timer of
    every cycle [k], for [(k - 1) * cycleDuration], and the completion timer
    when the final break is included. The timer for the end of a work interval
    is armed by that cycle's work-start handler when it fires, with delay
    [workDurationMs]; when it fires it starts the break and arms nothing, or
    it is the completion. The completion arms the first of the timers that
    pace the completion sound. *)
Theorem timers_armed_in_stages (env : Env) :
  let cycleCount := TOTAL_CYCLES env in
  let cycleDuration := CYCLE_DURATION_MS (flags env) in
  let workDurationMs := WORK_INTERVAL_MS (flags env) in
  let includeFinalBreak := lastBreak (flags env) in
  armed (startTimers (flags env))
  = map (fun k => ((Z.of_nat k - 1) * cycleDuration, CallRunCycle (Z.of_nat k)))
      (seq 1 (Z.to_nat cycleCount))
    ++ (if includeFinalBreak
        then [(cycleCount * cycleDuration, CallRunFinalActions)] else [])
  /\ (forall k, armed (handle env (CallRunCycle k))
                = [(workDurationMs, WorkElapsed k)])
  /\ (forall k, armed (handle env (WorkElapsed k))
                = if (k =? cycleCount) && negb includeFinalBreak
                  then [(350, ResumeCompletionSound 1)] else [])
  /\ armed (handle env CallRunFinalActions) = [(350, ResumeCompletionSound 1)].
Proof.
  intros cycleCount cycleDuration workDurationMs includeFinalBreak.
  split; [|split; [|split]].
  - rewrite armed_startTimers.
    pose proof (cycleTimers_map env (Z.to_nat cycleCount) 0) as H.
    change (Z.of_nat 0) with 0 in H. unfold cycleCount in *. rewrite H.
    reflexivity.
  - intros k. apply armed_runCycle.
  - intros k. simpl handle.
    destruct ((k =? cycleCount) && negb includeFinalBreak) eqn:E.
    + now apply armed_lastWork.
    + now apply armed_breakStart.
  - apply armed_runFinalActions.
Qed.

(** With the standard flags the first work-start handler, when it fires,
    arms the timer of the first break. *)
Lemma handlers_arm_timers :
  ~ armedUpFront standardEnv (fst (schedule standardEnv 14)).
Proof.
  intros H. specialize (H 0 (CallRunCycle 1)).
  assert (Hin : In (0, CallRunCycle 1) (fst (schedule standardEnv 14)))
    by (vm_compute; left; reflexivity).
  specialize (H Hin). discriminate H.
Qed.

(** ** Mode selection *)

Lemma out_armCycles (flags : Flags) (todo : nat) :
  forall i, out (armCycles flags todo i) = [].
Proof. induction todo as [|todo IH]; intros i; simpl; [|rewrite IH]; reflexivity. Qed.

Lemma out_startTimers (flags : Flags) : out (startTimers flags) = [].
Proof.
  unfold startTimers. simpl. rewrite out_armCycles.
  destruct (lastBreak flags); reflexivity.
Qed.

Lemma armed_getVolume (w : World) : armed (snd (getVolume w)) = [].
Proof. unfold getVolume. destruct (w volumeQuery); reflexivity. Qed.

Lemma armed_playlistExists (w : World) (name : string) :
  armed (snd (playlistExists w name)) = [].
Proof. unfold playlistExists. destruct (w _); reflexivity. Qed.

Lemma urlOf_http (url : string) :
  startsWith "http" url = true -> urlOf (Some (Text url)) = Url url.
Proof.
  intros H. unfold urlOf. rewrite H.
  destruct url; [simpl in H; discriminate H | reflexivity].
Qed.

Lemma urlOf_Url (p : option Positional) (url : string) :
  urlOf p = Url url -> p = Some (Text url) /\ startsWith "http" url = true.
Proof.
  destruct p as [[u|n]|]; unfold urlOf; [| |discriminate].
  - destruct (negb (String.eqb u EmptyString) && startsWith "http" u) eqn:E;
      [|discriminate].
    intros [= ->]. apply andb_true_iff in E. now split.
  - destruct (n =? 0); discriminate.
Qed.

(** What [main] does in YouTube mode. *)
Lemma main_youtube (flags : Flags) (w : World) (url : string) :
  urlOf (positional flags) = Url url ->
  main flags w
  = Running {| flags := flags; originalVolume := fst (getVolume w);
               operatingMode := youtube |}
      (hello ;; playYouTubeVideo url ;; snd (getVolume w)
       ;; logStatus ("Original volume detected: "
                     ++ toString (fst (getVolume w)) ++ ".")
       ;; startTimers flags).
Proof.
  intros H. unfold main. rewrite H. destruct (getVolume w). reflexivity.
Qed.

(** C6, as the code has it. For every input whose positional value begins
    with [http], as it was typed and with no trimming, the program enters
    YouTube mode: after the greeting and a status line it runs the command
    [open] on the URL, then the volume query of [osascript], and the volume
    it keeps to restore is the number read from the output of that query, or
    50 when the query could not be run. *)
Theorem http_positional_starts_youtube (flags : Flags) (w : World) (url : string) :
  positional flags = Some (Text url) ->
  startsWith "http" url = true ->
  startsYouTube flags w url.
Proof.
  intros Hp Hurl.
  assert (H : urlOf (positional flags) = Url url)
    by (rewrite Hp; now apply urlOf_http).
  unfold startsYouTube. rewrite (main_youtube flags w url H).
  unfold getVolume, volumeQuery.
  destruct (w ["osascript"; "-e"; "output volume of (get volume settings)"])
    as [msg|so se c]; cbn [fst snd];
    eexists _, _, _; (split; [reflexivity|]); (split; [reflexivity|]);
    (split; [|reflexivity]);
    cbn [out andThen hello act say logStatus runCommand runCommandDetached
         playYouTubeVideo app];
    rewrite out_startTimers; reflexivity.
Qed.

Lemma http_positional_starts_youtube_witness :
  (positional videoFlags = Some (Text "https://www.youtube.com/watch?v=jfKfPfyJRdk")
   /\ startsWith "http" "https://www.youtube.com/watch?v=jfKfPfyJRdk" = true)
  /\ startsYouTube videoFlags quiet "https://www.youtube.com/watch?v=jfKfPfyJRdk".
Proof.
  split; [split; reflexivity|].
  apply (http_positional_starts_youtube videoFlags quiet); reflexivity.
Defined.

Lemma trimmed_url_not_recognised :
  positional paddedFlags = Some (Text " https://www.youtube.com/watch?v=jfKfPfyJRdk")
  /\ startsWith "http" (trim " https://www.youtube.com/watch?v=jfKfPfyJRdk") = true
  /\ ~ startsYouTube paddedFlags quiet " https://www.youtube.com/watch?v=jfKfPfyJRdk".
Proof.
  split; [reflexivity|]. split; [reflexivity|].
  intros (env & e & later & Hmain & Hmode & _).
  vm_compute in Hmain. injection Hmain as <- _. discriminate Hmode.
Qed.

Lemma armCycles_ext (f1 f2 : Flags) (todo : nat) :
  CYCLE_DURATION_MS f1 = CYCLE_DURATION_MS f2 ->
  forall i, armCycles f1 todo i = armCycles f2 todo i.
Proof.
  intros H. induction todo as [|todo IH]; intros i; simpl; [reflexivity|].
  now rewrite H, IH.
Qed.

Lemma startTimers_withoutPlaylist (flags : Flags) :
  startTimers (withoutPlaylist flags) = startTimers flags.
Proof.
  unfold startTimers.
  rewrite (armCycles_ext (withoutPlaylist flags) flags) by reflexivity.
  reflexivity.
Qed.

Lemma eventLoop_ext (e1 e2 : Env) (fuel : nat) :
  (forall f, handle e1 f = handle e2 f) ->
  forall q, eventLoop fuel e1 q = eventLoop fuel e2 q.
Proof.
  intros H. induction fuel as [|fuel IH]; intros q; [reflexivity|].
  destruct q as [|[t f] q]; [reflexivity|].
  rewrite !eventLoop_step, H, IH. reflexivity.
Qed.

Lemma handle_withoutPlaylist (flags : Flags) (volume : number) (mode : Mode) (f : Timer) :
  handle {| flags := withoutPlaylist flags; originalVolume := volume;
            operatingMode := mode |} f
  = handle {| flags := flags; originalVolume := volume; operatingMode := mode |} f.
Proof. destruct f; reflexivity. Qed.

(** C5. Mode selection is URL first: for every input that supplies both a
    positional argument that looks like a URL, that is, begins with [http],
    and a playlist flag, YouTube mode is selected and the playlist is not
    honoured: [main] and every handler after it do, action for action, what
    they do when no playlist and no search flag is given. *)
Theorem url_wins_over_playlist
    (flags : Flags) (w : World) (url name : string) (fuel : nat) :
  positional flags = Some (Text url) ->
  startsWith "http" url = true ->
  playlist flags = Some name ->
  exists env e,
    main flags w = Running env e
    /\ operatingMode env = youtube
    /\ done (main (withoutPlaylist flags) w) = e
    /\ run fuel (main flags w) = run fuel (main (withoutPlaylist flags) w)
    /\ trace (main flags w) (fst (run fuel (main flags w)))
       = trace (main (withoutPlaylist flags) w)
           (fst (run fuel (main (withoutPlaylist flags) w))).
Proof.
  intros Hp Hurl _.
  assert (H : urlOf (positional flags) = Url url)
    by (rewrite Hp; now apply urlOf_http).
  rewrite (main_youtube flags w url H).
  rewrite (main_youtube (withoutPlaylist flags) w url H).
  rewrite startTimers_withoutPlaylist.
  eexists _, _. split; [reflexivity|]. split; [reflexivity|].
  split; [reflexivity|].
  assert (Hrun : forall q,
             eventLoop fuel
               {| flags := flags; originalVolume := fst (getVolume w);
                  operatingMode := youtube |} q
             = eventLoop fuel
                 {| flags := withoutPlaylist flags;
                    originalVolume := fst (getVolume w);
                    operatingMode := youtube |} q).
  { apply eventLoop_ext. intros f. symmetry. apply handle_withoutPlaylist. }
  split; [apply Hrun|].
  unfold run, trace. rewrite Hrun. reflexivity.
Qed.

Lemma url_wins_over_playlist_witness :
  (positional bothFlags = Some (Text "https://www.youtube.com/watch?v=jfKfPfyJRdk")
   /\ startsWith "http" "https://www.youtube.com/watch?v=jfKfPfyJRdk" = true
   /\ playlist bothFlags = Some "Deep Focus")
  /\ exists env e,
       main bothFlags quiet = Running env e /\ operatingMode env = youtube.
Proof.
  split; [repeat split|].
  destruct (url_wins_over_playlist bothFlags quiet
              "https://www.youtube.com/watch?v=jfKfPfyJRdk" "Deep Focus" 14
              eq_refl eq_refl eq_refl) as (env & e & Hmain & Hmode & _).
  exists env, e. split; assumption.
Defined.

(** What [main] does in Music mode and in System mode. *)
Lemma main_music (flags : Flags) (w : World) (name : string) :
  urlOf (positional flags) = NoUrl ->
  truthy (playlist flags) = Some name ->
  main flags w
  = let env := {| flags := flags; originalVolume := Int 50;
                  operatingMode := music |} in
    if fst (playlistExists w name) then
      Running env (hello ;; snd (playlistExists w name) ;; playPlaylist name
                   ;; startTimers flags)
    else if search flags then
      Running env (hello ;; snd (playlistExists w name) ;; searchAndPlayMusic name
                   ;; startTimers flags)
    else
      Exit 1 (hello ;; snd (playlistExists w name)
              ;; say (notFoundMessage name)).
Proof.
  intros Hu Hp. unfold main. rewrite Hu, Hp.
  destruct (playlistExists w name). reflexivity.
Qed.

Lemma main_system (flags : Flags) (w : World) :
  urlOf (positional flags) = NoUrl ->
  truthy (playlist flags) = None ->
  main flags w
  = Running {| flags := flags; originalVolume := fst (getVolume w);
               operatingMode := system |}
      (hello ;; logStatus "Running in System Mute mode." ;; snd (getVolume w)
       ;; logStatus ("Original volume detected: "
                     ++ toString (fst (getVolume w)) ++ ".")
       ;; startTimers flags).
Proof.
  intros Hu Hp. unfold main. rewrite Hu, Hp.
  destruct (getVolume w). reflexivity.
Qed.

Lemma main_threw (flags : Flags) (w : World) :
  urlOf (positional flags) = NotAString ->
  main flags w = Threw "TypeError: youtubeUrl.startsWith is not a function" hello.
Proof. intros Hu. unfold main. now rewrite Hu. Qed.

(** The lookup of [playlistExists] finds the playlist when the machine
    answers that it has it. *)
Lemma foundIn_playlistExists (w : World) (name : string) :
  fst (playlistExists w name) = foundIn w name.
Proof.
  unfold playlistExists, foundIn, playlistExistsScript.
  destruct (w _); reflexivity.
Qed.

(** The four ways through [main]. *)
Lemma main_cases (cfg : Flags) (w : World) :
  (exists url, urlOf (positional cfg) = Url url)
  \/ (urlOf (positional cfg) = NoUrl /\ exists name, truthy (playlist cfg) = Some name)
  \/ (urlOf (positional cfg) = NoUrl /\ truthy (playlist cfg) = None)
  \/ urlOf (positional cfg) = NotAString.
Proof.
  destruct (urlOf (positional cfg)) as [url| |]; [left; now exists url| |now do 3 right].
  destruct (truthy (playlist cfg)) as [name|];
    [right; left; split; [reflexivity | now exists name]
    | right; right; left; split; reflexivity].
Qed.

(** Splits a membership in a concrete list of actions into its cases and
    closes those where the two actions differ. *)
Ltac which_action H :=
  cbn [out done andThen act hello logStatus runCommand executeAppleScript
       playYouTubeVideo playPlaylist searchAndPlayMusic setTimeout nothing
       notFoundMessage app fst snd] in H;
  rewrite ?out_startTimers in H;
  unfold playlistExistsScript, playPlaylistScript, volumeQuery in H;
  simpl in H;
  repeat (destruct H as [H|H]; [try discriminate H|]);
  try contradiction.

(** C4. When a playlist name is supplied (and no URL comes first) and the
    lookup in the local library does not find it: with search disabled the
    program prints the two lines of the remedial message, last of all, and
    exits with status 1, no timer armed; with search enabled it does not
    exit: it stays in Music mode, issues the catalog search through [open]
    and arms the timers of the schedule. *)
Theorem playlist_not_found (flags : Flags) (w : World) (name : string) :
  urlOf (positional flags) = NoUrl ->
  playlist flags = Some name ->
  name <> EmptyString ->
  foundIn w name = false ->
  (search flags = false ->
     exists e before,
       main flags w = Exit 1 e
       /\ out e
          = before
            ++ [ ConsoleError [(nl ++ "❌ Error: Playlist " ++ dq ++ name ++ dq
                                ++ " not found in your local library.")%string];
                 ConsoleError [("   To search the Apple Music catalog instead, "
                                ++ "add the --search flag." ++ nl)%string] ]
       /\ armed e = []
       /\ forall fuel, run fuel (main flags w) = ([], []))
  /\ (search flags = true ->
      exists env e,
        main flags w = Running env e
        /\ operatingMode env = music
        /\ In (RunCommand ["open"; ("music://music.apple.com/search?term="
                                     ++ encodeURIComponent name)%string])
             (out e)
        /\ armed e = armed (startTimers flags)).
Proof.
  intros Hu Hp Hname Hnot. rewrite <- foundIn_playlistExists in Hnot.
  assert (Ht : truthy (playlist flags) = Some name).
  { rewrite Hp. unfold truthy. destruct (String.eqb_spec name EmptyString);
      [contradiction | reflexivity]. }
  rewrite (main_music flags w name Hu Ht). cbv zeta. rewrite Hnot.
  split; intros Hs; rewrite Hs.
  - eexists _, _. split; [reflexivity|]. split; [|split; [|reflexivity]].
    + cbn [out andThen say notFoundMessage]. reflexivity.
    + cbn [done armed andThen hello act say app]. now rewrite armed_playlistExists.
  - eexists _, _. split; [reflexivity|]. split; [reflexivity|]. split.
    + cbn [out andThen searchAndPlayMusic logStatus runCommandDetached act].
      rewrite out_startTimers. apply in_or_app. left. apply in_or_app. right.
      right. left. reflexivity.
    + cbn [armed andThen hello act searchAndPlayMusic logStatus
           runCommandDetached app].
      now rewrite armed_playlistExists.
Qed.

Lemma playlist_not_found_witness :
  (urlOf (positional (playlistFlags false)) = NoUrl
   /\ playlist (playlistFlags false) = Some "Lofi Beats"
   /\ "Lofi Beats" <> EmptyString
   /\ foundIn emptyLibrary "Lofi Beats" = false
   /\ search (playlistFlags false) = false)
  /\ exists e,
       main (playlistFlags false) emptyLibrary = Exit 1 e
       /\ out e
          = [ ConsoleLog "--- Dinodoro Focus Timer Initialized ---";
              RunCommand ["osascript"; "-e";
                          ("tell application " ++ dq ++ "Music" ++ dq
                           ++ " to exists (playlist named " ++ dq ++ "Lofi Beats"
                           ++ dq ++ ")")%string];
              ConsoleError [(nl ++ "❌ Error: Playlist " ++ dq ++ "Lofi Beats" ++ dq
                             ++ " not found in your local library.")%string];
              ConsoleError [("   To search the Apple Music catalog instead, "
                             ++ "add the --search flag." ++ nl)%string] ].
Proof.
  assert (Hname : "Lofi Beats" <> EmptyString) by discriminate.
  split; [repeat split; exact Hname|].
  destruct (playlist_not_found (playlistFlags false) emptyLibrary "Lofi Beats"
              eq_refl eq_refl Hname eq_refl) as [Hexit _].
  destruct (Hexit eq_refl) as (e & before & Hmain & Hout & _).
  exists e. split; [exact Hmain|].
  vm_compute in Hmain. injection Hmain as <-. reflexivity.
Defined.

(** ** The volume query *)

(** When [main] asks for the system volume it is in YouTube or System mode,
    keeps the answer of [getVolume] and goes on to arm the timers of the
    schedule. *)
Lemma volume_asked (flags : Flags) (w : World) :
  In (RunCommand volumeQuery) (out (done (main flags w))) ->
  exists mode e,
    main flags w
    = Running {| flags := flags; originalVolume := fst (getVolume w);
                 operatingMode := mode |} e
    /\ mode <> music
    /\ armed e = armed (startTimers flags)
    /\ (forall a, In a (out (snd (getVolume w))) -> In a (out e)).
Proof.
  intros Hin.
  destruct (urlOf (positional flags)) as [url| |] eqn:Hu;
    [|destruct (truthy (playlist flags)) as [name|] eqn:Ht|];
    [| | |rewrite (main_threw flags w Hu) in Hin; which_action Hin].
  - rewrite (main_youtube flags w url Hu). eexists _, _.
    split; [reflexivity|]. split; [discriminate|]. split.
    + cbn [armed andThen hello act playYouTubeVideo logStatus runCommand app].
      now rewrite armed_getVolume.
    + intros a Ha. cbn [out andThen]. rewrite <- !app_assoc.
      apply in_or_app. right. apply in_or_app. right.
      apply in_or_app. now left.
  - rewrite (main_music flags w name Hu Ht) in Hin. cbv zeta in Hin.
    unfold playlistExists in Hin.
    destruct (w ["osascript"; "-e"; playlistExistsScript name]) as [msg|so se c];
      cbn [fst snd] in Hin;
      [|destruct (String.eqb (trim so) "true")];
      destruct (search flags); which_action Hin.
  - rewrite (main_system flags w Hu Ht). eexists _, _.
    split; [reflexivity|]. split; [discriminate|]. split.
    + cbn [armed andThen hello act logStatus runCommand app].
      now rewrite armed_getVolume.
    + intros a Ha. cbn [out andThen]. rewrite <- !app_assoc.
      apply in_or_app. right. apply in_or_app. right.
      apply in_or_app. now left.
Qed.

(** C8. In every execution in which the volume query fails, that is, the
    command cannot be run and its promise rejects, [getVolume] logs the
    failure and returns 50; [main] keeps 50 as the volume to restore and goes
    on to arm the timers of the schedule. *)
Theorem volume_query_failure (flags : Flags) (w : World) (err : string) :
  w volumeQuery = Rejected err ->
  In (RunCommand volumeQuery) (out (done (main flags w))) ->
  fst (getVolume w) = Int 50
  /\ In (ConsoleError ["Could not get volume, defaulting to 50."; err])
       (out (snd (getVolume w)))
  /\ exists env e,
       main flags w = Running env e
       /\ originalVolume env = Int 50
       /\ In (ConsoleError ["Could not get volume, defaulting to 50."; err]) (out e)
       /\ armed e = armed (startTimers flags).
Proof.
  intros Hw Hin.
  assert (Hv : fst (getVolume w) = Int 50) by (unfold getVolume; now rewrite Hw).
  assert (Hlog : In (ConsoleError ["Could not get volume, defaulting to 50."; err])
                   (out (snd (getVolume w)))).
  { unfold getVolume. rewrite Hw. right. left. reflexivity. }
  split; [exact Hv|]. split; [exact Hlog|].
  destruct (volume_asked flags w Hin) as (mode & e & Hmain & _ & Harmed & Hout).
  exists {| flags := flags; originalVolume := fst (getVolume w); operatingMode := mode |}, e.
  split; [exact Hmain|]. split; [exact Hv|]. split; [now apply Hout | exact Harmed].
Qed.

Lemma volume_query_failure_witness :
  (noOsascript volumeQuery = Rejected "NotFound"
   /\ In (RunCommand volumeQuery) (out (done (main defaults noOsascript))))
  /\ fst (getVolume noOsascript) = Int 50
  /\ exists env e,
       main defaults noOsascript = Running env e /\ originalVolume env = Int 50.
Proof.
  assert (Hin : In (RunCommand volumeQuery) (out (done (main defaults noOsascript))))
    by (vm_compute; right; right; left; reflexivity).
  split; [split; [reflexivity | exact Hin]|].
  destruct (volume_query_failure defaults noOsascript "NotFound" eq_refl Hin)
    as (Hv & _ & env & e & Hmain & Hvol & _).
  split; [exact Hv|]. exists env, e. split; assumption.
Defined.

(** C10. When the volume query completes, whatever its exit code, and its
    output does not parse as an integer, [getVolume] returns [NaN] and logs
    nothing; [main] keeps [NaN] as the volume to restore, and restoring the
    volume then asks for [set volume output volume NaN]. The message of the
    fallback to 50 is logged only when the command invocation throws. *)
Theorem volume_not_a_number
    (flags : Flags) (w : World) (stdout stderr : string) (code : Z) :
  w volumeQuery = Completed stdout stderr code ->
  parseInt (trim stdout) = NaN ->
  In (RunCommand volumeQuery) (out (done (main flags w))) ->
  getVolume w = (NaN, runCommand volumeQuery)
  /\ (exists env e,
        main flags w = Running env e
        /\ originalVolume env = NaN
        /\ restoreSystemVolume env
           = logStatus "Restoring system volume to NaN. 🔊"
             ;; executeAppleScript "set volume output volume NaN")
  /\ (forall w' message,
        In (ConsoleError ["Could not get volume, defaulting to 50."; message])
           (out (snd (getVolume w')))
        <-> w' volumeQuery = Rejected message).
Proof.
  intros Hw Hnan Hin.
  assert (Hv : getVolume w = (NaN, runCommand volumeQuery))
    by (unfold getVolume; now rewrite Hw, Hnan).
  split; [exact Hv|]. split.
  - destruct (volume_asked flags w Hin) as (mode & e & Hmain & _).
    rewrite Hv in Hmain. eexists _, _. split; [exact Hmain|].
    split; reflexivity.
  - intros w' message. unfold getVolume.
    destruct (w' volumeQuery) as [msg|so se c]; simpl; split.
    + intros [H|[H|[]]]; [discriminate H | now injection H as ->].
    + intros [= ->]. right. left. reflexivity.
    + intros [H|[]]. discriminate H.
    + discriminate.
Qed.

Lemma volume_not_a_number_witness :
  (noVolume volumeQuery = Completed "missing value" EmptyString 0
   /\ parseInt (trim "missing value") = NaN
   /\ In (RunCommand volumeQuery) (out (done (main defaults noVolume))))
  /\ getVolume noVolume = (NaN, runCommand volumeQuery)
  /\ exists env e,
       main defaults noVolume = Running env e /\ originalVolume env = NaN.
Proof.
  assert (Hin : In (RunCommand volumeQuery) (out (done (main defaults noVolume))))
    by (vm_compute; right; right; left; reflexivity).
  split; [split; [reflexivity | split; [reflexivity | exact Hin]]|].
  destruct (volume_not_a_number defaults noVolume "missing value" EmptyString 0
              eq_refl eq_refl Hin) as (Hv & (env & e & Hmain & Hvol & _) & _).
  split; [exact Hv|]. exists env, e. split; assumption.
Defined.

(** ** Music mode and the system volume *)

(** [touchesVolume] does recognise the commands of [getVolume] and
    [setVolume]. *)
Lemma touchesVolume_getVolume (w : World) :
  existsb touchesVolume (out (snd (getVolume w))) = true.
Proof. unfold getVolume. destruct (w volumeQuery); reflexivity. Qed.

Lemma touchesVolume_setVolume (level : number) :
  existsb touchesVolume (out (setVolume level)) = true.
Proof. reflexivity. Qed.

Lemma handle_music_quietly (env : Env) (f : Timer) :
  operatingMode env = music -> quietly (out (handle env f)).
Proof.
  intros Hm. unfold quietly.
  destruct f as [k|k| | |i]; simpl;
    unfold runCycle, workElapsed, runFinalActions, completionSoundFrom;
    rewrite ?Hm; simpl.
  - repeat constructor.
  - destruct ((k =? TOTAL_CYCLES env) && negb (lastBreak (flags env)));
      simpl; repeat constructor.
  - repeat constructor.
  - repeat constructor.
  - destruct (i <? 5); simpl; repeat constructor.
Qed.

Lemma main_music_quietly (flags : Flags) (w : World) (env : Env) (e : Effects) :
  main flags w = Running env e -> operatingMode env = music -> quietly (out e).
Proof.
  intros Hmain Hm. unfold quietly.
  destruct (urlOf (positional flags)) as [url| |] eqn:Hu;
    [|destruct (truthy (playlist flags)) as [name|] eqn:Ht|];
    [| | |rewrite (main_threw flags w Hu) in Hmain; discriminate Hmain].
  - rewrite (main_youtube flags w url Hu) in Hmain.
    injection Hmain as <- _. discriminate Hm.
  - rewrite (main_music flags w name Hu Ht) in Hmain. cbv zeta in Hmain.
    unfold playlistExists in Hmain.
    destruct (w ["osascript"; "-e"; playlistExistsScript name]) as [msg|so se c];
      cbn [fst snd] in Hmain;
      [|destruct (String.eqb (trim so) "true")];
      destruct (search flags); try discriminate Hmain;
      injection Hmain as _ <-;
      cbn [out andThen]; rewrite out_startTimers; simpl; repeat constructor.
  - rewrite (main_system flags w Hu Ht) in Hmain.
    injection Hmain as <- _. discriminate Hm.
Qed.

Lemma music_trace_quietly
    (cfg : Flags) (w : World) (env : Env) (e : Effects) (fuel : nat) :
  main cfg w = Running env e ->
  operatingMode env = music ->
  forall t a,
    In (t, a) (trace (main cfg w) (fst (run fuel (main cfg w)))) ->
    touchesVolume a = false.
Proof.
  intros Hmain Hm t a Hin.
  rewrite Hmain in Hin. unfold trace in Hin. cbn [done] in Hin.
  apply in_app_or in Hin. destruct Hin as [Hin|Hin].
  - apply in_map_iff in Hin. destruct Hin as (a' & [= _ <-] & Hin).
    pose proof (main_music_quietly cfg w env e Hmain Hm) as Hq.
    unfold quietly in Hq. rewrite Forall_forall in Hq. now apply Hq.
  - apply in_flat_map in Hin. destruct Hin as (p & _ & Hin).
    apply in_map_iff in Hin. destruct Hin as (a' & [= _ <-] & Hin).
    pose proof (handle_music_quietly env (snd p) Hm) as Hq.
    unfold quietly in Hq. rewrite Forall_forall in Hq. now apply Hq.
Qed.

(** C9. In Music mode nothing the program does reads or writes the system
    volume, neither [main] nor any handler that fires: the work start
    resumes playback, the break start pauses it and the completion stops it.
    So the commands of [getVolume] and [setVolume] are run in System and
    YouTube mode only. *)
Theorem music_never_touches_volume
    (cfg : Flags) (w : World) (env : Env) (e : Effects) (fuel : nat) :
  main cfg w = Running env e ->
  operatingMode env = music ->
  (forall t a,
      In (t, a) (trace (main cfg w) (fst (run fuel (main cfg w)))) ->
      touchesVolume a = false)
  /\ (forall k,
        handle env (CallRunCycle k)
        = resumeMusic
          ;; logStatus ("Starting " ++ string_of_Z (work (flags env))
                        ++ "-minute work interval " ++ string_of_Z k ++ " of "
                        ++ string_of_Z (TOTAL_CYCLES env) ++ ".")
          ;; setTimeout (WorkElapsed k) (WORK_INTERVAL_MS (flags env)))
  /\ (forall k,
        handle env (WorkElapsed k)
        = if (k =? TOTAL_CYCLES env) && negb (lastBreak (flags env)) then
            logStatus "All cycles complete. Finishing program. Great work!"
            ;; stopMusic ;; playCompletionSound
          else
            logStatus ("Starting " ++ string_of_Z (break (flags env))
                       ++ "-minute break " ++ string_of_Z k ++ " of "
                       ++ string_of_Z (TOTAL_CYCLES env) ++ ".")
            ;; pauseMusic)
  /\ handle env CallRunFinalActions
     = logStatus "All cycles complete. Finishing program. Great work!"
       ;; stopMusic ;; playCompletionSound.
Proof.
  intros Hmain Hm. split; [|split; [|split]].
  - now apply (music_trace_quietly cfg w env e fuel).
  - intros k. simpl. unfold runCycle. now rewrite Hm.
  - intros k. simpl. unfold workElapsed, runFinalActions. now rewrite Hm.
  - simpl. unfold runFinalActions. now rewrite Hm.
Qed.

Lemma music_never_touches_volume_witness :
  (exists env e,
      main (playlistFlags false) fullLibrary = Running env e
      /\ operatingMode env = music)
  /\ forall t a,
       In (t, a) (trace (main (playlistFlags false) fullLibrary)
                    (fst (run 20 (main (playlistFlags false) fullLibrary)))) ->
       touchesVolume a = false.
Proof.
  assert (H : exists env e,
             main (playlistFlags false) fullLibrary = Running env e
             /\ operatingMode env = music)
    by (eexists _, _; split; reflexivity).
  split; [exact H|].
  destruct H as (env & e & Hmain & Hm).
  exact (proj1 (music_never_touches_volume (playlistFlags false) fullLibrary
                  env e 20 Hmain Hm)).
Defined.

(** The other way round: a run that touches the volume is not in Music
    mode. *)
Lemma volume_only_outside_music
    (flags : Flags) (w : World) (fuel : nat) (t : Z) (a : Action) :
  In (t, a) (trace (main flags w) (fst (run fuel (main flags w)))) ->
  touchesVolume a = true ->
  exists env e, main flags w = Running env e /\ operatingMode env <> music.
Proof.
  intros Hin Ha.
  destruct (main flags w) as [c e|env e|err e] eqn:Hmain.
  - exfalso. unfold trace in Hin. cbn [done] in Hin. rewrite app_nil_r in Hin.
    apply in_map_iff in Hin. destruct Hin as (a' & [= _ <-] & Hin).
    destruct (urlOf (positional flags)) as [url| |] eqn:Hu;
      [|destruct (truthy (playlist flags)) as [name|] eqn:Ht|];
      [| | |rewrite (main_threw flags w Hu) in Hmain; discriminate Hmain].
    + rewrite (main_youtube flags w url Hu) in Hmain. discriminate Hmain.
    + rewrite (main_music flags w name Hu Ht) in Hmain. cbv zeta in Hmain.
      unfold playlistExists in Hmain.
      destruct (w ["osascript"; "-e"; playlistExistsScript name]) as [msg|so se c'];
        cbn [fst snd] in Hmain;
        [|destruct (String.eqb (trim so) "true")];
        destruct (search flags); try discriminate Hmain;
        injection Hmain as _ <-; simpl in Hin;
        repeat (destruct Hin as [<-|Hin]; [discriminate Ha|]); contradiction.
    + rewrite (main_system flags w Hu Ht) in Hmain. discriminate Hmain.
  - exists env, e. split; [reflexivity|]. intros Hm.
    rewrite <- Hmain in Hin.
    rewrite (music_trace_quietly flags w env e fuel Hmain Hm t a Hin) in Ha.
    discriminate Ha.
  - exfalso. unfold trace in Hin. cbn [done] in Hin. rewrite app_nil_r in Hin.
    apply in_map_iff in Hin. destruct Hin as (a' & [= _ <-] & Hin).
    destruct (urlOf (positional flags)) as [url| |] eqn:Hu;
      [|destruct (truthy (playlist flags)) as [name|] eqn:Ht|].
    + rewrite (main_youtube flags w url Hu) in Hmain. discriminate Hmain.
    + rewrite (main_music flags w name Hu Ht) in Hmain. cbv zeta in Hmain.
      destruct (fst (playlistExists w name)); [|destruct (search flags)];
        discriminate Hmain.
    + rewrite (main_system flags w Hu Ht) in Hmain. discriminate Hmain.
    + rewrite (main_threw flags w Hu) in Hmain. injection Hmain as _ <-.
      simpl in Hin. destruct Hin as [<-|[]]. discriminate Ha.
Qed.

(** ** Playlist names in the scripts *)

Lemma rev_acc_app (s t acc : string) :
  rev_acc (s ++ t)%string acc = rev_acc t (rev_acc s acc).
Proof. revert acc. induction s as [|a s IH]; intros acc; simpl; [|rewrite IH]; reflexivity. Qed.

Lemma rev_acc_rev_acc (s acc acc' : string) :
  rev_acc (rev_acc s acc) acc' = rev_acc acc (s ++ acc')%string.
Proof.
  revert acc acc'. induction s as [|a s IH]; intros acc acc'; simpl; [reflexivity|].
  rewrite IH. reflexivity.
Qed.

Lemma rev_rev (s : string) : rev (rev s) = s.
Proof.
  unfold rev. rewrite rev_acc_rev_acc. simpl.
  induction s as [|a s IH]; simpl; [|rewrite IH]; reflexivity.
Qed.

(** Each single quote becomes the four characters quote, backslash, quote,
    quote; every other character stays. *)
Lemma sanitize_cons (a : ascii) (s : string) :
  sanitize (String a s)
  = if Ascii.eqb a sq
    then String sq (String backslash (String sq (String sq (sanitize s))))
    else String a (sanitize s).
Proof. unfold sanitize. simpl. destruct (Ascii.eqb a sq); reflexivity. Qed.

(** Inside a literal, the sanitized form of a plain name is read to its end
    and the literal closes at the double quote that follows it. *)
Lemma literalsFrom_sanitize (name : string) :
  plain name = true ->
  forall body rest,
    literalsFrom (sanitize name ++ String (ascii_of_nat 34) rest)%string (Some body)
    = option_map (cons (rev (rev_acc (sanitize name) body))) (literalsFrom rest None).
Proof.
  induction name as [|a name IH]; intros Hplain body rest.
  - reflexivity.
  - cbn [plain] in Hplain. apply andb_true_iff in Hplain.
    destruct Hplain as [Ha Hplain]. apply andb_true_iff in Ha.
    destruct Ha as [Hdq Hbs]. apply negb_true_iff in Hdq, Hbs.
    rewrite sanitize_cons. destruct (Ascii.eqb a sq) eqn:Hsq.
    + apply Ascii.eqb_eq in Hsq. subst a.
      cbn [append literalsFrom rev_acc]. rewrite Hdq, Hbs.
      rewrite (IH Hplain). reflexivity.
    + cbn [append literalsFrom rev_acc]. rewrite Hdq, Hbs.
      rewrite (IH Hplain). reflexivity.
Qed.


(** Where the sanitization is enough: for a name with no double quote and
    no backslash, the literals of both scripts are the application name and
    the sanitized playlist name. *)
Lemma plain_name_literals (name : string) :
  plain name = true ->
  literals (playlistExistsScript name) = Some ["Music"; sanitize name]
  /\ literals (playPlaylistScript name) = Some ["Music"; sanitize name].
Proof.
  intros Hplain.
  pose proof (literalsFrom_sanitize name Hplain) as H.
  unfold literals, playlistExistsScript, playPlaylistScript.
  remember (sanitize name) as clean eqn:E.
  assert (Hrev : rev (rev_acc clean EmptyString) = clean) by apply rev_rev.
  unfold dq. simpl. rewrite !H. unfold rev in *. simpl. rewrite Hrev.
  split; reflexivity.
Qed.

(** C7, at a name the code breaks on. Each single quote of the name is
    replaced by quote, backslash, quote, quote, but a double quote is
    interpolated as it is, and the scripts delimit the name with double
    quotes: for the name [Bob's "Mix"] the literal that should hold the name
    ends at the double quote before [Mix], in the script of [playlistExists]
    and in that of [playPlaylist]. *)
Theorem quoted_name_ends_literal_early :
  let name := ("Bob's " ++ dq ++ "Mix" ++ dq)%string in
  sanitize name = ("Bob'\''s " ++ dq ++ "Mix" ++ dq)%string
  /\ playlistExistsScript name
     = ("tell application " ++ dq ++ "Music" ++ dq
        ++ " to exists (playlist named " ++ dq ++ "Bob'\''s " ++ dq ++ "Mix"
        ++ dq ++ dq ++ ")")%string
  /\ literals (playlistExistsScript name) = Some ["Music"; "Bob'\''s "; EmptyString]
  /\ literals (playPlaylistScript name) = Some ["Music"; "Bob'\''s "; EmptyString]
  /\ literals (playlistExistsScript name) <> Some ["Music"; sanitize name]
  /\ literals (playPlaylistScript name) <> Some ["Music"; sanitize name].
Proof.
  cbv zeta. repeat split; try reflexivity; vm_compute; discriminate.
Qed.

(** For a name with a single quote and nothing else of note, [Bob's], the
    literal stays in one piece; its text is the name with the four
    characters in place of the quote. *)
Example single_quote_name :
  literals (playlistExistsScript "Bob's") = Some ["Music"; "Bob'\''s"].
Proof. reflexivity. Qed.

(** ** The whole program *)

(** The run of the event loop that [main] leaves behind, whatever mode it
    selected. *)
Lemma run_after_main
    (cfg : Flags) (w : World) (env : Env) (e : Effects) (fuel : nat) :
  1 <= interval cfg -> 0 < work cfg -> 0 < break cfg ->
  longestDelay cfg <= TIMEOUT_MAX ->
  main cfg w = Running env e ->
  (2 * Z.to_nat (interval cfg) + 7 <= fuel)%nat ->
  flags env = cfg
  /\ run fuel (main cfg w)
     = (if playlistFound cfg w
        then insertSecond (500, ApplyShuffleRepeat) (scheduleFired env)
        else scheduleFired env, [])
  /\ timeline env (fst (run fuel (main cfg w))) = scheduleEvents env.
Proof.
  intros HN HW HB H32 Hmain Hfuel.
  assert (H : flags env = cfg
              /\ armed e = (if playlistFound cfg w
                            then [(500, ApplyShuffleRepeat)] else [])
                           ++ armed (startTimers cfg)).
  { unfold playlistFound.
    destruct (main_cases cfg w) as [(url & Hu) | [(Hu & name & Ht) | [(Hu & Ht) | Hu]]];
      rewrite Hu, ?Ht, <- ?foundIn_playlistExists.
    - rewrite (main_youtube cfg w url Hu) in Hmain. injection Hmain as <- <-.
      split; [reflexivity|].
      cbn [armed andThen hello act playYouTubeVideo logStatus runCommand
           runCommandDetached app].
      now rewrite armed_getVolume.
    - rewrite (main_music cfg w name Hu Ht) in Hmain. cbv zeta in Hmain.
      destruct (fst (playlistExists w name));
        [|destruct (search cfg); [|discriminate Hmain]];
        injection Hmain as <- <-; (split; [reflexivity|]);
        cbn [armed andThen hello act playPlaylist searchAndPlayMusic logStatus
             executeAppleScript runCommand runCommandDetached setTimeout app];
        now rewrite armed_playlistExists.
    - rewrite (main_system cfg w Hu Ht) in Hmain. injection Hmain as <- <-.
      split; [reflexivity|].
      cbn [armed andThen hello act logStatus runCommand app].
      now rewrite armed_getVolume.
    - rewrite (main_threw cfg w Hu) in Hmain. discriminate Hmain. }
  destruct H as [Hflags Harmed]. subst cfg.
  split; [reflexivity|]. rewrite Hmain. unfold run. rewrite Harmed.
  destruct (playlistFound (flags env) w); cbn [app].
  - rewrite (schedule_runs_shuffle env HN HW HB H32) by (unfold TOTAL_CYCLES; lia).
    split; [reflexivity|].
    cbn [fst]. rewrite timeline_insertSecond; [apply timeline_scheduleFired|].
    unfold scheduleFired. destruct (N_succ env HN) as (m & -> & _). discriminate.
  - change (eventLoop fuel env (arm 0 (armed (startTimers (flags env))) []))
      with (schedule env fuel).
    rewrite (schedule_runs env HN HW HB H32) by (unfold TOTAL_CYCLES; lia).
    split; [reflexivity | apply timeline_scheduleFired].
Qed.


(** The standard session: four cycles of 25 minutes of work and 5 of break,
    no final break. Work starts at minutes 0, 30, 60 and 90, breaks at
    minutes 25, 55 and 85, and the completion fires at minute 115. *)
Example standard_session :
  timeline standardEnv (fst (run 14 (main defaults quiet)))
  = [ (0, WorkStart 1); (25 * 60000, BreakStart 1);
      (30 * 60000, WorkStart 2); (55 * 60000, BreakStart 2);
      (60 * 60000, WorkStart 3); (85 * 60000, BreakStart 3);
      (90 * 60000, WorkStart 4); (115 * 60000, Completion) ].
Proof. reflexivity. Qed.

(** With the help flag nothing else happens: the usage text is printed and
    the process exits with status 0. *)
Lemma help_screen (cfg : Flags) (w : World) (fuel : nat) :
  help cfg = true ->
  dinodoro cfg w = Exit 0 (act (ConsoleLog usage))
  /\ run fuel (dinodoro cfg w) = ([], []).
Proof. intros H. unfold dinodoro. rewrite H. split; reflexivity. Qed.

(** * Further properties of the program *)

(** ** Startup *)

(** The two ways the program calls [Deno.exit]: with status 0 after the help
    screen; and with status 1 in the playlist branch of [main], when the
    lookup does not find the playlist and search is off.  In both no timer
    is armed, and in the second the last two things printed are the lines of
    the remedial message.  In YouTube and System mode the program never
    calls it. *)
Theorem only_fatal_exit (cfg : Flags) (w : World) (code : Z) (e : Effects) :
  dinodoro cfg w = Exit code e ->
  armed e = []
  /\ ((help cfg = true /\ code = 0)
      \/ (help cfg = false
          /\ code = 1
          /\ urlOf (positional cfg) = NoUrl
          /\ exists name before,
               truthy (playlist cfg) = Some name
               /\ foundIn w name = false
               /\ search cfg = false
               /\ out e
                  = before
                    ++ [ ConsoleError [(nl ++ "❌ Error: Playlist " ++ dq ++ name
                                        ++ dq ++ " not found in your local library.")%string];
                         ConsoleError [("   To search the Apple Music catalog instead, "
                                        ++ "add the --search flag." ++ nl)%string] ])).
Proof.
  unfold dinodoro. destruct (help cfg) eqn:Hh.
  - intros [= <- <-]. split; [reflexivity|]. left. now split.
  - intros Hmain.
    destruct (main_cases cfg w) as [(url & Hu) | [(Hu & name & Ht) | [(Hu & Ht) | Hu]]].
    + rewrite (main_youtube cfg w url Hu) in Hmain. discriminate Hmain.
    + rewrite (main_music cfg w name Hu Ht) in Hmain. cbv zeta in Hmain.
      destruct (fst (playlistExists w name)) eqn:Hfound; [discriminate Hmain|].
      destruct (search cfg) eqn:Hs; [discriminate Hmain|].
      injection Hmain as <- <-. split.
      * cbn [armed andThen hello act say app]. now rewrite armed_playlistExists.
      * right. split; [reflexivity|]. split; [reflexivity|]. split; [exact Hu|].
        eexists name, _. split; [exact Ht|].
        split; [now rewrite <- foundIn_playlistExists|].
        split; [reflexivity|]. cbn [out andThen say notFoundMessage]. reflexivity.
    + rewrite (main_system cfg w Hu Ht) in Hmain. discriminate Hmain.
    + rewrite (main_threw cfg w Hu) in Hmain. discriminate Hmain.
Qed.

Lemma only_fatal_exit_witness :
  (exists e, dinodoro (playlistFlags false) emptyLibrary = Exit 1 e)
  /\ search (playlistFlags false) = false.
Proof.
  assert (H : exists e, dinodoro (playlistFlags false) emptyLibrary = Exit 1 e)
    by (eexists; reflexivity).
  split; [exact H|]. destruct H as (e & Hmain).
  destruct (only_fatal_exit (playlistFlags false) emptyLibrary 1 e Hmain)
    as (_ & [[_ Hcode] | (_ & _ & _ & name & before & _ & _ & Hs & _)]).
  - discriminate Hcode.
  - exact Hs.
Defined.

Lemma handle_withoutPositional (cfg : Flags) (volume : number) (mode : Mode) (f : Timer) :
  handle {| flags := withoutPositional cfg; originalVolume := volume;
            operatingMode := mode |} f
  = handle {| flags := cfg; originalVolume := volume; operatingMode := mode |} f.
Proof. destruct f; reflexivity. Qed.

Lemma startTimers_withoutPositional (cfg : Flags) :
  startTimers (withoutPositional cfg) = startTimers cfg.
Proof.
  unfold startTimers.
  rewrite (armCycles_ext (withoutPositional cfg) cfg) by reflexivity.
  reflexivity.
Qed.

Lemma run_withoutPositional
    (cfg : Flags) (volume : number) (mode : Mode) (e : Effects) (fuel : nat) :
  run fuel (Running {| flags := withoutPositional cfg; originalVolume := volume;
                       operatingMode := mode |} e)
  = run fuel (Running {| flags := cfg; originalVolume := volume;
                         operatingMode := mode |} e).
Proof.
  unfold run. apply eventLoop_ext. intros f. apply handle_withoutPositional.
Qed.

(** A positional argument on which the test for a URL is false is ignored:
    a string that does not begin with [http], the empty string, or the
    number 0.  The run prints, runs and fires what it does without the
    argument, and ends the same way. *)
Theorem stray_positional_ignored (cfg : Flags) (w : World) (fuel : nat) :
  urlOf (positional cfg) = NoUrl ->
  exitCode (main cfg w) = exitCode (main (withoutPositional cfg) w)
  /\ done (main cfg w) = done (main (withoutPositional cfg) w)
  /\ run fuel (main cfg w) = run fuel (main (withoutPositional cfg) w)
  /\ trace (main cfg w) (fst (run fuel (main cfg w)))
     = trace (main (withoutPositional cfg) w)
         (fst (run fuel (main (withoutPositional cfg) w))).
Proof.
  intros Hu.
  assert (Hu' : urlOf (positional (withoutPositional cfg)) = NoUrl) by reflexivity.
  destruct (truthy (playlist cfg)) as [name|] eqn:Ht.
  - assert (Ht' : truthy (playlist (withoutPositional cfg)) = Some name) by exact Ht.
    rewrite (main_music cfg w name Hu Ht),
      (main_music (withoutPositional cfg) w name Hu' Ht').
    cbv zeta. rewrite startTimers_withoutPositional.
    change (search (withoutPositional cfg)) with (search cfg).
    destruct (fst (playlistExists w name)); [|destruct (search cfg)];
      cbn [exitCode done]; unfold trace; cbn [done];
      rewrite ?run_withoutPositional; repeat split; reflexivity.
  - assert (Ht' : truthy (playlist (withoutPositional cfg)) = None) by exact Ht.
    rewrite (main_system cfg w Hu Ht),
      (main_system (withoutPositional cfg) w Hu' Ht').
    rewrite startTimers_withoutPositional.
    cbn [exitCode done]. unfold trace. cbn [done].
    rewrite run_withoutPositional. repeat split; reflexivity.
Qed.

Lemma stray_positional_ignored_witness :
  (urlOf (positional paddedFlags) = NoUrl
   /\ urlOf (positional zeroFlags) = NoUrl)
  /\ done (main paddedFlags quiet) = done (main (withoutPositional paddedFlags) quiet)
  /\ done (main zeroFlags quiet) = done (main (withoutPositional zeroFlags) quiet).
Proof.
  split; [split; reflexivity|]. split.
  - exact (proj1 (proj2 (stray_positional_ignored paddedFlags quiet 14 eq_refl))).
  - exact (proj1 (proj2 (stray_positional_ignored zeroFlags quiet 14 eq_refl))).
Defined.

(** A positional argument that the parser gives as a number other than 0
    makes [main] throw where it tests for a URL, whatever the other flags
    say: the greeting is all that is printed, no command is run, no timer is
    armed or fires, and [Deno.exit] is not called. *)
Theorem numeric_positional_throws
    (cfg : Flags) (w : World) (n : Z) (fuel : nat) :
  positional cfg = Some (Numeric n) ->
  n <> 0 ->
  exists error e,
    main cfg w = Threw error e
    /\ out e = [ConsoleLog "--- Dinodoro Focus Timer Initialized ---"]
    /\ armed e = []
    /\ run fuel (main cfg w) = ([], [])
    /\ session w fuel (main cfg w) = []
    /\ exitCode (main cfg w) = None.
Proof.
  intros Hp Hn.
  assert (Hu : urlOf (positional cfg) = NotAString).
  { rewrite Hp. unfold urlOf. destruct (Z.eqb_spec n 0); [contradiction | reflexivity]. }
  rewrite (main_threw cfg w Hu). eexists _, _. repeat split.
Qed.

Lemma numeric_positional_throws_witness :
  (positional minutesFlags = Some (Numeric 25) /\ 25 <> 0)
  /\ exists error e, main minutesFlags fullLibrary = Threw error e.
Proof.
  assert (H : 25 <> 0) by discriminate.
  split; [split; [reflexivity | exact H]|].
  destruct (numeric_positional_throws minutesFlags fullLibrary 25 14 eq_refl H)
    as (error & e & Hmain & _).
  exists error, e. exact Hmain.
Defined.

(** A lookup that cannot be run counts as a playlist not found: the error is
    printed, then with search off the remedial message follows and the
    program exits with status 1, and with search on the catalog search is
    sent and the timers are armed. *)
Theorem lookup_failure_is_not_found
    (cfg : Flags) (w : World) (name message : string) :
  urlOf (positional cfg) = NoUrl ->
  truthy (playlist cfg) = Some name ->
  w ["osascript"; "-e";
     ("tell application " ++ dq ++ "Music" ++ dq ++ " to exists (playlist named "
      ++ dq ++ sanitize name ++ dq ++ ")")%string]
  = Rejected message ->
  fst (playlistExists w name) = false
  /\ In (ConsoleError [("Error checking for playlist: " ++ message)%string])
       (out (done (main cfg w)))
  /\ (search cfg = false ->
      exitCode (main cfg w) = Some 1
      /\ out (done (main cfg w))
         = [ ConsoleLog "--- Dinodoro Focus Timer Initialized ---";
             RunCommand ["osascript"; "-e";
                         ("tell application " ++ dq ++ "Music" ++ dq
                          ++ " to exists (playlist named " ++ dq
                          ++ sanitize name ++ dq ++ ")")%string];
             ConsoleError [("Error checking for playlist: " ++ message)%string];
             ConsoleError [(nl ++ "❌ Error: Playlist " ++ dq ++ name ++ dq
                            ++ " not found in your local library.")%string];
             ConsoleError [("   To search the Apple Music catalog instead, "
                            ++ "add the --search flag." ++ nl)%string] ])
  /\ (search cfg = true ->
      exitCode (main cfg w) = None
      /\ In (RunCommand ["open"; ("music://music.apple.com/search?term="
                                   ++ encodeURIComponent name)%string])
           (out (done (main cfg w)))
      /\ armed (done (main cfg w)) = armed (startTimers cfg)).
Proof.
  intros Hu Ht Hw.
  assert (Hpe : playlistExists w name
                = (false,
                   runCommand ["osascript"; "-e"; playlistExistsScript name]
                   ;; act (ConsoleError [("Error checking for playlist: "
                                          ++ message)%string])))
    by (unfold playlistExists; unfold playlistExistsScript at 1; now rewrite Hw).
  rewrite (main_music cfg w name Hu Ht). cbv zeta. rewrite Hpe. cbn [fst snd].
  split; [reflexivity|]. split; [|split]; try intros Hs; try rewrite Hs.
  - destruct (search cfg);
      cbn [done out andThen hello act runCommand searchAndPlayMusic logStatus];
      rewrite ?out_startTimers; simpl; tauto.
  - split; reflexivity.
  - split; [reflexivity|]. split.
    + cbn [done out andThen hello act runCommand searchAndPlayMusic logStatus].
      rewrite out_startTimers. simpl. tauto.
    + reflexivity.
Qed.

Lemma lookup_failure_is_not_found_witness :
  (urlOf (positional (playlistFlags false)) = NoUrl
   /\ truthy (playlist (playlistFlags false)) = Some "Lofi Beats"
   /\ noOsascript ["osascript"; "-e"; playlistExistsScript "Lofi Beats"]
      = Rejected "NotFound")
  /\ exitCode (main (playlistFlags false) noOsascript) = Some 1.
Proof.
  split; [repeat split|].
  destruct (lookup_failure_is_not_found (playlistFlags false) noOsascript
              "Lofi Beats" "NotFound" eq_refl eq_refl eq_refl)
    as (_ & _ & Hoff & _).
  exact (proj1 (Hoff eq_refl)).
Defined.

(** An empty playlist name is no playlist: the program runs System mode,
    whatever the search flag says, asks for the volume and never turns to
    the Music application. *)
Theorem empty_playlist_name (cfg : Flags) (w : World) :
  urlOf (positional cfg) = NoUrl ->
  playlist cfg = Some EmptyString ->
  main cfg w
  = Running {| flags := cfg; originalVolume := fst (getVolume w);
               operatingMode := system |}
      (hello ;; logStatus "Running in System Mute mode." ;; snd (getVolume w)
       ;; logStatus ("Original volume detected: "
                     ++ toString (fst (getVolume w)) ++ ".")
       ;; startTimers cfg)
  /\ In (RunCommand volumeQuery) (out (done (main cfg w)))
  /\ forall name,
       ~ In (RunCommand ["osascript"; "-e"; playlistExistsScript name])
           (out (done (main cfg w))).
Proof.
  intros Hu Hp.
  assert (Ht : truthy (playlist cfg) = None) by (now rewrite Hp).
  rewrite (main_system cfg w Hu Ht).
  split; [reflexivity|]. split.
  - unfold getVolume. destruct (w volumeQuery); cbn; tauto.
  - intros name Hin. unfold getVolume in Hin.
    destruct (w volumeQuery); which_action Hin.
Qed.

Lemma empty_playlist_name_witness :
  (urlOf (positional emptyNameFlags) = NoUrl
   /\ playlist emptyNameFlags = Some EmptyString)
  /\ exitCode (main emptyNameFlags quiet) = None.
Proof.
  split; [split; reflexivity|].
  rewrite (proj1 (empty_playlist_name emptyNameFlags quiet eq_refl eq_refl)).
  reflexivity.
Defined.

(** ** A cycle count that is not positive *)



(** ** A completion sound that cannot be started

    The handlers drop the promise of one command only, the [afplay] of the
    completion sound, which the completion and the first four resumptions of
    [playCompletionSound] start. *)

Lemma endsProcess_handle (w : World) (env : Env) (f : Timer) :
  endsProcess w (handle env f)
  = match f with
    | ResumeCompletionSound i =>
        (i <? 5) && rejects w ["afplay"; "/System/Library/Sounds/Hero.aiff"]
    | _ =>
        match event env f with
        | Some Completion => rejects w ["afplay"; "/System/Library/Sounds/Hero.aiff"]
        | _ => false
        end
    end.
Proof.
  unfold endsProcess.
  destruct f as [k|k| | |i]; simpl;
    unfold runCycle, workElapsed, runFinalActions, completionSoundFrom.
  - destruct (Mode_eqb (operatingMode env) music); reflexivity.
  - destruct ((k =? TOTAL_CYCLES env) && negb (lastBreak (flags env)));
      destruct (Mode_eqb (operatingMode env) music); simpl;
      rewrite ?orb_false_r; reflexivity.
  - destruct (Mode_eqb (operatingMode env) music); simpl;
      rewrite ?orb_false_r; reflexivity.
  - reflexivity.
  - destruct (i <? 5); simpl; rewrite ?orb_false_r; reflexivity.
Qed.

(** Where [afplay] can be started, every timer of the run fires. *)
Lemma untilRejection_ok (w : World) (env : Env) (fired : list (Z * Timer)) :
  rejects w ["afplay"; "/System/Library/Sounds/Hero.aiff"] = false ->
  untilRejection w env fired = fired.
Proof.
  intros Hw. induction fired as [|[t f] fired IH]; [reflexivity|].
  cbn [untilRejection]. rewrite endsProcess_handle, Hw, IH.
  destruct f as [k|k| | |i]; cbn [event]; rewrite ?andb_false_r;
    try reflexivity.
  destruct ((k =? TOTAL_CYCLES env) && negb (lastBreak (flags env))); reflexivity.
Qed.

(** Where it cannot, the run ends with the handler of the first
    completion. *)
Lemma untilRejection_completion
    (w : World) (env : Env) (pre post : list (Z * Timer)) (t : Z) (f : Timer) :
  rejects w ["afplay"; "/System/Library/Sounds/Hero.aiff"] = true ->
  Forall (fun p => isResume (snd p) = false
                   /\ event env (snd p) <> Some Completion) pre ->
  isResume f = false ->
  event env f = Some Completion ->
  untilRejection w env (pre ++ (t, f) :: post) = pre ++ [(t, f)].
Proof.
  intros Hw Hpre Hf He. induction Hpre as [|[t' f'] pre [Hr Hne] _ IH].
  - cbn [app untilRejection]. rewrite endsProcess_handle, He, Hw.
    destruct f; try discriminate Hf; reflexivity.
  - cbn [app untilRejection]. rewrite endsProcess_handle, IH.
    cbn [snd] in Hr, Hne.
    destruct f' as [k|k| | |i]; try discriminate Hr;
      destruct (event env _) as [[j|j|]|]; try reflexivity; congruence.
Qed.

(** The timers of the schedule up to the completion, and after it. *)
Lemma cyclesFired_calm (env : Env) (todo : nat) :
  forall i, i + Z.of_nat todo < TOTAL_CYCLES env \/ lastBreak (flags env) = true ->
    Forall (fun p => isResume (snd p) = false
                     /\ event env (snd p) <> Some Completion)
      (cyclesFired env todo i).
Proof.
  induction todo as [|todo IH]; intros i Hi; cbn [cyclesFired]; [constructor|].
  constructor; [split; [reflexivity | discriminate]|].
  constructor; [|apply IH; destruct Hi; [left; lia | now right]].
  split; [reflexivity|]. cbn [snd event].
  destruct Hi as [Hi|Hlb].
  - destruct (Z.eqb_spec (i + 1) (TOTAL_CYCLES env)); [lia | discriminate].
  - rewrite Hlb, andb_false_r. discriminate.
Qed.

Lemma cyclesFired_snoc (env : Env) (todo : nat) :
  forall i,
    cyclesFired env (S todo) i
    = cyclesFired env todo i
      ++ [ ((i + Z.of_nat todo) * CYCLE_DURATION_MS (flags env),
            CallRunCycle (i + Z.of_nat todo + 1));
           ((i + Z.of_nat todo) * CYCLE_DURATION_MS (flags env)
            + WORK_INTERVAL_MS (flags env),
            WorkElapsed (i + Z.of_nat todo + 1)) ].
Proof.
  induction todo as [|todo IH]; intros i.
  - cbn [cyclesFired app]. replace (i + Z.of_nat 0) with i by lia. reflexivity.
  - remember (S todo) as n eqn:E. cbn [cyclesFired]. subst n.
    rewrite (IH (i + 1)). cbn [cyclesFired app].
    replace (i + 1 + Z.of_nat todo) with (i + Z.of_nat (S todo)) by lia.
    reflexivity.
Qed.

Lemma scheduleFired_split (env : Env) :
  1 <= interval (flags env) ->
  exists pre f,
    scheduleFired env
    = pre ++ (completionTime env, f) :: soundFired (completionTime env)
    /\ isResume f = false
    /\ event env f = Some Completion
    /\ Forall (fun p => isResume (snd p) = false
                        /\ event env (snd p) <> Some Completion) pre.
Proof.
  intros HN. unfold scheduleFired, ending, finalTimer, completionTime.
  destruct (N_succ env HN) as (m & E & Hm). rewrite E.
  destruct (lastBreak (flags env)) eqn:Hlb.
  - exists (cyclesFired env (S m) 0), CallRunFinalActions.
    split; [reflexivity|]. split; [reflexivity|]. split; [reflexivity|].
    apply cyclesFired_calm. now right.
  - rewrite cyclesFired_snoc.
    exists (cyclesFired env m 0
            ++ [((0 + Z.of_nat m) * CYCLE_DURATION_MS (flags env),
                 CallRunCycle (0 + Z.of_nat m + 1))]),
      (WorkElapsed (0 + Z.of_nat m + 1)).
    split.
    + cbn [app]. rewrite <- !app_assoc. cbn [app].
      replace ((TOTAL_CYCLES env - 1) * CYCLE_DURATION_MS (flags env))
        with ((0 + Z.of_nat m) * CYCLE_DURATION_MS (flags env))
        by (f_equal; lia).
      reflexivity.
    + split; [reflexivity|]. split.
      * cbn [event]. rewrite Hlb.
        destruct (Z.eqb_spec (0 + Z.of_nat m + 1) (TOTAL_CYCLES env));
          [reflexivity | lia].
      * apply Forall_app. split; [apply cyclesFired_calm; left; lia|].
        repeat constructor. discriminate.
Qed.

Lemma timeline_soundFired (env : Env) (t : Z) : timeline env (soundFired t) = [].
Proof. reflexivity. Qed.

(** The events of the schedule all happen, whether the completion sound can
    be started or not. *)
Lemma timeline_untilRejection (w : World) (env : Env) :
  1 <= interval (flags env) ->
  timeline env (untilRejection w env (scheduleFired env)) = scheduleEvents env.
Proof.
  intros HN. rewrite <- (timeline_scheduleFired env).
  destruct (rejects w ["afplay"; "/System/Library/Sounds/Hero.aiff"]) eqn:Hw.
  - destruct (scheduleFired_split env HN) as (pre & f & -> & Hf & He & Hpre).
    rewrite (untilRejection_completion w env pre _ _ f Hw Hpre Hf He).
    rewrite !timeline_app. cbn [timeline]. rewrite He.
    now rewrite timeline_soundFired.
  - now rewrite untilRejection_ok.
Qed.

(** ** Scripts that cannot be run *)

(** On a machine where [osascript] cannot be started, every handler but the
    resumptions of the completion sound sends one script and has its failure
    printed once, as [AppleScript Error:] and the error; and that failure
    does not end the process: a handler ends it only if it starts the
    completion sound and [afplay] cannot be started either. *)
Theorem script_failures_reported
    (w : World) (env : Env) (f : Timer) (message : string) :
  (forall script, w ["osascript"; "-e"; script] = Rejected message) ->
  reported w (handle env f)
  = (if isResume f then [] else [ConsoleError ["AppleScript Error:"; message]])
  /\ (rejects w ["afplay"; "/System/Library/Sounds/Hero.aiff"] = false ->
      endsProcess w (handle env f) = false).
Proof.
  intros Hw. split.
  - unfold reported.
    destruct f as [k|k| | |i]; simpl;
      unfold runCycle, workElapsed, runFinalActions, completionSoundFrom;
      repeat match goal with
             | |- context [if ?c then _ else _] => destruct c
             end;
      simpl; rewrite ?Hw; reflexivity.
  - intros Ha. rewrite endsProcess_handle, Ha.
    destruct f as [k|k| | |i]; cbn [event]; rewrite ?andb_false_r;
      try reflexivity.
    destruct ((k =? TOTAL_CYCLES env) && negb (lastBreak (flags env))); reflexivity.
Qed.

Lemma script_failures_reported_witness :
  (forall script, noMusic ["osascript"; "-e"; script] = Rejected "NotFound")
  /\ reported noMusic (handle standardEnv (CallRunCycle 1))
     = [ConsoleError ["AppleScript Error:"; "NotFound"]]
  /\ endsProcess noMusic (handle standardEnv (WorkElapsed 4)) = false.
Proof.
  assert (H : forall script, noMusic ["osascript"; "-e"; script] = Rejected "NotFound")
    by reflexivity.
  split; [exact H|]. split.
  - exact (proj1 (script_failures_reported noMusic standardEnv (CallRunCycle 1)
                    "NotFound" H)).
  - exact (proj2 (script_failures_reported noMusic standardEnv (WorkElapsed 4)
                    "NotFound" H) eq_refl).
Defined.

Lemma dropped_armCycles (cfg : Flags) (todo : nat) :
  forall i, dropped (armCycles cfg todo i) = [].
Proof. induction todo as [|todo IH]; intros i; simpl; [|rewrite IH]; reflexivity. Qed.

Lemma dropped_startTimers (cfg : Flags) : dropped (startTimers cfg) = [].
Proof.
  unfold startTimers. simpl. rewrite dropped_armCycles.
  destruct (lastBreak cfg); reflexivity.
Qed.

Lemma dropped_playlistExists (w : World) (name : string) :
  dropped (snd (playlistExists w name)) = [].
Proof. unfold playlistExists. destruct (w _); reflexivity. Qed.

(** On a machine where the commands whose promise [main] drops and the
    [afplay] of the completion sound can be started, the timers that fire
    are those of the event loop. *)
Lemma session_ok (w : World) (fuel : nat) (env : Env) (e : Effects) :
  endsProcess w e = false ->
  rejects w ["afplay"; "/System/Library/Sounds/Hero.aiff"] = false ->
  session w fuel (Running env e) = fst (run fuel (Running env e)).
Proof.
  intros He Hw. unfold session. rewrite He. now apply untilRejection_ok.
Qed.

(** ** What the handlers send, event by event *)

Lemma volumeSettings_app (a b : list (Z * Action)) :
  volumeSettings (a ++ b) = volumeSettings a ++ volumeSettings b.
Proof. apply flat_map_app. Qed.

Lemma beepTimes_app (a b : list (Z * Action)) :
  beepTimes (a ++ b) = beepTimes a ++ beepTimes b.
Proof. apply flat_map_app. Qed.

Lemma shuffleRepeatTimes_app (a b : list (Z * Action)) :
  shuffleRepeatTimes (a ++ b) = shuffleRepeatTimes a ++ shuffleRepeatTimes b.
Proof. apply flat_map_app. Qed.

Lemma not_music (mode : Mode) : mode <> music -> Mode_eqb mode music = false.
Proof. destruct mode; [reflexivity | congruence | reflexivity]. Qed.

(** Outside Music mode a handler sets the volume once when it stands for an
    event of the schedule, and not at all otherwise. *)
Lemma volumeSettings_handle (env : Env) (t : Z) (f : Timer) :
  operatingMode env <> music ->
  volumeSettings (map (pair t) (out (handle env f)))
  = match event env f with
    | Some e => [(t, levelAt env e)]
    | None => []
    end.
Proof.
  intros Hm. apply not_music in Hm.
  destruct f as [k|k| | |i]; simpl;
    unfold runCycle, workElapsed, runFinalActions, completionSoundFrom;
    rewrite ?Hm.
  - reflexivity.
  - destruct ((k =? TOTAL_CYCLES env) && negb (lastBreak (flags env))); reflexivity.
  - reflexivity.
  - reflexivity.
  - destruct (i <? 5); reflexivity.
Qed.

Lemma volumeSettings_handlersTrace (env : Env) (fired : list (Z * Timer)) :
  operatingMode env <> music ->
  volumeSettings (handlersTrace env fired)
  = map (fun p => (fst p, levelAt env (snd p))) (timeline env fired).
Proof.
  intros Hm. induction fired as [|[t f] fired IH]; [reflexivity|].
  rewrite handlersTrace_cons, volumeSettings_app, IH, volumeSettings_handle by exact Hm.
  cbn [timeline]. destruct (event env f); reflexivity.
Qed.

(** In System and YouTube mode the volume is set once for each event of the
    schedule and at no other moment of the run: to 0 at a break start, to the
    volume captured at startup at a work start and at the completion. *)
Theorem volume_follows_events
    (cfg : Flags) (w : World) (env : Env) (e : Effects) (fuel : nat) :
  main cfg w = Running env e ->
  operatingMode env <> music ->
  volumeSettings (trace (main cfg w) (fst (run fuel (main cfg w))))
  = map (fun p => (fst p, levelAt env (snd p)))
      (timeline env (fst (run fuel (main cfg w)))).
Proof.
  intros Hmain Hm. rewrite Hmain. unfold trace. cbn [done].
  change (flat_map (fun p => map (pair (fst p)) (out (handle env (snd p))))
            (fst (run fuel (Running env e))))
    with (handlersTrace env (fst (run fuel (Running env e)))).
  rewrite volumeSettings_app, volumeSettings_handlersTrace by exact Hm.
  assert (Hquiet : volumeSettings (map (pair 0) (out e)) = []).
  { destruct (main_cases cfg w) as [(url & Hu) | [(Hu & name & Ht) | [(Hu & Ht) | Hu]]].
    - rewrite (main_youtube cfg w url Hu) in Hmain. injection Hmain as _ <-.
      unfold getVolume. destruct (w volumeQuery);
        cbn [out andThen hello act logStatus runCommand playYouTubeVideo snd fst];
        rewrite out_startTimers; reflexivity.
    - exfalso. rewrite (main_music cfg w name Hu Ht) in Hmain. cbv zeta in Hmain.
      destruct (fst (playlistExists w name)); [|destruct (search cfg)];
        try discriminate Hmain; injection Hmain as <- _; now apply Hm.
    - rewrite (main_system cfg w Hu Ht) in Hmain. injection Hmain as _ <-.
      unfold getVolume. destruct (w volumeQuery);
        cbn [out andThen hello act logStatus runCommand snd fst];
        rewrite out_startTimers; reflexivity.
    - rewrite (main_threw cfg w Hu) in Hmain. discriminate Hmain. }
  rewrite Hquiet. reflexivity.
Qed.

Lemma volume_follows_events_witness :
  (exists env e, main defaults quiet = Running env e /\ operatingMode env <> music)
  /\ volumeSettings (trace (main defaults quiet) (fst (run 14 (main defaults quiet))))
     = [ (0, "40"); (1500000, "0"); (1800000, "40"); (3300000, "0");
         (3600000, "40"); (5100000, "0"); (5400000, "40"); (6900000, "40") ].
Proof.
  assert (H : exists env e, main defaults quiet = Running env e
                            /\ operatingMode env <> music)
    by (eexists _, _; split; [reflexivity | discriminate]).
  split; [exact H|]. destruct H as (env & e & Hmain & Hm).
  rewrite (volume_follows_events defaults quiet env e 14 Hmain Hm).
  vm_compute in Hmain. injection Hmain as <- _. reflexivity.
Defined.





(** ** The completion sound *)

Lemma beepTimes_handle (env : Env) (t : Z) (f : Timer) :
  beepTimes (map (pair t) (out (handle env f)))
  = match f with
    | ResumeCompletionSound i => if i <? 5 then [t] else []
    | _ => match event env f with
           | Some Completion => [t]
           | _ => []
           end
    end.
Proof.
  destruct f as [k|k| | |i]; simpl;
    unfold runCycle, workElapsed, runFinalActions, completionSoundFrom.
  - destruct (Mode_eqb (operatingMode env) music); reflexivity.
  - destruct ((k =? TOTAL_CYCLES env) && negb (lastBreak (flags env)));
      destruct (Mode_eqb (operatingMode env) music); reflexivity.
  - destruct (Mode_eqb (operatingMode env) music); reflexivity.
  - reflexivity.
  - destruct (i <? 5); reflexivity.
Qed.

(** Before the sound is resumed for the first time, a beep is heard at each
    completion and nowhere else. *)
Lemma beepTimes_before_resume (env : Env) (fired : list (Z * Timer)) :
  Forall (fun p => isResume (snd p) = false) fired ->
  beepTimes (handlersTrace env fired) = completions (timeline env fired).
Proof.
  induction 1 as [|[t f] fired Hf _ IH]; [reflexivity|].
  rewrite handlersTrace_cons, beepTimes_app, IH, beepTimes_handle.
  cbn [timeline]. cbn [snd] in Hf.
  destruct f as [k|k| | |i]; try discriminate Hf; cbn [event].
  - reflexivity.
  - destruct ((k =? TOTAL_CYCLES env) && negb (lastBreak (flags env))); reflexivity.
  - reflexivity.
  - reflexivity.
Qed.

Lemma cyclesFired_no_resume (env : Env) (todo : nat) :
  forall i, Forall (fun p => isResume (snd p) = false) (cyclesFired env todo i).
Proof.
  induction todo as [|todo IH]; intros i; cbn [cyclesFired];
    repeat constructor. apply IH.
Qed.

Lemma beepTimes_scheduleFired (env : Env) :
  1 <= interval (flags env) ->
  let t := completionTime env in
  beepTimes (handlersTrace env (scheduleFired env))
  = [t; t + 350; t + 700; t + 1050; t + 1400].
Proof.
  intros HN t. unfold scheduleFired, ending.
  rewrite app_assoc, handlersTrace_app, beepTimes_app.
  rewrite beepTimes_before_resume.
  - assert (Htl : timeline env (cyclesFired env (Z.to_nat (TOTAL_CYCLES env)) 0
                                ++ finalTimer env)
                  = scheduleEvents env).
    { unfold scheduleEvents. rewrite timeline_app, timeline_cyclesFired.
      f_equal. unfold finalTimer, finalEvent.
      destruct (lastBreak (flags env)); reflexivity. }
    rewrite Htl, (completions_scheduleEvents env HN). reflexivity.
  - apply Forall_app. split; [apply cyclesFired_no_resume|].
    unfold finalTimer. destruct (lastBreak (flags env)); repeat constructor.
Qed.

(** The completion sound.  On a machine where [afplay] can be started it is
    started five times, first at the completion and then every 350 ms, and at
    no other moment of the session.  On a machine where it cannot, it is
    tried once, at the completion: the promise of that call is dropped, its
    rejection ends the process, and the four other tries never happen. *)
Theorem five_beeps (env : Env) (w : World) (fuel : nat) :
  1 <= interval (flags env) -> 0 < work (flags env) -> 0 < break (flags env) ->
  longestDelay (flags env) <= TIMEOUT_MAX ->
  (2 * Z.to_nat (interval (flags env)) + 6 <= fuel)%nat ->
  let t := completionTime env in
  beepTimes (handlersTrace env (untilRejection w env (fst (schedule env fuel))))
  = if rejects w ["afplay"; "/System/Library/Sounds/Hero.aiff"]
    then [t]
    else [t; t + 350; t + 700; t + 1050; t + 1400].
Proof.
  intros HN HW HB H32 Hfuel t.
  rewrite (schedule_runs env HN HW HB H32 fuel Hfuel). cbn [fst].
  destruct (rejects w ["afplay"; "/System/Library/Sounds/Hero.aiff"]) eqn:Hw.
  - pose proof (timeline_untilRejection w env HN) as Htl.
    destruct (scheduleFired_split env HN) as (pre & f & Hsplit & Hf & He & Hpre).
    rewrite Hsplit in *.
    rewrite (untilRejection_completion w env pre _ _ f Hw Hpre Hf He) in *.
    rewrite beepTimes_before_resume, Htl.
    + apply (completions_scheduleEvents env HN).
    + apply Forall_app. split.
      * eapply Forall_impl; [|exact Hpre]. intros p [Hp _]. exact Hp.
      * repeat constructor. exact Hf.
  - rewrite untilRejection_ok by exact Hw. now apply beepTimes_scheduleFired.
Qed.

Lemma five_beeps_witness :
  (1 <= interval (flags standardEnv) /\ 0 < work (flags standardEnv)
   /\ 0 < break (flags standardEnv)
   /\ longestDelay (flags standardEnv) <= TIMEOUT_MAX
   /\ (2 * Z.to_nat (interval (flags standardEnv)) + 6 <= 14)%nat)
  /\ beepTimes (handlersTrace standardEnv
                  (untilRejection quiet standardEnv (fst (schedule standardEnv 14))))
     = [6900000; 6900350; 6900700; 6901050; 6901400]
  /\ beepTimes (handlersTrace standardEnv
                  (untilRejection noOsascript standardEnv
                     (fst (schedule standardEnv 14))))
     = [6900000].
Proof.
  assert (H : 1 <= interval (flags standardEnv) /\ 0 < work (flags standardEnv)
              /\ 0 < break (flags standardEnv)
              /\ longestDelay (flags standardEnv) <= TIMEOUT_MAX
              /\ (2 * Z.to_nat (interval (flags standardEnv)) + 6 <= 14)%nat)
    by concrete.
  split; [exact H|]. destruct H as (HN & HW & HB & H32 & Hfuel).
  split.
  - exact (five_beeps standardEnv quiet 14 HN HW HB H32 Hfuel).
  - exact (five_beeps standardEnv noOsascript 14 HN HW HB H32 Hfuel).
Defined.

(** ** The playlist found *)

Lemma shuffleRepeatTimes_handle (env : Env) (t : Z) (f : Timer) :
  shuffleRepeatTimes (map (pair t) (out (handle env f)))
  = if isShuffleTimer f then [t] else [].
Proof.
  destruct f as [k|k| | |i]; simpl;
    unfold runCycle, workElapsed, runFinalActions, completionSoundFrom.
  - destruct (Mode_eqb (operatingMode env) music); reflexivity.
  - destruct ((k =? TOTAL_CYCLES env) && negb (lastBreak (flags env)));
      destruct (Mode_eqb (operatingMode env) music); reflexivity.
  - destruct (Mode_eqb (operatingMode env) music); reflexivity.
  - reflexivity.
  - destruct (i <? 5); reflexivity.
Qed.

Lemma shuffleRepeatTimes_handlersTrace (env : Env) (fired : list (Z * Timer)) :
  shuffleRepeatTimes (handlersTrace env fired)
  = flat_map (fun p => if isShuffleTimer (snd p) then [fst p] else []) fired.
Proof.
  induction fired as [|[t f] fired IH]; [reflexivity|].
  rewrite handlersTrace_cons, shuffleRepeatTimes_app, IH, shuffleRepeatTimes_handle.
  reflexivity.
Qed.

Lemma scheduleFired_no_shuffle (env : Env) :
  flat_map (fun p => if isShuffleTimer (snd p) then [fst p] else [])
    (scheduleFired env) = [].
Proof.
  unfold scheduleFired, ending. rewrite !flat_map_app.
  assert (Hc : forall todo i,
             flat_map (fun p => if isShuffleTimer (snd p) then [fst p] else [])
               (cyclesFired env todo i) = []).
  { induction todo as [|todo IH]; intros i; [reflexivity|]. cbn. apply IH. }
  rewrite Hc. unfold finalTimer. destruct (lastBreak (flags env)); reflexivity.
Qed.

(** When the playlist is found, on a machine where the completion sound can
    be started: playback of the playlist is started by [main], and the
    shuffle and repeat settings are sent once, half a second later, between
    the first work start and everything else of the schedule; the schedule
    itself runs as in any other mode. *)
Theorem playlist_found_session
    (cfg : Flags) (w : World) (name : string) (fuel : nat) :
  1 <= interval cfg -> 0 < work cfg -> 0 < break cfg ->
  longestDelay cfg <= TIMEOUT_MAX ->
  urlOf (positional cfg) = NoUrl ->
  truthy (playlist cfg) = Some name ->
  foundIn w name = true ->
  rejects w ["afplay"; "/System/Library/Sounds/Hero.aiff"] = false ->
  (2 * Z.to_nat (interval cfg) + 7 <= fuel)%nat ->
  let env := {| flags := cfg; originalVolume := Int 50; operatingMode := music |} in
  let fired := session w fuel (main cfg w) in
  fired = insertSecond (500, ApplyShuffleRepeat) (scheduleFired env)
  /\ In (0, RunCommand ["osascript"; "-e";
                        ("tell application " ++ dq ++ "Music" ++ dq
                         ++ " to play playlist " ++ dq ++ sanitize name ++ dq)%string])
       (trace (main cfg w) fired)
  /\ shuffleRepeatTimes (trace (main cfg w) fired) = [500].
Proof.
  intros HN HW HB H32 Hu Ht Hfound Hw Hfuel env fired.
  rewrite <- foundIn_playlistExists in Hfound.
  assert (Hmain : main cfg w
                  = Running env (hello ;; snd (playlistExists w name)
                                 ;; playPlaylist name ;; startTimers cfg)).
  { rewrite (main_music cfg w name Hu Ht). cbv zeta. now rewrite Hfound. }
  assert (Hrun : run fuel (main cfg w)
                 = (insertSecond (500, ApplyShuffleRepeat) (scheduleFired env), [])).
  { rewrite Hmain. unfold run.
    assert (Ha : armed (hello ;; snd (playlistExists w name)
                        ;; playPlaylist name ;; startTimers cfg)
                 = (500, ApplyShuffleRepeat) :: armed (startTimers (flags env))).
    { cbn [armed andThen hello act playPlaylist logStatus executeAppleScript
           runCommand setTimeout app].
      now rewrite armed_playlistExists. }
    rewrite Ha. apply (schedule_runs_shuffle env HN HW HB H32).
    unfold TOTAL_CYCLES. cbn [flags env]. lia. }
  assert (Hfired : fired
                   = insertSecond (500, ApplyShuffleRepeat) (scheduleFired env)).
  { unfold fired. rewrite Hmain, session_ok.
    - now rewrite <- Hmain, Hrun.
    - unfold endsProcess.
      cbn [dropped andThen hello act playPlaylist logStatus executeAppleScript
           runCommand setTimeout app].
      now rewrite dropped_playlistExists, dropped_startTimers.
    - exact Hw. }
  split; [exact Hfired|]. rewrite Hfired. rewrite Hmain.
  unfold trace. cbn [done].
  change (flat_map (fun p => map (pair (fst p)) (out (handle env (snd p)))) ?l)
    with (handlersTrace env l).
  split.
  - apply in_or_app. left. apply in_map.
    cbn [out andThen playPlaylist logStatus executeAppleScript runCommand act
         setTimeout].
    rewrite out_startTimers.
    apply in_or_app. left. apply in_or_app. right. right. left. reflexivity.
  - rewrite shuffleRepeatTimes_app, shuffleRepeatTimes_handlersTrace.
    assert (Hquiet : shuffleRepeatTimes
                       (map (pair 0)
                          (out (hello ;; snd (playlistExists w name)
                                ;; playPlaylist name ;; startTimers cfg))) = []).
    { unfold playlistExists.
      destruct (w ["osascript"; "-e"; playlistExistsScript name]);
        cbn [out andThen hello act playPlaylist logStatus executeAppleScript
             runCommand setTimeout snd];
        rewrite out_startTimers; reflexivity. }
    rewrite Hquiet. cbn [app].
    destruct (N_succ env HN) as (m & E & _).
    pose proof (scheduleFired_no_shuffle env) as Hno.
    unfold scheduleFired in *. unfold TOTAL_CYCLES in *. cbn [flags env] in *.
    rewrite E in *. cbn [cyclesFired app insertSecond flat_map isShuffleTimer snd fst] in *.
    now rewrite Hno.
Qed.

Lemma playlist_found_session_witness :
  (1 <= interval (playlistFlags false) /\ 0 < work (playlistFlags false)
   /\ 0 < break (playlistFlags false)
   /\ longestDelay (playlistFlags false) <= TIMEOUT_MAX
   /\ urlOf (positional (playlistFlags false)) = NoUrl
   /\ truthy (playlist (playlistFlags false)) = Some "Lofi Beats"
   /\ foundIn fullLibrary "Lofi Beats" = true
   /\ rejects fullLibrary ["afplay"; "/System/Library/Sounds/Hero.aiff"] = false
   /\ (2 * Z.to_nat (interval (playlistFlags false)) + 7 <= 15)%nat)
  /\ shuffleRepeatTimes
       (trace (main (playlistFlags false) fullLibrary)
          (session fullLibrary 15 (main (playlistFlags false) fullLibrary))) = [500].
Proof.
  assert (H : 1 <= interval (playlistFlags false) /\ 0 < work (playlistFlags false)
              /\ 0 < break (playlistFlags false)
              /\ longestDelay (playlistFlags false) <= TIMEOUT_MAX
              /\ urlOf (positional (playlistFlags false)) = NoUrl
              /\ truthy (playlist (playlistFlags false)) = Some "Lofi Beats"
              /\ foundIn fullLibrary "Lofi Beats" = true
              /\ rejects fullLibrary ["afplay"; "/System/Library/Sounds/Hero.aiff"]
                 = false
              /\ (2 * Z.to_nat (interval (playlistFlags false)) + 7 <= 15)%nat)
    by concrete.
  split; [exact H|]. destruct H as (HN & HW & HB & H32 & Hu & Ht & Hf & Hw & Hfuel).
  exact (proj2 (proj2 (playlist_found_session (playlistFlags false) fullLibrary
                         "Lofi Beats" 15 HN HW HB H32 Hu Ht Hf Hw Hfuel))).
Defined.

(** ** Playlist names and search terms *)

(** Two different names never give the same sanitized name: the sanitized
    form determines the name. *)
Theorem sanitize_injective (a b : string) :
  sanitize a = sanitize b -> a = b.
Proof.
  revert b. induction a as [|x a IH]; intros [|y b] H.
  - reflexivity.
  - rewrite sanitize_cons in H. change (sanitize EmptyString) with EmptyString in H.
    destruct (Ascii.eqb y sq); discriminate H.
  - rewrite sanitize_cons in H. change (sanitize EmptyString) with EmptyString in H.
    destruct (Ascii.eqb x sq); discriminate H.
  - rewrite !sanitize_cons in H.
    destruct (Ascii.eqb_spec x sq) as [->|Hx], (Ascii.eqb_spec y sq) as [->|Hy].
    + injection H as H. f_equal. now apply IH.
    + injection H as H1 _. congruence.
    + injection H as H1 _. congruence.
    + injection H as -> H. f_equal. now apply IH.
Qed.

Lemma sanitize_injective_witness :
  sanitize "Bob's" = sanitize "Bob's" /\ "Bob's" = "Bob's".
Proof.
  split; [reflexivity|]. apply (sanitize_injective "Bob's" "Bob's"). reflexivity.
Defined.

(** A name without a single quote reaches both scripts as it was typed. *)
Theorem name_without_quote_verbatim (name : string) :
  occurs sq name = false ->
  sanitize name = name
  /\ playlistExistsScript name
     = ("tell application " ++ dq ++ "Music" ++ dq ++ " to exists (playlist named "
        ++ dq ++ name ++ dq ++ ")")%string
  /\ playPlaylistScript name
     = ("tell application " ++ dq ++ "Music" ++ dq ++ " to play playlist "
        ++ dq ++ name ++ dq)%string.
Proof.
  intros H.
  assert (Hs : sanitize name = name).
  { induction name as [|a name IH]; [reflexivity|].
    cbn [occurs] in H. apply orb_false_iff in H. destruct H as [Ha H].
    rewrite sanitize_cons, Ha, IH by exact H. reflexivity. }
  unfold playlistExistsScript, playPlaylistScript. rewrite Hs.
  repeat split; reflexivity.
Qed.

Lemma name_without_quote_verbatim_witness :
  occurs sq "Deep Focus" = false /\ sanitize "Deep Focus" = "Deep Focus".
Proof.
  split; [reflexivity|].
  exact (proj1 (name_without_quote_verbatim "Deep Focus" eq_refl)).
Defined.

Lemma plain_name_literals_witness :
  plain "Bob's" = true
  /\ literals (playPlaylistScript "Bob's") = Some ["Music"; sanitize "Bob's"].
Proof.
  split; [reflexivity|]. exact (proj2 (plain_name_literals "Bob's" eq_refl)).
Defined.

Lemma percentDecode_encoded (a : ascii) (r : string) :
  percentDecode
    ((if unreserved a then String a EmptyString
      else String "%" (String (hexDigit (nat_of_ascii a / 16))
                         (String (hexDigit (nat_of_ascii a mod 16)) EmptyString)))
     ++ r)%string
  = option_map (String a) (percentDecode r).
Proof.
  destruct a as [[|] [|] [|] [|] [|] [|] [|] [|]]; reflexivity.
Qed.

Lemma urlSafe_encoded (a : ascii) :
  allChars urlSafe
    (if unreserved a then String a EmptyString
     else String "%" (String (hexDigit (nat_of_ascii a / 16))
                        (String (hexDigit (nat_of_ascii a mod 16)) EmptyString)))
  = true.
Proof.
  destruct a as [[|] [|] [|] [|] [|] [|] [|] [|]]; reflexivity.
Qed.

Lemma allChars_app (p : ascii -> bool) (s t : string) :
  allChars p (s ++ t)%string = allChars p s && allChars p t.
Proof.
  induction s as [|a s IH]; [reflexivity|].
  cbn [append allChars]. now rewrite IH, andb_assoc.
Qed.

(** The catalog search opens a URL whose term holds only letters, digits,
    the marks [-_.!~*'()] and percent escapes, and from which the search
    term can be read back byte for byte: no character of the term can end
    the term or add a parameter, and no two terms share a URL. *)
Theorem search_term_survives (searchTerm : string) :
  out (searchAndPlayMusic searchTerm)
  = [ LogStatus ("Searching Apple Music catalog for " ++ dq ++ searchTerm
                 ++ dq ++ "...")%string;
      RunCommand ["open"; ("music://music.apple.com/search?term="
                           ++ encodeURIComponent searchTerm)%string] ]
  /\ allChars urlSafe (encodeURIComponent searchTerm) = true
  /\ percentDecode (encodeURIComponent searchTerm) = Some searchTerm.
Proof.
  split; [reflexivity|]. split.
  - induction searchTerm as [|a s IH]; [reflexivity|].
    cbn [encodeURIComponent]. cbv zeta.
    now rewrite allChars_app, urlSafe_encoded, IH.
  - induction searchTerm as [|a s IH]; [reflexivity|].
    cbn [encodeURIComponent]. cbv zeta.
    now rewrite percentDecode_encoded, IH.
Qed.

(** ** Reading the volume back *)

Lemma digits_string_of_uint (d : Decimal.uint) :
  forall acc,
    digits (NilEmpty.string_of_uint d) (Some acc) = Some (digitsValue d acc).
Proof.
  induction d; intros acc; cbn [NilEmpty.string_of_uint digits digitsValue];
    [reflexivity|..];
    match goal with
    | |- context [digit ?c] =>
        let v := eval vm_compute in (digit c) in change (digit c) with v
    end;
    cbv iota beta; apply IHd.
Qed.

Lemma digits_string_of_uint_fresh (d : Decimal.uint) :
  d <> Decimal.Nil ->
  digits (NilEmpty.string_of_uint d) None = Some (digitsValue d 0).
Proof.
  destruct d; intros H; [congruence|..];
    cbn [NilEmpty.string_of_uint digits digitsValue];
    match goal with
    | |- context [digit ?c] =>
        let v := eval vm_compute in (digit c) in change (digit c) with v
    end;
    cbv iota beta; apply digits_string_of_uint.
Qed.

Lemma digitsValue_revapp (d : Decimal.uint) :
  forall d', digitsValue d (Z.of_N (DecimalPos.Unsigned.of_lu d'))
             = Z.of_N (DecimalPos.Unsigned.of_lu (Decimal.revapp d d')).
Proof.
  induction d; intros d'; cbn [digitsValue Decimal.revapp]; [reflexivity|..];
    rewrite <- IHd; f_equal; cbn [DecimalPos.Unsigned.of_lu]; lia.
Qed.

Lemma digitsValue_of_uint (d : Decimal.uint) : digitsValue d 0 = Z.of_uint d.
Proof.
  unfold Z.of_uint. rewrite DecimalPos.Unsigned.of_uint_alt.
  exact (digitsValue_revapp d Decimal.Nil).
Qed.

Lemma numeric_string_of_uint (d : Decimal.uint) :
  allChars numericChar (NilEmpty.string_of_uint d) = true.
Proof. induction d; cbn; try rewrite IHd; reflexivity. Qed.

Lemma numeric_string_of_Z (z : Z) :
  allChars numericChar (string_of_Z z) = true /\ string_of_Z z <> EmptyString.
Proof.
  unfold string_of_Z. destruct z as [|p|p]; cbn [Z.to_int NilZero.string_of_int].
  - split; [reflexivity | discriminate].
  - pose proof (DecimalPos.Unsigned.to_uint_nonnil p) as Hp.
    pose proof (numeric_string_of_uint (Pos.to_uint p)) as Hn.
    destruct (Pos.to_uint p); [congruence|..];
      (split; [exact Hn | discriminate]).
  - pose proof (DecimalPos.Unsigned.to_uint_nonnil p) as Hp.
    pose proof (numeric_string_of_uint (Pos.to_uint p)) as Hn.
    destruct (Pos.to_uint p); [congruence|..];
      (split; [cbn [NilZero.string_of_uint allChars]; rewrite Hn; reflexivity
              | discriminate]).
Qed.

(** No white space begins with a character of a printed integer. *)
Lemma dropOne_numeric (a : ascii) (r : string) :
  numericChar a = true ->
  dropOne whiteSpace (String a r) = None
  /\ dropOne (map rev whiteSpace) (String a r) = None.
Proof.
  destruct a as [[|] [|] [|] [|] [|] [|] [|] [|]]; intros H;
    try discriminate H; split; reflexivity.
Qed.

Lemma trimStart_numeric (a : ascii) (r : string) :
  numericChar a = true -> trimStart (String a r) = String a r.
Proof.
  intros H. unfold trimStart. cbn [String.length dropWhile].
  now rewrite (proj1 (dropOne_numeric a r H)).
Qed.

Lemma allChars_rev_acc (p : ascii -> bool) (s acc : string) :
  allChars p (rev_acc s acc) = allChars p s && allChars p acc.
Proof.
  revert acc. induction s as [|a s IH]; intros acc; [reflexivity|].
  cbn [rev_acc allChars]. rewrite IH. cbn [allChars].
  destruct (p a); [reflexivity | now rewrite andb_false_r].
Qed.

Lemma length_rev_acc (s acc : string) :
  String.length (rev_acc s acc) = (String.length s + String.length acc)%nat.
Proof.
  revert acc. induction s as [|a s IH]; intros acc; [reflexivity|].
  cbn [rev_acc String.length]. rewrite IH. cbn [String.length]. lia.
Qed.

Lemma length_append (s t : string) :
  String.length (s ++ t)%string = (String.length s + String.length t)%nat.
Proof. induction s as [|a s IH]; [reflexivity|]. cbn. now rewrite IH. Qed.

(** Trimming takes the line feed off a printed integer and nothing else. *)
Lemma trim_numeric_line (s : string) :
  allChars numericChar s = true -> s <> EmptyString ->
  trim (s ++ nl)%string = s.
Proof.
  intros Hs Hne. destruct s as [|a r]; [congruence|].
  assert (Ha : numericChar a = true)
    by (cbn [allChars] in Hs; now apply andb_true_iff in Hs).
  unfold trim. cbn [append]. rewrite (trimStart_numeric a _ Ha).
  unfold trimEnd.
  change (String a (r ++ nl))%string with (String a r ++ nl)%string.
  assert (Hrev : rev (String a r ++ nl)%string
                 = String (ascii_of_nat 10) (rev (String a r))).
  { unfold rev. rewrite rev_acc_app. reflexivity. }
  rewrite Hrev, length_append.
  replace (String.length (String a r) + String.length nl)%nat
    with (S (S (String.length r))) by (cbn; lia).
  assert (Hlf : forall x, dropOne (map rev whiteSpace) (String (ascii_of_nat 10) x)
                          = Some x) by reflexivity.
  cbn [dropWhile]. rewrite Hlf.
  assert (Hr : allChars numericChar (rev (String a r)) = true).
  { unfold rev. rewrite allChars_rev_acc, Hs. reflexivity. }
  assert (Hl : String.length (rev (String a r)) = S (String.length r)).
  { unfold rev. rewrite length_rev_acc. cbn. lia. }
  destruct (rev (String a r)) as [|b t] eqn:E; [discriminate Hl|].
  assert (Hb : numericChar b = true)
    by (cbn [allChars] in Hr; now apply andb_true_iff in Hr).
  rewrite (proj2 (dropOne_numeric b t Hb)), <- E. apply rev_rev.
Qed.

Lemma parseInt_unsigned (a : ascii) (r : string) (k : Z) :
  digit a = Some k ->
  parseInt (String a r)
  = match digits (String a r) None with
    | Some v => Int (toDouble (1 * v))
    | None => NaN
    end.
Proof.
  destruct a as [[|] [|] [|] [|] [|] [|] [|] [|]]; intros H;
    vm_compute in H; try discriminate H;
    unfold parseInt; rewrite trimStart_numeric by reflexivity; reflexivity.
Qed.

Lemma parseInt_negative (r : string) :
  parseInt (String "-" r)
  = match digits r None with
    | Some v => Int (toDouble (-1 * v))
    | None => NaN
    end.
Proof.
  unfold parseInt. rewrite trimStart_numeric by reflexivity. reflexivity.
Qed.

Lemma string_of_uint_head (d : Decimal.uint) :
  d <> Decimal.Nil ->
  exists a r k, NilEmpty.string_of_uint d = String a r /\ digit a = Some k.
Proof.
  destruct d; intros H; [congruence|..]; eexists _, _, _; split; reflexivity.
Qed.

Lemma parseInt_string_of_Z (z : Z) : parseInt (string_of_Z z) = Int (toDouble z).
Proof.
  unfold string_of_Z. destruct z as [|p|p]; cbn [Z.to_int NilZero.string_of_int].
  - reflexivity.
  - pose proof (DecimalPos.Unsigned.to_uint_nonnil p) as Hp.
    assert (Hd : digitsValue (Pos.to_uint p) 0 = Z.pos p).
    { rewrite digitsValue_of_uint. unfold Z.of_uint.
      now rewrite DecimalPos.Unsigned.of_to. }
    assert (Hs : NilZero.string_of_uint (Pos.to_uint p)
                 = NilEmpty.string_of_uint (Pos.to_uint p))
      by (destruct (Pos.to_uint p); [congruence|..]; reflexivity).
    destruct (string_of_uint_head _ Hp) as (a & r & k & Hhead & Hk).
    rewrite Hs, Hhead, (parseInt_unsigned a r k Hk), <- Hhead.
    rewrite digits_string_of_uint_fresh, Hd by exact Hp. reflexivity.
  - pose proof (DecimalPos.Unsigned.to_uint_nonnil p) as Hp.
    assert (Hd : digitsValue (Pos.to_uint p) 0 = Z.pos p).
    { rewrite digitsValue_of_uint. unfold Z.of_uint.
      now rewrite DecimalPos.Unsigned.of_to. }
    assert (Hs : NilZero.string_of_uint (Pos.to_uint p)
                 = NilEmpty.string_of_uint (Pos.to_uint p))
      by (destruct (Pos.to_uint p); [congruence|..]; reflexivity).
    rewrite parseInt_negative, Hs, digits_string_of_uint_fresh, Hd by exact Hp.
    reflexivity.
Qed.

(** An integer a double carries exactly is its own nearest double. *)
Lemma toDouble_safe (z : Z) :
  - 9007199254740991 <= z <= 9007199254740991 -> toDouble z = z.
Proof.
  intros Hz. unfold toDouble.
  destruct (Z.leb_spec (Z.abs z) 9007199254740992); [reflexivity | lia].
Qed.

(** [getVolume] reads back the number [setVolume] writes: for an integer
    that a double carries exactly (of magnitude at most 2^53 - 1), when the
    query prints its decimal digits followed by a line feed, that integer is
    the volume returned, and setting the volume to it sends the same
    digits. *)
Theorem volume_read_back
    (n : Z) (w : World) (stderr : string) (code : Z) :
  - 9007199254740991 <= n <= 9007199254740991 ->
  w ["osascript"; "-e"; "output volume of (get volume settings)"]
  = Completed (string_of_Z n ++ nl)%string stderr code ->
  fst (getVolume w) = Int n
  /\ out (setVolume (fst (getVolume w)))
     = [RunCommand ["osascript"; "-e";
                    ("set volume output volume " ++ string_of_Z n)%string]].
Proof.
  intros Hn Hw.
  assert (Hv : fst (getVolume w) = Int n).
  { unfold getVolume, volumeQuery. rewrite Hw. cbn [fst].
    destruct (numeric_string_of_Z n) as [Hc Hne].
    rewrite (trim_numeric_line _ Hc Hne), parseInt_string_of_Z.
    now rewrite toDouble_safe. }
  rewrite Hv. split; reflexivity.
Qed.

Lemma volume_read_back_witness :
  (- 9007199254740991 <= 40 <= 9007199254740991
   /\ speaker ["osascript"; "-e"; "output volume of (get volume settings)"]
      = Completed (string_of_Z 40 ++ nl)%string EmptyString 0)
  /\ fst (getVolume speaker) = Int 40.
Proof.
  assert (H : - 9007199254740991 <= 40 <= 9007199254740991) by lia.
  split; [split; [exact H | reflexivity]|].
  exact (proj1 (volume_read_back 40 speaker EmptyString 0 H eq_refl)).
Defined.

(** ** The whole run on a machine *)

(** Whatever mode [main] selects, when it returns, on a machine where the
    commands it has dropped the promise of and the completion sound can be
    started, the event loop runs the schedule to its end, with the same
    events at the same times.  The timer of [playPlaylist] fires in between,
    half a second in, exactly when [main] found the playlist it was asked
    for. *)
Theorem main_runs_schedule
    (cfg : Flags) (w : World) (env : Env) (e : Effects) (fuel : nat) :
  1 <= interval cfg -> 0 < work cfg -> 0 < break cfg ->
  longestDelay cfg <= TIMEOUT_MAX ->
  main cfg w = Running env e ->
  endsProcess w e = false ->
  rejects w ["afplay"; "/System/Library/Sounds/Hero.aiff"] = false ->
  (2 * Z.to_nat (interval cfg) + 7 <= fuel)%nat ->
  flags env = cfg
  /\ session w fuel (main cfg w)
     = (if playlistFound cfg w
        then insertSecond (500, ApplyShuffleRepeat) (scheduleFired env)
        else scheduleFired env)
  /\ snd (run fuel (main cfg w)) = []
  /\ timeline env (session w fuel (main cfg w)) = scheduleEvents env.
Proof.
  intros HN HW HB H32 Hmain He Hw Hfuel.
  destruct (run_after_main cfg w env e fuel HN HW HB H32 Hmain Hfuel)
    as (Hflags & Hrun & Htl).
  assert (Hs : session w fuel (main cfg w) = fst (run fuel (main cfg w))).
  { rewrite Hmain. now apply session_ok. }
  rewrite Hs, Hrun. cbn [fst snd]. rewrite Hrun in Htl.
  repeat split; assumption.
Qed.

Lemma main_runs_schedule_witness :
  (1 <= interval (playlistFlags true) /\ 0 < work (playlistFlags true)
   /\ 0 < break (playlistFlags true)
   /\ longestDelay (playlistFlags true) <= TIMEOUT_MAX
   /\ (exists env e,
         main (playlistFlags true) fullLibrary = Running env e
         /\ endsProcess fullLibrary e = false)
   /\ (exists env e,
         main (playlistFlags true) emptyLibrary = Running env e
         /\ endsProcess emptyLibrary e = false)
   /\ rejects fullLibrary ["afplay"; "/System/Library/Sounds/Hero.aiff"] = false
   /\ rejects emptyLibrary ["afplay"; "/System/Library/Sounds/Hero.aiff"] = false
   /\ (2 * Z.to_nat (interval (playlistFlags true)) + 7 <= 15)%nat)
  /\ (exists env,
        session fullLibrary 15 (main (playlistFlags true) fullLibrary)
        = insertSecond (500, ApplyShuffleRepeat) (scheduleFired env))
  /\ (exists env,
        session emptyLibrary 15 (main (playlistFlags true) emptyLibrary)
        = scheduleFired env).
Proof.
  assert (H : 1 <= interval (playlistFlags true) /\ 0 < work (playlistFlags true)
              /\ 0 < break (playlistFlags true)
              /\ longestDelay (playlistFlags true) <= TIMEOUT_MAX
              /\ (exists env e,
                    main (playlistFlags true) fullLibrary = Running env e
                    /\ endsProcess fullLibrary e = false)
              /\ (exists env e,
                    main (playlistFlags true) emptyLibrary = Running env e
                    /\ endsProcess emptyLibrary e = false)
              /\ rejects fullLibrary ["afplay"; "/System/Library/Sounds/Hero.aiff"]
                 = false
              /\ rejects emptyLibrary ["afplay"; "/System/Library/Sounds/Hero.aiff"]
                 = false
              /\ (2 * Z.to_nat (interval (playlistFlags true)) + 7 <= 15)%nat).
  { repeat split; try (simpl; lia); try (vm_compute; discriminate);
      eexists _, _; split; reflexivity. }
  split; [exact H|].
  destruct H as (HN & HW & HB & H32 & (env & e & Hmain & He)
                 & (env' & e' & Hmain' & He') & Hw & Hw' & Hfuel).
  split.
  - exists env.
    exact (proj1 (proj2 (main_runs_schedule (playlistFlags true) fullLibrary env e 15
                           HN HW HB H32 Hmain He Hw Hfuel))).
  - exists env'.
    exact (proj1 (proj2 (main_runs_schedule (playlistFlags true) emptyLibrary env' e' 15
                           HN HW HB H32 Hmain' He' Hw' Hfuel))).
Defined.

(** ** A break of zero minutes *)

Section ZeroBreak.

Variable env : Env.

Local Abbreviation N := (TOTAL_CYCLES env).
Local Abbreviation W := (WORK_INTERVAL_MS (flags env)).
Local Abbreviation CYC := (CYCLE_DURATION_MS (flags env)).
Local Abbreviation lb := (lastBreak (flags env)).

Hypothesis HN : 1 <= interval (flags env).
Hypothesis HW : 0 < work (flags env).
Hypothesis HB : break (flags env) = 0.
Hypothesis H32 : longestDelay (flags env) <= TIMEOUT_MAX.

Lemma CYC_is_W : CYC = W /\ 60000 <= W.
Proof using HW HB.
  unfold CYCLE_DURATION_MS, BREAK_INTERVAL_MS, WORK_INTERVAL_MS. rewrite HB. lia.
Qed.

Lemma ascending_cycleTimers_zero (todo : nat) :
  forall i lo, 0 <= i -> lo <= i * CYC -> i + Z.of_nat todo <= N ->
    ascending lo (cycleTimers env todo i ++ finalTimer env).
Proof using HN HW HB H32.
  destruct CYC_is_W as [Hc Hw]. pose proof H32 as Hmax.
  unfold longestDelay, TIMEOUT_MAX in Hmax. apply Z.max_lub_r in Hmax.
  unfold TOTAL_CYCLES in *.
  assert (Hstart : (interval (flags env) - 1) * CYC <= 2147483647)
    by (destruct lb; nia).
  assert (Htotal : lb = true -> interval (flags env) * CYC <= 2147483647)
    by (intros Hlb; rewrite Hlb in Hmax; lia).
  clear Hmax.
  induction todo as [|todo IH]; intros i lo Hi Hlo Hle; simpl;
    unfold TIMEOUT_MAX.
  - unfold finalTimer. destruct lb; simpl; [|exact I].
    specialize (Htotal eq_refl). unfold TIMEOUT_MAX, TOTAL_CYCLES in *.
    split; [nia|exact I].
  - unfold TIMEOUT_MAX, TOTAL_CYCLES in *. split; [nia|]. apply IH; nia.
Qed.

Lemma startTimers_queue_zero :
  arm 0 (armed (startTimers (flags env))) []
  = cycleTimers env (Z.to_nat N) 0 ++ finalTimer env.
Proof using HN HW HB H32.
  rewrite armed_startTimers.
  rewrite (arm_ascending _ 0) by
    (try lia; try constructor; apply ascending_cycleTimers_zero;
     unfold TOTAL_CYCLES; lia).
  reflexivity.
Qed.

(** The end of a work interval queues up behind the start of the next one,
    due at the same time, and ahead of what comes later. *)
Lemma enqueue_end_of_work (m : nat) (i : Z) :
  0 <= i -> i + 1 + Z.of_nat m = N ->
  enqueue (i * CYC + W, WorkElapsed (i + 1))
    (endOfWork env i ++ cycleTimers env m (i + 1) ++ finalTimer env)
  = endOfWork env i
    ++ match m with
       | O => finalTimer env ++ [(i * CYC + W, WorkElapsed (i + 1))]
       | S m' =>
           ((i + 1) * CYC, CallRunCycle (i + 1 + 1))
           :: (i * CYC + W, WorkElapsed (i + 1))
           :: cycleTimers env m' (i + 1 + 1) ++ finalTimer env
       end.
Proof using HW HB.
  destruct CYC_is_W as [Hc Hw]. intros Hi HiN.
  assert (Hrest : enqueue (i * CYC + W, WorkElapsed (i + 1))
                    (cycleTimers env m (i + 1) ++ finalTimer env)
                  = match m with
                    | O => finalTimer env ++ [(i * CYC + W, WorkElapsed (i + 1))]
                    | S m' =>
                        ((i + 1) * CYC, CallRunCycle (i + 1 + 1))
                        :: (i * CYC + W, WorkElapsed (i + 1))
                        :: cycleTimers env m' (i + 1 + 1) ++ finalTimer env
                    end).
  { destruct m as [|m'].
    - cbn [cycleTimers app]. unfold finalTimer. destruct lb; [|reflexivity].
      rewrite enqueue_behind by (cbn [fst]; nia). reflexivity.
    - cbn [cycleTimers app]. rewrite enqueue_behind by (cbn [fst]; nia).
      f_equal. destruct m' as [|m''].
      + cbn [cycleTimers app]. unfold finalTimer. destruct lb; [|reflexivity].
        cbn [enqueue fst]. destruct (Z.ltb_spec (i * CYC + W) (N * CYC));
          [reflexivity | nia].
      + cbn [cycleTimers app enqueue fst].
        destruct (Z.ltb_spec (i * CYC + W) ((i + 1 + 1) * CYC));
          [reflexivity | nia]. }
  unfold endOfWork. destruct (Z.eqb_spec i 0) as [->|Hi0].
  - cbn [app]. exact Hrest.
  - cbn [app]. rewrite enqueue_behind by (cbn [fst]; nia). now rewrite Hrest.
Qed.

Lemma loop_overlapped (m : nat) :
  forall (i : Z) (fuel : nat),
    0 <= i -> i + 1 + Z.of_nat m = N -> (2 * m + 9 <= fuel)%nat ->
    eventLoop fuel env
      ((i * CYC, CallRunCycle (i + 1))
       :: endOfWork env i ++ cycleTimers env m (i + 1) ++ finalTimer env)
    = (overlappedFired env m i, []).
Proof using HW HB H32.
  destruct CYC_is_W as [Hc Hw].
  assert (Hwm : W <= TIMEOUT_MAX)
    by (pose proof H32 as Hmax; unfold longestDelay in Hmax; lia).
  assert (Hprev : forall (i : Z) (fuel : nat) (q : Queue),
             0 <= i -> i < N -> (1 <= fuel)%nat ->
             eventLoop fuel env (endOfWork env i ++ q)
             = (endOfWork env i
                ++ fst (eventLoop (fuel - (if i =? 0 then 0 else 1)) env q),
                snd (eventLoop (fuel - (if i =? 0 then 0 else 1)) env q))).
  { intros i fuel q Hi HiN Hf. unfold endOfWork.
    destruct (Z.eqb_spec i 0) as [->|Hi0].
    - cbn [app]. rewrite Nat.sub_0_r. now destruct (eventLoop fuel env q).
    - destruct fuel as [|fuel]; [lia|]. cbn [app]. rewrite eventLoop_step.
      simpl handle. rewrite armed_breakStart, arm_nil.
      + now replace (S fuel - 1)%nat with fuel by lia.
      + destruct (Z.eqb_spec i N); [lia | reflexivity]. }
  induction m as [|m IH]; intros i fuel Hi HiN Hfuel.
  - destruct fuel as [|fuel]; [lia|]. rewrite eventLoop_step. simpl handle.
    rewrite armed_runCycle, arm_one by in_range.
    rewrite (enqueue_end_of_work 0 i Hi HiN).
    rewrite Hprev by lia. cbn [overlappedFired fst snd].
    assert (Hlast : (i + 1 =? N) = true) by (apply Z.eqb_eq; lia).
    assert (Hend : forall fuel',
               (7 <= fuel')%nat ->
               eventLoop fuel' env
                 (finalTimer env ++ [(i * CYC + W, WorkElapsed (i + 1))])
               = (finalTimer env ++ (i * CYC + W, WorkElapsed (i + 1))
                                 :: soundFired (i * CYC + W), [])).
    { intros fuel' Hf'. unfold finalTimer. destruct lb eqn:Hlb.
      - cbn [app]. destruct fuel' as [|fuel']; [lia|]. rewrite eventLoop_step.
        simpl handle. rewrite armed_runFinalActions, arm_one by in_range.
        rewrite enqueue_behind by (cbn [fst]; nia). cbn [enqueue].
        destruct fuel' as [|fuel']; [lia|]. rewrite eventLoop_step.
        simpl handle.
        rewrite armed_breakStart by (rewrite Hlb, andb_false_r; reflexivity).
        rewrite arm_nil, loop_sound by lia.
        replace (N * CYC) with (i * CYC + W) by nia. reflexivity.
      - cbn [app]. destruct fuel' as [|fuel']; [lia|]. rewrite eventLoop_step.
        simpl handle.
        rewrite armed_lastWork by (rewrite Hlb, Hlast; reflexivity).
        rewrite arm_one by in_range. cbn [enqueue].
        rewrite loop_sound by lia. reflexivity. }
    rewrite Hend by (destruct (i =? 0); lia). reflexivity.
  - destruct fuel as [|fuel]; [lia|]. rewrite eventLoop_step. simpl handle.
    rewrite armed_runCycle, arm_one by in_range.
    rewrite (enqueue_end_of_work (S m) i Hi HiN).
    rewrite Hprev by lia. cbn [overlappedFired fst snd].
    assert (Hnext : endOfWork env (i + 1) = [(i * CYC + W, WorkElapsed (i + 1))]).
    { unfold endOfWork. destruct (Z.eqb_spec (i + 1) 0); [lia|].
      now replace (i + 1 - 1) with i by lia. }
    change (((i + 1) * CYC, CallRunCycle (i + 1 + 1))
            :: (i * CYC + W, WorkElapsed (i + 1))
            :: cycleTimers env m (i + 1 + 1) ++ finalTimer env)
      with (((i + 1) * CYC, CallRunCycle (i + 1 + 1))
            :: [(i * CYC + W, WorkElapsed (i + 1))]
            ++ cycleTimers env m (i + 1 + 1) ++ finalTimer env).
    rewrite <- Hnext.
    rewrite (IH (i + 1)) by (destruct (i =? 0); lia).
    reflexivity.
Qed.

Lemma schedule_runs_overlapped (fuel : nat) :
  (2 * Z.to_nat N + 7 <= fuel)%nat ->
  schedule env fuel = (overlappedFired env (Z.to_nat N - 1) 0, []).
Proof using HN HW HB H32.
  intros Hfuel. unfold schedule. rewrite startTimers_queue_zero.
  destruct (N_succ env HN) as (m & E & Hm). rewrite E.
  replace (S m - 1)%nat with m by lia.
  exact (loop_overlapped m 0 fuel (Z.le_refl 0) ltac:(lia) ltac:(lia)).
Qed.

End ZeroBreak.

(** Equality of lists of timed events, up to arithmetic on times and cycle
    numbers. *)
Ltac same_events :=
  repeat match goal with
         | |- (_, _) = (_, _) => apply f_equal2
         | |- _ :: _ = _ :: _ => apply f_equal2
         | |- @eq Z _ _ => nia
         | |- WorkStart _ = WorkStart _ => apply f_equal
         | |- BreakStart _ = BreakStart _ => apply f_equal
         | |- _ => reflexivity
         end.

Lemma timeline_overlappedFired (env : Env) (m : nat) :
  0 < work (flags env) -> break (flags env) = 0 ->
  forall j,
    (1 <= j)%nat -> Z.of_nat j + 1 + Z.of_nat m = TOTAL_CYCLES env ->
    timeline env (overlappedFired env m (Z.of_nat j))
    = flat_map (fun k => [ (Z.of_nat k * WORK_INTERVAL_MS (flags env),
                            WorkStart (Z.of_nat k + 1));
                           (Z.of_nat k * WORK_INTERVAL_MS (flags env),
                            BreakStart (Z.of_nat k)) ])
        (seq j (S m))
      ++ (if lastBreak (flags env)
          then [ (TOTAL_CYCLES env * WORK_INTERVAL_MS (flags env), Completion);
                 (TOTAL_CYCLES env * WORK_INTERVAL_MS (flags env),
                  BreakStart (TOTAL_CYCLES env)) ]
          else [ (TOTAL_CYCLES env * WORK_INTERVAL_MS (flags env), Completion) ]).
Proof.
  intros HW HB. destruct (CYC_is_W env HW HB) as [Hc Hw].
  induction m as [|m IH]; intros j Hj HjN.
  - cbn [overlappedFired seq flat_map app]. unfold endOfWork.
    destruct (Z.eqb_spec (Z.of_nat j) 0) as [|_]; [lia|].
    cbn [app timeline event].
    destruct (Z.eqb_spec (Z.of_nat j) (TOTAL_CYCLES env)) as [|_]; [lia|].
    cbn [andb]. rewrite timeline_app. unfold finalTimer.
    destruct (Z.eqb_spec (Z.of_nat j + 1) (TOTAL_CYCLES env)) as [E|]; [|lia].
    destruct (lastBreak (flags env)) eqn:Hlb;
      cbn [timeline event app andb negb]; rewrite ?Hlb;
      try (destruct (Z.eqb_spec (Z.of_nat j + 1) (TOTAL_CYCLES env)); [|lia]);
      cbn [timeline event soundFired andb negb]; rewrite Hc; same_events.
  - cbn [overlappedFired]. unfold endOfWork at 1.
    destruct (Z.eqb_spec (Z.of_nat j) 0) as [|_]; [lia|].
    cbn [app timeline event].
    destruct (Z.eqb_spec (Z.of_nat j) (TOTAL_CYCLES env)) as [|_]; [lia|].
    cbn [andb].
    replace (Z.of_nat j + 1) with (Z.of_nat (S j)) by lia.
    rewrite (IH (S j)) by lia. rewrite Hc.
    remember (S m) as m' eqn:Em. cbn [seq flat_map app]. same_events.
Qed.

Lemma timeline_overlapped_session (env : Env) :
  1 <= interval (flags env) -> 0 < work (flags env) -> break (flags env) = 0 ->
  timeline env (overlappedFired env (Z.to_nat (TOTAL_CYCLES env) - 1) 0)
  = overlappedEvents env.
Proof.
  intros HN HW HB. destruct (CYC_is_W env HW HB) as [Hc Hw].
  unfold overlappedEvents. cbv zeta.
  destruct (N_succ env HN) as (m & E & Hm). rewrite E.
  replace (S m - 1)%nat with m by lia.
  destruct m as [|m].
  - cbn [overlappedFired seq flat_map app]. unfold endOfWork.
    cbn [Z.eqb app timeline event]. rewrite timeline_app. unfold finalTimer.
    destruct (Z.eqb_spec (0 + 1) (TOTAL_CYCLES env)) as [E1|]; [|lia].
    destruct (lastBreak (flags env)) eqn:Hlb;
      cbn [timeline event app andb negb]; rewrite ?Hlb;
      try (destruct (Z.eqb_spec (0 + 1) (TOTAL_CYCLES env)); [|lia]);
      cbn [timeline event soundFired andb negb]; rewrite ?Hc; same_events.
  - cbn [overlappedFired]. unfold endOfWork at 1. cbn [Z.eqb app timeline event].
    change (0 + 1) with (Z.of_nat 1).
    rewrite (timeline_overlappedFired env m HW HB 1) by lia.
    same_events.
Qed.

(** With a break of zero minutes, on a machine where the completion sound
    can be started, every timer of the session still fires, but each break
    start fires at the same moment as the next work start and after it, and
    with the final break included the last break start fires after the
    completion.  In System and YouTube mode the volume commands follow that
    order: from the second work start on, each command that restores the
    volume is followed, at the same moment, by the command that sets it to
    0; with the final break included that is also so at the completion. *)
Theorem zero_break_overlaps (env : Env) (w : World) (fuel : nat) :
  1 <= interval (flags env) -> 0 < work (flags env) -> break (flags env) = 0 ->
  longestDelay (flags env) <= TIMEOUT_MAX ->
  rejects w ["afplay"; "/System/Library/Sounds/Hero.aiff"] = false ->
  (2 * Z.to_nat (interval (flags env)) + 7 <= fuel)%nat ->
  let fired := untilRejection w env (fst (schedule env fuel)) in
  snd (schedule env fuel) = []
  /\ timeline env fired = overlappedEvents env
  /\ (operatingMode env <> music ->
      volumeSettings (handlersTrace env fired)
      = map (fun p => (fst p, levelAt env (snd p))) (overlappedEvents env)).
Proof.
  intros HN HW HB H32 Hw Hfuel fired. unfold fired.
  rewrite untilRejection_ok by exact Hw.
  rewrite (schedule_runs_overlapped env HN HW HB H32 fuel Hfuel). cbn [fst snd].
  split; [reflexivity|]. split.
  - now apply timeline_overlapped_session.
  - intros Hm. rewrite volumeSettings_handlersTrace by exact Hm.
    now rewrite timeline_overlapped_session.
Qed.

Lemma zero_break_overlaps_witness :
  (1 <= interval (flags noBreakEnv) /\ 0 < work (flags noBreakEnv)
   /\ break (flags noBreakEnv) = 0
   /\ longestDelay (flags noBreakEnv) <= TIMEOUT_MAX
   /\ rejects quiet ["afplay"; "/System/Library/Sounds/Hero.aiff"] = false
   /\ (2 * Z.to_nat (interval (flags noBreakEnv)) + 7 <= 13)%nat)
  /\ volumeSettings
       (handlersTrace noBreakEnv
          (untilRejection quiet noBreakEnv (fst (schedule noBreakEnv 13))))
     = [ (0, "40"); (1500000, "40"); (1500000, "0"); (3000000, "40");
         (3000000, "0"); (4500000, "40"); (4500000, "0") ].
Proof.
  assert (H : 1 <= interval (flags noBreakEnv) /\ 0 < work (flags noBreakEnv)
              /\ break (flags noBreakEnv) = 0
              /\ longestDelay (flags noBreakEnv) <= TIMEOUT_MAX
              /\ rejects quiet ["afplay"; "/System/Library/Sounds/Hero.aiff"] = false
              /\ (2 * Z.to_nat (interval (flags noBreakEnv)) + 7 <= 13)%nat)
    by concrete.
  split; [exact H|]. destruct H as (HN & HW & HB & H32 & Hw & Hfuel).
  destruct (zero_break_overlaps noBreakEnv quiet 13 HN HW HB H32 Hw Hfuel)
    as (_ & _ & Hv).
  rewrite Hv by discriminate. reflexivity.
Defined.

(** ** Playback in Music mode *)

Lemma playback_app (a b : list (Z * Action)) :
  playback (a ++ b) = playback a ++ playback b.
Proof. apply flat_map_app. Qed.

(** In Music mode a handler sends one playback command when it stands for
    an event of the schedule, and none otherwise. *)
Lemma playback_handle (env : Env) (t : Z) (f : Timer) :
  operatingMode env = music ->
  playback (map (pair t) (out (handle env f)))
  = match event env f with
    | Some e => [(t, verbAt e)]
    | None => []
    end.
Proof.
  intros Hm.
  destruct f as [k|k| | |i]; simpl;
    unfold runCycle, workElapsed, runFinalActions, completionSoundFrom;
    rewrite ?Hm.
  - reflexivity.
  - destruct ((k =? TOTAL_CYCLES env) && negb (lastBreak (flags env))); reflexivity.
  - reflexivity.
  - reflexivity.
  - destruct (i <? 5); reflexivity.
Qed.

Lemma playback_handlersTrace (env : Env) (fired : list (Z * Timer)) :
  operatingMode env = music ->
  playback (handlersTrace env fired)
  = map (fun p => (fst p, verbAt (snd p))) (timeline env fired).
Proof.
  intros Hm. induction fired as [|[t f] fired IH]; [reflexivity|].
  rewrite handlersTrace_cons, playback_app, IH, playback_handle by exact Hm.
  cbn [timeline]. destruct (event env f); reflexivity.
Qed.

(** In Music mode the Music application is told to play, to pause or to stop
    at these moments of the run and at no other: by [main], to play the
    playlist, when and only when the playlist was found; and then once for
    each event of the schedule, to play at a work start, to pause at a break
    start and to stop at the completion. *)
Theorem playback_follows_events
    (cfg : Flags) (w : World) (env : Env) (e : Effects) (name : string)
    (fuel : nat) :
  main cfg w = Running env e ->
  operatingMode env = music ->
  truthy (playlist cfg) = Some name ->
  playback (trace (main cfg w) (fst (run fuel (main cfg w))))
  = (if foundIn w name
     then [(0, ("play playlist " ++ dq ++ sanitize name ++ dq)%string)]
     else [])
    ++ map (fun p => (fst p, verbAt (snd p)))
         (timeline env (fst (run fuel (main cfg w)))).
Proof.
  intros Hmain Hm Hname. rewrite Hmain. unfold trace. cbn [done].
  change (flat_map (fun p => map (pair (fst p)) (out (handle env (snd p))))
            (fst (run fuel (Running env e))))
    with (handlersTrace env (fst (run fuel (Running env e)))).
  rewrite playback_app, playback_handlersTrace by exact Hm.
  f_equal. rewrite <- foundIn_playlistExists.
  destruct (main_cases cfg w) as [(url & Hu) | [(Hu & name' & Ht) | [(Hu & Ht) | Hu]]].
  - rewrite (main_youtube cfg w url Hu) in Hmain.
    injection Hmain as <- _. discriminate Hm.
  - rewrite Hname in Ht. injection Ht as <-.
    rewrite (main_music cfg w name Hu Hname) in Hmain. cbv zeta in Hmain.
    unfold playlistExists in *.
    destruct (w ["osascript"; "-e"; playlistExistsScript name]) as [msg|so se c];
      cbn [fst snd] in *;
      [|destruct (String.eqb (trim so) "true")];
      destruct (search cfg); try discriminate Hmain;
      injection Hmain as _ <-;
      cbn [out andThen]; rewrite out_startTimers; reflexivity.
  - rewrite (main_system cfg w Hu Ht) in Hmain.
    injection Hmain as <- _. discriminate Hm.
  - rewrite (main_threw cfg w Hu) in Hmain. discriminate Hmain.
Qed.

Lemma playback_follows_events_witness :
  (exists env e,
      main (playlistFlags false) fullLibrary = Running env e
      /\ operatingMode env = music
      /\ truthy (playlist (playlistFlags false)) = Some "Lofi Beats")
  /\ playback (trace (main (playlistFlags false) fullLibrary)
                 (fst (run 15 (main (playlistFlags false) fullLibrary))))
     = [ (0, ("play playlist " ++ dq ++ "Lofi Beats" ++ dq)%string);
         (0, "play"); (1500000, "pause"); (1800000, "play"); (3300000, "pause");
         (3600000, "play"); (5100000, "pause"); (5400000, "play");
         (6900000, "stop") ].
Proof.
  assert (H : exists env e,
             main (playlistFlags false) fullLibrary = Running env e
             /\ operatingMode env = music
             /\ truthy (playlist (playlistFlags false)) = Some "Lofi Beats")
    by (eexists _, _; repeat split; reflexivity).
  split; [exact H|]. destruct H as (env & e & Hmain & Hm & Hname).
  rewrite (playback_follows_events (playlistFlags false) fullLibrary env e
             "Lofi Beats" 15 Hmain Hm Hname).
  vm_compute in Hmain. injection Hmain as <- _. reflexivity.
Defined.

(** ** The end of the run *)

Lemma length_cyclesFired (env : Env) (todo : nat) (i : Z) :
  List.length (cyclesFired env todo i) = (2 * todo)%nat.
Proof.
  revert i. induction todo as [|todo IH]; intros i; [reflexivity|].
  cbn [cyclesFired List.length]. rewrite IH. lia.
Qed.

(** How a session ends.  On a machine where [afplay] can be started, the
    last timer to fire is the fifth resumption of [playCompletionSound],
    1750 ms after the completion, and the timers fired are two for each
    cycle and five for the sound, and one more for the completion when the
    final break is included.  On a machine where it cannot, the last timer
    to fire is the one of the completion.  Either way every event of the
    schedule has happened by then. *)
Theorem session_length (env : Env) (w : World) (fuel : nat) :
  1 <= interval (flags env) -> 0 < work (flags env) -> 0 < break (flags env) ->
  longestDelay (flags env) <= TIMEOUT_MAX ->
  (2 * Z.to_nat (interval (flags env)) + 6 <= fuel)%nat ->
  let fired := untilRejection w env (fst (schedule env fuel)) in
  timeline env fired = scheduleEvents env
  /\ if rejects w ["afplay"; "/System/Library/Sounds/Hero.aiff"]
     then exists before f,
            fired = before ++ [(completionTime env, f)]
            /\ event env f = Some Completion
     else (exists before,
             fired = before ++ [(completionTime env + 1750, ResumeCompletionSound 5)])
          /\ List.length fired
             = (2 * Z.to_nat (interval (flags env)) + 5
                + (if lastBreak (flags env) then 1 else 0))%nat.
Proof.
  intros HN HW HB H32 Hfuel fired. unfold fired.
  rewrite (schedule_runs env HN HW HB H32 fuel Hfuel). cbn [fst].
  split; [now apply timeline_untilRejection|].
  destruct (rejects w ["afplay"; "/System/Library/Sounds/Hero.aiff"]) eqn:Hw.
  - destruct (scheduleFired_split env HN) as (pre & f & -> & Hf & He & Hpre).
    rewrite (untilRejection_completion w env pre _ _ f Hw Hpre Hf He).
    exists pre, f. split; [reflexivity | exact He].
  - rewrite untilRejection_ok by exact Hw. split.
    + unfold scheduleFired, ending, soundFired.
      eexists (cyclesFired env (Z.to_nat (TOTAL_CYCLES env)) 0 ++ finalTimer env
               ++ [_; _; _; _]).
      rewrite <- !app_assoc. reflexivity.
    + unfold scheduleFired, ending. rewrite !List.length_app, length_cyclesFired.
      unfold finalTimer, TOTAL_CYCLES.
      destruct (lastBreak (flags env)); cbn [List.length soundFired]; lia.
Qed.

Lemma session_length_witness :
  (1 <= interval (flags standardEnv) /\ 0 < work (flags standardEnv)
   /\ 0 < break (flags standardEnv)
   /\ longestDelay (flags standardEnv) <= TIMEOUT_MAX
   /\ (2 * Z.to_nat (interval (flags standardEnv)) + 6 <= 14)%nat)
  /\ List.length (untilRejection quiet standardEnv (fst (schedule standardEnv 14)))
     = 13%nat.
Proof.
  assert (H : 1 <= interval (flags standardEnv) /\ 0 < work (flags standardEnv)
              /\ 0 < break (flags standardEnv)
              /\ longestDelay (flags standardEnv) <= TIMEOUT_MAX
              /\ (2 * Z.to_nat (interval (flags standardEnv)) + 6 <= 14)%nat)
    by concrete.
  split; [exact H|]. destruct H as (HN & HW & HB & H32 & Hfuel).
  exact (proj2 (proj2 (session_length standardEnv quiet 14 HN HW HB H32 Hfuel))).
Defined.
